(** * DungeoGo: connection and session-protocol subsystem

    A shallow embedding of [pkg/server] (the [Client] session transport, the
    [ConnectionManager] registry and acceptor, and the [SessionHandler]
    protocol driver) together with the properties stated for them.

    Conventions.
    - A Go [string] is a sequence of bytes: it is a [string] here, whose
      characters are the 8-bit [ascii] values.
    - A [*Client] is an address in a store of client records; the two maps of
      the connection manager hold addresses, so that two entries may alias the
      same record exactly as in the source.
    - The per-record and registry mutexes serialise the operations; the
      embedding is the sequential behaviour of each operation.
    - Diagnostic [fmt.Printf] output on the server console is not part of the
      state. *)

From Stdlib Require Import ZArith NArith Ascii String List Lia.
From stdpp Require Import base gmap strings list.
From Equations Require Import Equations.

Local Open Scope string_scope.
Local Open Scope Z_scope.

(** ** Bytes and Go strings *)

Abbreviation byte := ascii.

Definition byte_val (b : byte) : N := N_of_ascii b.

Definition IAC : byte := ascii_of_N 255.
Definition LF : byte := ascii_of_N 10.
Definition CR : byte := ascii_of_N 13.

Definition bytes (l : list N) : string :=
  string_of_list_ascii (map ascii_of_N l).

(** [IAC WILL ECHO] and [IAC WONT ECHO]. *)
Definition IAC_WILL_ECHO : string := bytes [255; 251; 1]%N.
Definition IAC_WONT_ECHO : string := bytes [255; 252; 1]%N.

Definition CRLF : string := bytes [13; 10]%N.

(** The Go conversion [string(b)] of an integer value [b]: the UTF-8
    encoding of the code point [b].  For a [byte] this is the byte itself
    below 128 and a two-byte sequence from 128 on. *)
Definition runeString (b : byte) : string :=
  let n := byte_val b in
  if (n <? 128)%N then String b ""
  else String (ascii_of_N (N.lor 192 (N.shiftr n 6)))
         (String (ascii_of_N (N.lor 128 (N.land n 63))) "").

(** ** The connection ([net.Conn]) *)

(** Outcome of one attempt to read a byte from the stream. *)
Inductive ReadRes :=
| RByte (b : byte)
| RErr.

(** What has been done on the wire, oldest first. *)
Inductive WireEvent :=
| ConnWrite (data : string) (ok : bool)   (* a direct [conn.Write] and whether it succeeded *)
| Flushed (data : string)                 (* [writer.WriteString] followed by [Flush] *)
| ConnClose.                              (* [conn.Close] *)

(** A connection is described by what the peer will do (the outcomes of
    the byte reads still to come, after which every read fails, and the
    outcomes of the direct writes still to come, after which writes succeed)
    and by what the server did on it. *)
Record Conn := mkConn {
  incoming : list ReadRes;
  wresults : list bool;
  wire : list WireEvent;
  closed : bool
}.

Definition conn_Write (data : string) (k : Conn) : bool * Conn :=
  let ok := negb (closed k) && hd true (wresults k) in
  (ok, mkConn (incoming k) (tl (wresults k)) (wire k ++ [ConnWrite data ok]) (closed k)).

Definition conn_Flush (data : string) (k : Conn) : Conn :=
  mkConn (incoming k) (wresults k) (wire k ++ [Flushed data]) (closed k).

Definition conn_Close (k : Conn) : Conn :=
  mkConn (incoming k) (wresults k) (wire k ++ [ConnClose]) true.

Definition conn_ReadByte (k : Conn) : option byte * Conn :=
  match incoming k with
  | [] => (None, k)
  | RByte b :: rest => (Some b, mkConn rest (wresults k) (wire k) (closed k))
  | RErr :: rest => (None, mkConn rest (wresults k) (wire k) (closed k))
  end.

(** ** The session transport ([Client]) *)

Inductive ClientState :=
| StateConnected
| StateAuthenticating
| StateCreatingAccount
| StateConfirmingPassword
| StateCharacterSelection
| StateInGame
| StateDisconnecting.

#[global] Instance ClientState_eq_dec : EqDecision ClientState.
Proof. solve_decision. Defined.

Inductive error :=
| ErrClientDisconnected
| ErrRead
| ErrWrite.

Record Client := mkClient {
  ID : string;
  conn : Conn;
  connected : bool;
  playerID : string;
  characterID : string;
  state : ClientState;
  lastActive : Z;
  tempUsername : string;
  tempPassword : string;
  tempEmail : string
}.

Definition NewClient (id : string) (k : Conn) (now : Z) : Client :=
  mkClient id k true "" "" StateConnected now "" "" "".

Definition with_conn (k : Conn) (c : Client) : Client :=
  mkClient (ID c) k (connected c) (playerID c) (characterID c) (state c)
    (lastActive c) (tempUsername c) (tempPassword c) (tempEmail c).

Definition SetPlayerID (p : string) (c : Client) : Client :=
  mkClient (ID c) (conn c) (connected c) p (characterID c) (state c)
    (lastActive c) (tempUsername c) (tempPassword c) (tempEmail c).

Definition SetCharacterID (ch : string) (c : Client) : Client :=
  mkClient (ID c) (conn c) (connected c) (playerID c) ch (state c)
    (lastActive c) (tempUsername c) (tempPassword c) (tempEmail c).

Definition SetState (s : ClientState) (c : Client) : Client :=
  mkClient (ID c) (conn c) (connected c) (playerID c) (characterID c) s
    (lastActive c) (tempUsername c) (tempPassword c) (tempEmail c).

Definition updateLastActive (now : Z) (c : Client) : Client :=
  mkClient (ID c) (conn c) (connected c) (playerID c) (characterID c) (state c)
    now (tempUsername c) (tempPassword c) (tempEmail c).

Definition SetTempUsername (u : string) (c : Client) : Client :=
  mkClient (ID c) (conn c) (connected c) (playerID c) (characterID c) (state c)
    (lastActive c) u (tempPassword c) (tempEmail c).

Definition SetTempPassword (p : string) (c : Client) : Client :=
  mkClient (ID c) (conn c) (connected c) (playerID c) (characterID c) (state c)
    (lastActive c) (tempUsername c) p (tempEmail c).

Definition SetTempEmail (e : string) (c : Client) : Client :=
  mkClient (ID c) (conn c) (connected c) (playerID c) (characterID c) (state c)
    (lastActive c) (tempUsername c) (tempPassword c) e.

Definition ClearTempData (c : Client) : Client :=
  mkClient (ID c) (conn c) (connected c) (playerID c) (characterID c) (state c)
    (lastActive c) "" "" "".

Definition IsConnected (c : Client) : bool := connected c.

Definition GetID (c : Client) : string := ID c.
Definition GetPlayerID (c : Client) : string := playerID c.
Definition GetCharacterID (c : Client) : string := characterID c.
Definition GetState (c : Client) : ClientState := state c.
Definition GetLastActive (c : Client) : Z := lastActive c.
Definition GetTempUsername (c : Client) : string := tempUsername c.
Definition GetTempPassword (c : Client) : string := tempPassword c.
Definition GetTempEmail (c : Client) : string := tempEmail c.

Definition IsIdle (now timeout : Z) (c : Client) : bool :=
  timeout <? now - lastActive c.

(** [Close]: does nothing on a record that is already disconnected. *)
Definition Close (c : Client) : Client :=
  if negb (connected c) then c
  else mkClient (ID c) (conn_Close (conn c)) false (playerID c) (characterID c)
         StateDisconnecting (lastActive c) (tempUsername c) (tempPassword c)
         (tempEmail c).

(** [Send] and [SendPrompt] on a connected client hand the text to the
    buffered writer and flush it; every caller ignores their result, and a
    failure of the buffered write itself is not modelled. *)
Definition Send (message : string) (c : Client) : option error * Client :=
  if negb (connected c) then (Some ErrClientDisconnected, c)
  else (None, with_conn (conn_Flush (message ++ CRLF) (conn c)) c).

Definition SendPrompt (prompt : string) (c : Client) : option error * Client :=
  if negb (connected c) then (Some ErrClientDisconnected, c)
  else (None, with_conn (conn_Flush prompt (conn c)) c).

Definition ReadByte (c : Client) : option byte * Client :=
  let '(r, k) := conn_ReadByte (conn c) in (r, with_conn k c).

(** [reader.ReadString('\n')]: the bytes up to and including the first
    newline, or an error when a read fails first. *)
Fixpoint ReadString (s : list ReadRes) (acc : string) : option string * list ReadRes :=
  match s with
  | [] => (None, [])
  | RErr :: rest => (None, rest)
  | RByte b :: rest =>
      if decide (b = LF) then (Some (acc ++ String b ""), rest)
      else ReadString rest (acc ++ String b "")
  end.

Definition last_byte (s : string) : option byte :=
  last (list_ascii_of_string s).

Definition drop_last (s : string) : string :=
  string_of_list_ascii (removelast (list_ascii_of_string s)).

Definition ReadLine (now : Z) (c : Client) : (string * option error) * Client :=
  let c := updateLastActive now c in
  let '(r, rest) := ReadString (incoming (conn c)) "" in
  let c := with_conn (mkConn rest (wresults (conn c)) (wire (conn c)) (closed (conn c))) c in
  match r with
  | None => (("", Some ErrRead), c)
  | Some line =>
      let line := if decide (last_byte line = Some LF) then drop_last line else line in
      let line := if decide (last_byte line = Some CR) then drop_last line else line in
      ((line, None), c)
  end.

Definition inspect {A} (a : A) : {b | a = b} := exist _ a eq_refl.

(** The read loop of [ReadPassword].  The result is [Some line] when the
    loop is left by [break] and [None] when it is left by the error return,
    which first writes [IAC WONT ECHO]. *)
Equations? readPasswordLoop (c : Client) (line : string) : option string * Client
  by wf (length (incoming (conn c))) lt :=
  readPasswordLoop c line with inspect (ReadByte c) => {
    | exist _ (None, c1) _ :=
        (None, with_conn (snd (conn_Write IAC_WONT_ECHO (conn c1))) c1);
    | exist _ (Some char, c1) _ with decide (char = IAC) => {
      | left _ := readPasswordLoop (snd (ReadByte (snd (ReadByte c1)))) line;
      | right _ with decide (char = LF) => {
        | left _ := (Some line, c1);
        | right _ with decide (char = CR) => {
          | left _ := readPasswordLoop c1 line;
          | right _ := readPasswordLoop c1 (line ++ runeString char) } } } }.
Proof.
  all: assert (Hle : forall x, (length (incoming (conn (snd (ReadByte x)))) <=
                               length (incoming (conn x)))%nat)
    by (intros x; unfold ReadByte, conn_ReadByte;
        destruct (incoming (conn x)) as [|[?|] ?] eqn:E; simpl; rewrite ?E; simpl; lia).
  all: assert (Hlt : (length (incoming (conn c1)) < length (incoming (conn c)))%nat)
    by (revert e; unfold ReadByte, conn_ReadByte;
        destruct (incoming (conn c)) as [|[?|] ?] eqn:E; simpl; intros [= ? <-];
        simpl; lia).
  - pose proof (Hle c1). pose proof (Hle (snd (ReadByte c1))). lia.
  - exact Hlt.
  - exact Hlt.
Qed.

Definition ReadPassword (now : Z) (c : Client) : (string * option error) * Client :=
  let c := updateLastActive now c in
  let '(ok, k) := conn_Write IAC_WILL_ECHO (conn c) in
  let c := with_conn k c in
  if negb ok then (("", Some ErrWrite), c)
  else
    match readPasswordLoop c "" with
    | (None, c) => (("", Some ErrRead), c)
    | (Some line, c) =>
        let '(ok, k) := conn_Write IAC_WONT_ECHO (conn c) in
        let c := with_conn k c in
        if negb ok then (("", Some ErrWrite), c)
        else ((line, None), with_conn (conn_Flush CRLF (conn c)) c)
    end.

(** [only_read c c']: [c'] is [c] after some bytes were taken from the
    stream, and nothing else happened. *)
Definition only_read (c c' : Client) : Prop :=
  c' = with_conn (conn c') c /\
  wire (conn c') = wire (conn c) /\
  wresults (conn c') = wresults (conn c) /\
  closed (conn c') = closed (conn c).

(** What holds when the loop is left: by [break] nothing was written; by
    the error return exactly [IAC WONT ECHO] was written. *)
Definition loop_post (c : Client) (r : option string * Client) : Prop :=
  match fst r with
  | Some _ => only_read c (snd r)
  | None =>
      snd r = with_conn (conn (snd r)) c /\
      exists ok, wire (conn (snd r)) = (wire (conn c) ++ [ConnWrite IAC_WONT_ECHO ok])%list
  end.

(** ** What the specification says of a password read

    Written from the words of the specification: a 255 byte and the two
    bytes after it are discarded, a carriage return is discarded, the first
    newline reached ends the text, every other byte is kept.  [None] when
    the stream ends before a terminating newline. *)
Fixpoint spec_password_bytes (bs : list byte) : option (list byte) :=
  match bs with
  | [] => None
  | b :: rest =>
      if decide (b = IAC) then
        match rest with
        | _ :: _ :: rest' => spec_password_bytes rest'
        | _ => None
        end
      else if decide (b = LF) then Some []
      else if decide (b = CR) then spec_password_bytes rest
      else cons b <$> spec_password_bytes rest
  end.

(** The text built from the kept bytes by [line += string(char)]. *)
Fixpoint encode_bytes (bs : list byte) : string :=
  match bs with
  | [] => ""
  | b :: rest => runeString b ++ encode_bytes rest
  end.

Definition stream (bs : list byte) : list ReadRes := map RByte bs.

Definition writes_succeed (k : Conn) : Prop :=
  closed k = false /\ Forall (fun ok => ok = true) (wresults k).

Definition string_has (b : byte) (s : string) : Prop :=
  In b (list_ascii_of_string s).

Definition test_conn (bs : list N) : Conn :=
  mkConn (stream (map ascii_of_N bs)) [] [] false.

(** ** Predicates on client records *)

Definition temp_cleared (c : Client) : Prop :=
  tempUsername c = "" /\ tempPassword c = "" /\ tempEmail c = "".

Definition temp_kept (c c' : Client) : Prop :=
  tempUsername c' = tempUsername c /\
  tempPassword c' = tempPassword c /\
  tempEmail c' = tempEmail c.

(** [quiet c c']: nothing but the wire of the connection differs between
    [c] and [c']. *)
Definition quiet (c c' : Client) : Prop :=
  ID c' = ID c /\ connected c' = connected c /\ playerID c' = playerID c /\
  characterID c' = characterID c /\ state c' = state c /\
  lastActive c' = lastActive c /\ temp_kept c c' /\
  incoming (conn c') = incoming (conn c) /\ closed (conn c') = closed (conn c).

(** ** The connection registry and acceptor ([ConnectionManager]) *)

(** A [*Client]: the address of a record in the store. *)
Abbreviation ptr := nat.

Record ConnectionManager := mkManager {
  clients : gmap string ptr;
  playerClients : gmap string ptr;
  running : bool;
  maxClients : Z;
  idleTimeout : Z
}.

(** The manager together with the records its pointers refer to. *)
Record World := mkWorld {
  mgr : ConnectionManager;
  heap : gmap ptr Client
}.

Definition NewConnectionManager (maxClients idleTimeout : Z) : World :=
  mkWorld (mkManager ∅ ∅ false maxClients idleTimeout) ∅.

Definition with_clients (m : gmap string ptr) (cm : ConnectionManager) : ConnectionManager :=
  mkManager m (playerClients cm) (running cm) (maxClients cm) (idleTimeout cm).

Definition with_playerClients (m : gmap string ptr) (cm : ConnectionManager) : ConnectionManager :=
  mkManager (clients cm) m (running cm) (maxClients cm) (idleTimeout cm).

Definition with_running (b : bool) (cm : ConnectionManager) : ConnectionManager :=
  mkManager (clients cm) (playerClients cm) b (maxClients cm) (idleTimeout cm).

Definition getClientCount (w : World) : Z :=
  Z.of_nat (size (clients (mgr w))).

(** [createClient]; [clientID] is the identifier drawn by [uuid.New] and the
    new record gets an address that is not in use. *)
Definition createClient (k : Conn) (clientID : string) (now : Z) (w : World) : ptr * World :=
  let p := fresh (dom (heap w)) in
  let client := NewClient clientID k now in
  (p, mkWorld (with_clients (<[clientID := p]> (clients (mgr w))) (mgr w))
        (<[p := client]> (heap w))).

Definition server_full_message : string :=
  "Server is full. Please try again later." ++ CRLF.

(** One turn of the accept loop of [Start] for an accepted connection [k]
    (the loop runs while [running] is set; a turn is modelled whatever the
    flag, which only adds behaviours):
    either the connection is turned away (left: what became of it) or a
    client is created for it (right: its address), to be handed to the
    session handler. *)
Definition acceptConn (k : Conn) (clientID : string) (now : Z) (w : World)
  : (Conn + ptr) * World :=
  if getClientCount w >=? maxClients (mgr w) then
    (inl (conn_Close (snd (conn_Write server_full_message k))), w)
  else
    let '(p, w') := createClient k clientID now w in (inr p, w').

(** A pointer held by one of the maps always refers to a record of the
    store (see [wf_world]); the [None] branches below stand for the nil
    dereference that cannot occur. *)
Definition RemoveClient (clientID : string) (w : World) : World :=
  match clients (mgr w) !! clientID with
  | None => w
  | Some p =>
      match heap w !! p with
      | None => w
      | Some client =>
          let pcs :=
            if decide (playerID client <> "")
            then delete (playerID client) (playerClients (mgr w))
            else playerClients (mgr w) in
          mkWorld (with_clients (delete clientID (clients (mgr w)))
                     (with_playerClients pcs (mgr w)))
            (<[p := Close client]> (heap w))
      end
  end.

Definition GetClient (clientID : string) (w : World) : option ptr :=
  clients (mgr w) !! clientID.

Definition GetPlayerClient (playerID : string) (w : World) : option ptr :=
  playerClients (mgr w) !! playerID.

Definition RegisterPlayerClient (playerID : string) (client : ptr) (w : World) : World :=
  let h :=
    match playerClients (mgr w) !! playerID with
    | Some existingClient => alter Close existingClient (heap w)
    | None => heap w
    end in
  mkWorld (with_playerClients (<[playerID := client]> (playerClients (mgr w))) (mgr w))
    (alter (SetPlayerID playerID) client h).

Definition UnregisterPlayerClient (playerID : string) (w : World) : World :=
  mkWorld (with_playerClients (delete playerID (playerClients (mgr w))) (mgr w)) (heap w).

Definition Stop (w : World) : World :=
  mkWorld (with_running false (mgr w))
    (foldr (fun e h => alter Close (snd e) h) (heap w) (map_to_list (clients (mgr w)))).

Definition stale (now timeout : Z) (h : gmap ptr Client) (e : string * ptr) : bool :=
  match h !! snd e with
  | Some client => negb (IsConnected client) || IsIdle now timeout client
  | None => false
  end.

Definition performCleanup (now : Z) (w : World) : World :=
  let toRemove :=
    map fst (List.filter (stale now (idleTimeout (mgr w)) (heap w))
               (map_to_list (clients (mgr w)))) in
  foldl (fun w clientID => RemoveClient clientID w) w toRemove.

(** What can happen to the registry, in any order: the acceptor takes a
    connection, a record is removed, a player is registered or
    unregistered, the reaper runs, the server stops, or a session handler
    changes the record it drives. *)
Inductive Event :=
| EvAccept (k : Conn) (clientID : string) (now : Z)
| EvRemove (clientID : string)
| EvRegister (playerID : string) (client : ptr)
| EvUnregister (playerID : string)
| EvCleanup (now : Z)
| EvStop
| EvSession (client : ptr) (after : Client).

Definition step (w : World) (e : Event) : World :=
  match e with
  | EvAccept k clientID now => snd (acceptConn k clientID now w)
  | EvRemove clientID => RemoveClient clientID w
  | EvRegister playerID client => RegisterPlayerClient playerID client w
  | EvUnregister playerID => UnregisterPlayerClient playerID w
  | EvCleanup now => performCleanup now w
  | EvStop => Stop w
  | EvSession client after => mkWorld (mgr w) (alter (fun _ => after) client (heap w))
  end.

Definition run (w : World) (es : list Event) : World := foldl step w es.

(** A player can only be registered on a client that exists. *)
Definition event_ok (w : World) (e : Event) : Prop :=
  match e with
  | EvRegister _ client => is_Some (heap w !! client)
  | _ => True
  end.

(** A run whose events are all possible. *)
Fixpoint run_ok (w : World) (es : list Event) : Prop :=
  match es with
  | [] => True
  | e :: rest => event_ok w e /\ run_ok (step w e) rest
  end.

(** [h'] holds a record wherever [h] holds one. *)
Definition store_kept (h h' : gmap ptr Client) : Prop :=
  forall p, is_Some (h !! p) -> is_Some (h' !! p).

(** Every pointer held by the two maps refers to a record of the store. *)
Definition wf_world (w : World) : Prop :=
  (forall id p, clients (mgr w) !! id = Some p -> is_Some (heap w !! p)) /\
  (forall pid p, playerClients (mgr w) !! pid = Some p -> is_Some (heap w !! p)).

(** The bound kept by every step: the map never holds more than
    [maxClients] entries (none at all when [maxClients] is negative). *)
Definition bounded (maxc : Z) (w : World) : Prop :=
  maxClients (mgr w) = maxc /\ getClientCount w <= Z.max 0 maxc.

(** ** The collaborators of the session handler *)

Module player.

Inductive AccountStatus := AccountActive | AccountSuspended | AccountBanned.

Record Player := mkPlayer {
  ID : string;
  Username : string;
  Email : string;
  PasswordHash : string;
  CreatedAt : Z;
  LastLogin : Z;
  Status : AccountStatus;
  MaxCharacters : Z
}.

(** [id] is the identifier drawn by [uuid.New], [now] the current time. *)
Definition NewPlayer (id : string) (now : Z) (username email passwordHash : string) : Player :=
  mkPlayer id username email passwordHash now now AccountActive 5.

Definition IsActive (p : Player) : bool :=
  match Status p with AccountActive => true | _ => false end.

Definition UpdateLastLogin (now : Z) (p : Player) : Player :=
  mkPlayer (ID p) (Username p) (Email p) (PasswordHash p) (CreatedAt p) now
    (Status p) (MaxCharacters p).

End player.

Module interfaces.

Record CharacterSummary := mkSummary {
  ID : string;
  Name : string;
  Race : string;
  Class : string;
  Level : Z;
  Location : string;
  LastPlayed : string;
  IsAlive : bool
}.

End interfaces.

(** The library functions and the stores the handler calls.  [Repo] is the
    state of the backing store; an operation that may fail returns [None]
    (or [false]) on failure.  The standard-library functions on strings are
    taken as they are. *)
Class Collaborators (Repo Race Class Character : Type) := {
  (* strings, regexp, fmt *)
  TrimSpace : string -> string;
  Fields : string -> list string;
  ToLower : string -> string;
  EqualFold : string -> string -> bool;
  emailRegex_MatchString : string -> bool;
  formatCharacterRow : interfaces.CharacterSummary -> string -> string;
  (* bcrypt *)
  GenerateFromPassword : string -> option string;
  CompareHashAndPassword : string -> string -> bool;
  (* interfaces.PlayerRepository *)
  CreatePlayer : Repo -> player.Player -> bool * Repo;
  GetPlayer : Repo -> string -> option player.Player;
  GetPlayerByUsername : Repo -> string -> option player.Player;
  GetPlayerByEmail : Repo -> string -> option player.Player;
  UpdatePlayerLogin : Repo -> string -> Repo;
  (* interfaces.CharacterRepository *)
  CreateCharacter : Repo -> Character -> bool * Repo;
  GetCharactersByPlayer : Repo -> string -> option (list interfaces.CharacterSummary);
  (* package character *)
  GetRaceByID : string -> option Race;
  GetClassByID : string -> option Class;
  NewCharacter : string -> Z -> string -> string -> Race -> Class -> Character;
  (* GameEngine: the response lines, or the text of the error *)
  ProcessCommand : Repo -> string -> string -> (list string + string) * Repo
}.

(** What a handler draws from its surroundings during one call: the clock
    and a fresh identifier. *)
Record Ambient := mkAmbient {
  amb_now : Z;
  amb_uuid : string
}.

(** ** The session protocol driver ([SessionHandler]) *)

Section SessionHandler.

Context {Repo Race Class Character : Type}.
Context `{!Collaborators Repo Race Class Character}.

(** The record the handler drives and the store behind [repoManager]. *)
Record Session := mkSession {
  client : Client;
  repo : Repo
}.

Definition M (A : Type) : Type := Session -> A * Session.

Declare Scope session_scope.

Definition ret {A} (a : A) : M A := fun s => (a, s).

Definition bind {A B} (m : M A) (f : A -> M B) : M B :=
  fun s => let '(a, s') := m s in f a s'.

Notation "x ← y ; z" := (bind y (fun x => z))
  (at level 20, y at level 100, z at level 200, only parsing) : session_scope.
Notation "x ;; z" := (bind x (fun _ => z))
  (at level 100, z at level 200, only parsing, right associativity) : session_scope.
Local Open Scope session_scope.

(** A call on the client whose result the handler ignores. *)
Definition on_client (f : Client -> Client) : M unit :=
  fun s => (tt, mkSession (f (client s)) (repo s)).

Definition get_client {A} (f : Client -> A) : M A :=
  fun s => (f (client s), s).

Definition get_repo {A} (f : Repo -> A) : M A :=
  fun s => (f (repo s), s).

Definition on_repo {A} (f : Repo -> A * Repo) : M A :=
  fun s => let '(a, r) := f (repo s) in (a, mkSession (client s) r).

Definition send (message : string) : M unit :=
  on_client (fun c => snd (Send message c)).

Definition sendPrompt (prompt : string) : M unit :=
  on_client (fun c => snd (SendPrompt prompt c)).

Definition close : M unit := on_client Close.

Fixpoint forEach {A} (l : list A) (f : A -> M unit) : M unit :=
  match l with
  | [] => ret tt
  | x :: rest => f x ;; forEach rest f
  end.

Definition showCharacterMenu : M unit :=
  send (String LF "--- Character Selection ---") ;;
  send "Commands:" ;;
  send "  list (l)                 - List your characters" ;;
  send "  select (s) <name>        - Enter game with character" ;;
  send "  create (c) <name> <race> <class> - Create new character" ;;
  send "  delete (d) <name>        - Delete character" ;;
  send "  quit (q)                 - Disconnect" ;;
  send "" ;;
  sendPrompt "Character> ".

Definition handleLogin (username : string) : M unit :=
  let username := TrimSpace username in
  if decide (username = "") then
    send "Username cannot be empty. Please enter your username:" ;;
    sendPrompt "> "
  else
    r ← get_repo (fun db => GetPlayerByUsername db username) ;
    match r with
    | None =>
        (* New player - create account *)
        on_client (SetTempUsername username) ;;
        send ("New player! Creating account for: " ++ username) ;;
        send "Please enter your email address:" ;;
        sendPrompt "Email: " ;;
        on_client (SetState StateCreatingAccount)
    | Some existingPlayer =>
        if negb (player.IsActive existingPlayer) then
          send "Your account has been suspended. Please contact an administrator." ;;
          close
        else
          send "Please enter your password:" ;;
          on_client (SetState StateAuthenticating) ;;
          on_client (SetPlayerID (player.ID existingPlayer))
    end.

Definition handlePasswordAuth (amb : Ambient) (password : string) : M unit :=
  let password := TrimSpace password in
  if decide (password = "") then
    send "Password cannot be empty. Please enter your password:" ;;
    sendPrompt "Password: "
  else
    playerID ← get_client GetPlayerID ;
    if decide (playerID = "") then
      send "Account creation not fully implemented yet." ;;
      close
    else
      r ← get_repo (fun db => GetPlayer db playerID) ;
      match r with
      | None =>
          send "Authentication failed." ;;
          close
      | Some existingPlayer =>
          if negb (CompareHashAndPassword (player.PasswordHash existingPlayer) password) then
            send "Invalid password." ;;
            close
          else
            (* Authentication successful *)
            let existingPlayer := player.UpdateLastLogin (amb_now amb) existingPlayer in
            on_repo (fun db => (tt, UpdatePlayerLogin db playerID)) ;;
            send ("Welcome back, " ++ player.Username existingPlayer ++ "!") ;;
            on_client (SetState StateCharacterSelection) ;;
            showCharacterMenu
      end.

Definition listCharacters : M unit :=
  pid ← get_client GetPlayerID ;
  r ← get_repo (fun db => GetCharactersByPlayer db pid) ;
  match r with
  | None => send "Error retrieving characters."
  | Some [] =>
      send "You have no characters. Use 'create <name> <race> <class>' to create one."
  | Some characters =>
      send (String LF "Your Characters:") ;;
      send "Name           Race      Class     Level  Status    Last Played" ;;
      send "--------------------------------------------------------------" ;;
      forEach characters (fun char =>
        let status := if negb (interfaces.IsAlive char) then "Dead" else "Alive" in
        send (formatCharacterRow char status)) ;;
      send ""
  end.

(** The loop of [selectCharacter]: the first character whose name matches
    is entered; [false] when none matches. *)
Fixpoint selectFirst (characters : list interfaces.CharacterSummary) (name : string) : M bool :=
  match characters with
  | [] => ret false
  | char :: rest =>
      if EqualFold (interfaces.Name char) name then
        on_client (SetCharacterID (interfaces.ID char)) ;;
        on_client (SetState StateInGame) ;;
        send ("Welcome, " ++ interfaces.Name char ++ "!") ;;
        send "You enter the game world..." ;;
        sendPrompt "> " ;;
        ret true
      else selectFirst rest name
  end.

Definition selectCharacter (name : string) : M unit :=
  pid ← get_client GetPlayerID ;
  r ← get_repo (fun db => GetCharactersByPlayer db pid) ;
  match r with
  | None => send "Error retrieving characters."
  | Some characters =>
      found ← selectFirst characters name ;
      if found : bool then ret tt
      else send ("Character '" ++ name ++ "' not found.")
  end.

Definition createCharacter (amb : Ambient) (name raceStr classStr : string) : M unit :=
  match GetRaceByID (ToLower raceStr) with
  | None =>
      send ("Invalid race: " ++ raceStr) ;;
      send "Available races: human, elf, dwarf"
  | Some race =>
      match GetClassByID (ToLower classStr) with
      | None =>
          send ("Invalid class: " ++ classStr) ;;
          send "Available classes: warrior, mage, rogue"
      | Some class =>
          pid ← get_client GetPlayerID ;
          let newChar := NewCharacter (amb_uuid amb) (amb_now amb) pid name race class in
          ok ← on_repo (fun db => CreateCharacter db newChar) ;
          if ok : bool then send ("Character '" ++ name ++ "' created successfully!")
          else send "Error creating character. Name might already be taken."
      end
  end.

Definition deleteCharacter (name : string) : M unit :=
  send "Character deletion not implemented yet.".

Definition handleCharacterSelection (amb : Ambient) (input : string) : M unit :=
  let input := TrimSpace input in
  let parts := Fields input in
  match parts with
  | [] => showCharacterMenu
  | part0 :: args =>
      let command := ToLower part0 in
      (if decide (command = "list" \/ command = "l") then
         listCharacters
       else if decide (command = "select" \/ command = "s") then
         match args with
         | [] => send "Usage: select <character_name>"
         | name :: _ => selectCharacter name
         end
       else if decide (command = "create" \/ command = "c") then
         match args with
         | name :: raceStr :: classStr :: _ => createCharacter amb name raceStr classStr
         | _ => send "Usage: create <name> <race> <class>"
         end
       else if decide (command = "delete" \/ command = "d") then
         match args with
         | [] => send "Usage: delete <character_name>"
         | name :: _ => deleteCharacter name
         end
       else if decide (command = "quit" \/ command = "q") then
         send "Goodbye!" ;;
         close
       else
         send "Unknown command. Type 'list' to see your characters.") ;;
      st ← get_client GetState ;
      if decide (st = StateCharacterSelection) then sendPrompt "Character> " else ret tt
  end.

Definition handleGameCommand (input : string) : M unit :=
  characterID ← get_client GetCharacterID ;
  if decide (characterID = "") then
    send "Error: No character selected." ;;
    on_client (SetState StateCharacterSelection) ;;
    showCharacterMenu
  else
    r ← on_repo (fun db => ProcessCommand db characterID input) ;
    match r with
    | inr err => send ("Error: " ++ err)
    | inl responses => forEach responses send
    end ;;
    sendPrompt "> ".

Definition handleAccountCreation (input : string) : M unit :=
  let input := TrimSpace input in
  if decide (input = "") then
    send "Email cannot be empty. Please enter your email address:" ;;
    sendPrompt "Email: "
  else if negb (emailRegex_MatchString input) then
    send "Invalid email format. Please enter a valid email address:" ;;
    sendPrompt "Email: "
  else
    r ← get_repo (fun db => GetPlayerByEmail db input) ;
    match r with
    | Some _ =>
        send "An account with this email already exists." ;;
        send "Please try logging in or use a different email address." ;;
        close
    | None =>
        on_client (SetTempEmail input) ;;
        send "Please choose a password (minimum 6 characters):" ;;
        on_client (SetState StateConfirmingPassword)
    end.

Definition createAccount (amb : Ambient) : M unit :=
  username ← get_client GetTempUsername ;
  email ← get_client GetTempEmail ;
  password ← get_client GetTempPassword ;
  match GenerateFromPassword password with
  | None =>
      send "Failed to create account due to internal error." ;;
      close
  | Some passwordHash =>
      let newPlayer := player.NewPlayer (amb_uuid amb) (amb_now amb) username email passwordHash in
      ok ← on_repo (fun db => CreatePlayer db newPlayer) ;
      if negb ok then
        send "Failed to create account. Username might already be taken." ;;
        close
      else
        (* Clear temporary data *)
        on_client ClearTempData ;;
        on_client (SetPlayerID (player.ID newPlayer)) ;;
        send ("Account created successfully! Welcome to DungeoGo, " ++ username ++ "!") ;;
        on_client (SetState StateCharacterSelection) ;;
        showCharacterMenu
  end.

Definition handlePasswordConfirmation (amb : Ambient) (password : string) : M unit :=
  let password := TrimSpace password in
  stored ← get_client GetTempPassword ;
  if decide (stored = "") then
    (* First password entry *)
    if (String.length password <? 6)%nat then
      send "Password must be at least 6 characters long." ;;
      send "Please choose a password (minimum 6 characters):"
    else
      on_client (SetTempPassword password) ;;
      send "Please confirm your password:"
  else
    storedPassword ← get_client GetTempPassword ;
    if decide (storedPassword <> password) then
      send "Passwords do not match." ;;
      on_client (SetTempPassword "") ;;
      send "Please choose a password (minimum 6 characters):"
    else
      createAccount amb.

(** The [switch] of [HandleClient]. *)
Definition dispatch (amb : Ambient) (line : string) : M unit :=
  st ← get_client GetState ;
  match st with
  | StateConnected => handleLogin line
  | StateAuthenticating => handlePasswordAuth amb line
  | StateCreatingAccount => handleAccountCreation line
  | StateConfirmingPassword => handlePasswordConfirmation amb line
  | StateCharacterSelection => handleCharacterSelection amb line
  | StateInGame => handleGameCommand line
  | StateDisconnecting => ret tt
  end.

(** The read at the head of the loop: in password mode in the two
    password states. *)
Definition readInput (amb : Ambient) (c : Client) : (string * option error) * Client :=
  if decide (GetState c = StateAuthenticating \/ GetState c = StateConfirmingPassword)
  then ReadPassword (amb_now amb) c
  else ReadLine (amb_now amb) c.

(** The loop of [HandleClient]; [ambs] gives the clock and identifier of
    each turn.  A turn that reads a line takes at least one element off
    [incoming], so [fuel] above its length is never used up. *)
Fixpoint sessionLoop (fuel : nat) (ambs : nat -> Ambient) (turn : nat) (s : Session) : Session :=
  match fuel with
  | O => s
  | S fuel =>
      if negb (IsConnected (client s)) then s
      else
        let amb := ambs turn in
        let '((line, err), c) := readInput amb (client s) in
        let s := mkSession c (repo s) in
        match err with
        | Some _ => s
        | None => sessionLoop fuel ambs (S turn) (snd (dispatch amb line s))
        end
  end.

Definition HandleClient (ambs : nat -> Ambient) (s : Session) : Session :=
  let s := snd ((send "Welcome to DungeoGo!" ;;
                 send "Please enter your username:" ;;
                 sendPrompt "> ") s) in
  let s := sessionLoop (S (length (incoming (conn (client s))))) ambs 0 s in
  snd (close s).

(** An action that takes nothing off the stream of the connection. *)
Definition keeps_input {A} (m : M A) : Prop :=
  forall s, incoming (conn (client (snd (m s)))) = incoming (conn (client s)).

(** An action that only sends. *)
Definition quiet_action (m : M unit) : Prop :=
  forall s, quiet (client s) (client (snd (m s))) /\ repo (snd (m s)) = repo s.

(** The client after a message was sent and the connection closed. *)
Definition told_and_closed (message : string) (s : Session) : Session :=
  mkSession (Close (snd (Send message (client s)))) (repo s).

End SessionHandler.

Arguments Session : clear implicits.
Arguments M : clear implicits.

(** ** An in-memory stand-in for the collaborators

    Used to run the handlers on concrete inputs: a list of players with
    unique user names and e-mail addresses, a credential hash that fails on
    passwords longer than 72 bytes (as bcrypt does), and the string
    functions restricted to ASCII. *)
Module memory.

Record Repo := mkRepo {
  players : list player.Player;
  characters : list (string * interfaces.CharacterSummary)
}.

Definition is_space (b : byte) : bool :=
  existsb (N.eqb (byte_val b)) [9; 10; 11; 12; 13; 32]%N.

Fixpoint trim_left (s : string) : string :=
  match s with
  | String a rest => if is_space a then trim_left rest else s
  | EmptyString => s
  end.

Definition mem_TrimSpace (s : string) : string :=
  String.rev (trim_left (String.rev (trim_left s))).

Definition lower (b : byte) : byte :=
  let n := byte_val b in
  if ((65 <=? n) && (n <=? 90))%N then ascii_of_N (n + 32) else b.

Definition mem_ToLower (s : string) : string :=
  string_of_list_ascii (map lower (list_ascii_of_string s)).

Definition has_at (s : string) : bool :=
  existsb (Ascii.eqb "@"%char) (list_ascii_of_string s).

Definition hash (password : string) : option string :=
  if (72 <? String.length password)%nat then None else Some ("bcrypt:" ++ password).

Definition findPlayer (f : player.Player -> bool) (db : Repo) : option player.Player :=
  find f (players db).

Definition mem_CreatePlayer (db : Repo) (p : player.Player) : bool * Repo :=
  if existsb (fun q => String.eqb (player.Username q) (player.Username p)
                       || String.eqb (player.Email q) (player.Email p)) (players db)
  then (false, db)
  else (true, mkRepo (players db ++ [p]) (characters db)).

Definition known (names : list string) (id : string) : option string :=
  if existsb (String.eqb id) names then Some id else None.

Definition mem_NewCharacter (id : string) (now : Z) (pid name race class : string)
  : string * interfaces.CharacterSummary :=
  (pid, interfaces.mkSummary id name race class 1 "start" "never" true).

Definition mem_CreateCharacter (db : Repo) (ch : string * interfaces.CharacterSummary) : bool * Repo :=
  if existsb (fun e => String.eqb (interfaces.Name (snd e)) (interfaces.Name (snd ch)))
       (characters db)
  then (false, db)
  else (true, mkRepo (players db) (characters db ++ [ch])).

#[global] Instance collaborators : Collaborators Repo string string (string * interfaces.CharacterSummary) := {|
  TrimSpace := mem_TrimSpace;
  Fields := String.words;
  ToLower := mem_ToLower;
  EqualFold a b := String.eqb (mem_ToLower a) (mem_ToLower b);
  emailRegex_MatchString := has_at;
  formatCharacterRow char status := interfaces.Name char ++ " " ++ status;
  GenerateFromPassword := hash;
  CompareHashAndPassword h password :=
    match hash password with Some h' => String.eqb h h' | None => false end;
  CreatePlayer := mem_CreatePlayer;
  GetPlayer db id := findPlayer (fun p => String.eqb (player.ID p) id) db;
  GetPlayerByUsername db u := findPlayer (fun p => String.eqb (player.Username p) u) db;
  GetPlayerByEmail db e := findPlayer (fun p => String.eqb (player.Email p) e) db;
  UpdatePlayerLogin db _ := db;
  CreateCharacter := mem_CreateCharacter;
  GetCharactersByPlayer db pid :=
    Some (map snd (List.filter (fun e => String.eqb (fst e) pid) (characters db)));
  GetRaceByID := known ["human"; "elf"; "dwarf"];
  GetClassByID := known ["warrior"; "mage"; "rogue"];
  NewCharacter := mem_NewCharacter;
  ProcessCommand db _ input := (inl ["You say: " ++ input], db)
|}.

(** A store with one active account, [bob], whose password is
    [hunter22]. *)
Definition bob : player.Player :=
  player.mkPlayer "p-bob" "bob" "bob@example.org" "bcrypt:hunter22" 0 0
    player.AccountActive 5.

Definition db0 : Repo := mkRepo [bob] [].

Definition amb0 : Ambient := mkAmbient 100 "p-new".

Definition text (lines : list string) : list N :=
  flat_map (fun l => (map byte_val (list_ascii_of_string l) ++ [10%N])%list) lines.

(** A freshly accepted client whose peer sends the given lines. *)
Definition fresh_client (lines : list string) : Client :=
  NewClient "c1" (test_conn (text lines)) 0.

(** A client in the middle of account creation. *)
Definition creating (username email password : string) : Client :=
  SetState StateConfirmingPassword
    (SetTempPassword password
       (SetTempEmail email (SetTempUsername username (fresh_client [])))).

(** The session of [bob] once the user name has been given. *)
Definition bob_authenticating (lines : list string) : Session Repo :=
  mkSession (SetPlayerID "p-bob" (SetState StateAuthenticating (fresh_client lines))) db0.

End memory.

(** Two connections accepted, then the same player registered on the
    first and on the second. *)
Definition two_logins : World :=
  run (NewConnectionManager 10 300)
    [EvAccept (test_conn []) "a" 0; EvAccept (test_conn []) "b" 1;
     EvRegister "P" 0%nat; EvRegister "P" 1%nat].

(** ** Further definitions for the transport *)

(** A line as [ReadLine] returns it: one trailing carriage return, if any,
    is dropped. *)
Definition chomp_cr (l : list byte) : list byte :=
  if decide (last l = Some CR) then removelast l else l.

(** What follows the terminating newline of a password on the stream (the
    recursion of [spec_password_bytes]). *)
Fixpoint spec_password_rest (bs : list byte) : option (list byte) :=
  match bs with
  | [] => None
  | b :: rest =>
      if decide (b = IAC) then
        match rest with
        | _ :: _ :: rest' => spec_password_rest rest'
        | _ => None
        end
      else if decide (b = LF) then Some rest
      else spec_password_rest rest
  end.

(** The connection [k] with [rest] left to read. *)
Definition with_incoming (rest : list ReadRes) (k : Conn) : Conn :=
  mkConn rest (wresults k) (wire k) (closed k).

(** ** More of the connection registry *)

(** [Start] once the listener is bound: [cm.running = true]. *)
Definition Start_running (w : World) : World :=
  mkWorld (with_running true (mgr w)) (heap w).

(** [cleanupClients]: at every tick of the ticker (the times [ticks]) the
    reaper returns for good when the manager is not running, and runs
    [performCleanup] otherwise. *)
Fixpoint cleanupClients (ticks : list Z) (w : World) : World :=
  match ticks with
  | [] => w
  | now :: rest =>
      if negb (running (mgr w)) then w
      else cleanupClients rest (performCleanup now w)
  end.

Record ConnectionStats := mkStats {
  TotalClients : Z;
  AuthenticatedClients : Z;
  InGameClients : Z
}.

(** The body of the loop of [GetStats] for one entry of the map. *)
Definition countClient (h : gmap ptr Client) (stats : ConnectionStats) (e : string * ptr)
  : ConnectionStats :=
  match h !! snd e with
  | None => stats
  | Some client =>
      match GetState client with
      | StateCharacterSelection | StateInGame =>
          mkStats (TotalClients stats) (AuthenticatedClients stats + 1)
            (if decide (GetState client = StateInGame)
             then InGameClients stats + 1 else InGameClients stats)
      | _ => stats
      end
  end.

Definition GetStats (w : World) : ConnectionStats :=
  foldl (countClient (heap w))
    (mkStats (Z.of_nat (size (clients (mgr w)))) 0 0)
    (map_to_list (clients (mgr w))).

(** The second loop of the two broadcasts: [Send] on each client of the
    snapshot, in turn. *)
Definition sendEach (message : string) (targets : list ptr) (h : gmap ptr Client)
  : gmap ptr Client :=
  foldl (fun h p => alter (fun c => snd (Send message c)) p h) h targets.

(** The snapshot taken under the lock: the clients of the map that pass
    [keep]. *)
Definition snapshot (keep : Client -> bool) (w : World) : list ptr :=
  map snd
    (List.filter (fun e => match heap w !! snd e with
                           | Some client => keep client
                           | None => false
                           end)
       (map_to_list (clients (mgr w)))).

Definition BroadcastToAll (message : string) (w : World) : World :=
  mkWorld (mgr w) (sendEach message (snapshot IsConnected w) (heap w)).

Definition in_game (client : Client) : bool :=
  IsConnected client && bool_decide (GetState client = StateInGame).

(** The room of a character is not looked at (it is left to be done in
    the source): every connected client in game is a target. *)
Definition BroadcastToRoom (roomID message : string) (w : World) : World :=
  mkWorld (mgr w) (sendEach message (snapshot in_game w) (heap w)).

(** A record of the store that is disconnected. *)
Definition disconnected_at (h : gmap ptr Client) (p : ptr) : Prop :=
  exists c, h !! p = Some c /\ connected c = false.

(** [p] is the client of some connection id. *)
Definition registered (w : World) (p : ptr) : Prop :=
  exists id, clients (mgr w) !! id = Some p.

(** The entries of the map that [GetStats] counts as authenticated and
    as in game. *)
Definition authenticated_entry (h : gmap ptr Client) (e : string * ptr) : bool :=
  match h !! snd e with
  | Some c =>
      match state c with
      | StateCharacterSelection | StateInGame => true
      | _ => false
      end
  | None => false
  end.

Definition in_game_entry (h : gmap ptr Client) (e : string * ptr) : bool :=
  match h !! snd e with
  | Some c => match state c with StateInGame => true | _ => false end
  | None => false
  end.

(** ** The transitions of the session state machine *)

(** What a transition is about: whether the client is connected, and its
    state. *)
Definition view (c : Client) : bool * ClientState := (connected c, state c).

(** The view after [Close]. *)
Definition close_view (v : bool * ClientState) : bool * ClientState :=
  if fst v then (false, StateDisconnecting) else v.

(** The states a handler can leave a connected client in, read off the
    handlers. *)
Definition next_states (st : ClientState) : list ClientState :=
  match st with
  | StateConnected => [StateConnected; StateAuthenticating; StateCreatingAccount]
  | StateAuthenticating => [StateAuthenticating; StateCharacterSelection]
  | StateCreatingAccount => [StateCreatingAccount; StateConfirmingPassword]
  | StateConfirmingPassword => [StateConfirmingPassword; StateCharacterSelection]
  | StateCharacterSelection => [StateCharacterSelection; StateInGame]
  | StateInGame => [StateInGame; StateCharacterSelection]
  | StateDisconnecting => [StateDisconnecting]
  end.

(** Where a turn that starts in state [st] may end: closed, or still
    connected in one of the next states. *)
Definition allowed (st : ClientState) (v : bool * ClientState) : Prop :=
  v = (false, StateDisconnecting) \/ (fst v = true /\ In (snd v) (next_states st)).

(** [moves_from v Q m]: run from a client whose view is [v], the action
    [m] ends in a view that satisfies [Q]. *)
Definition moves_from {Repo A : Type} (v : bool * ClientState)
    (Q : bool * ClientState -> Prop) (m : M Repo A) : Prop :=
  forall s, view (client s) = v -> Q (view (client (snd (m s)))).

(** [calm c c']: nothing but the wire of the connection differs between [c]
    and [c']; the outcomes of the writes to come are the same as well. *)
Definition calm (c c' : Client) : Prop :=
  quiet c c' /\ wresults (conn c') = wresults (conn c).

(** One turn of the loop of [HandleClient] on a connected client whose
    read succeeds: the read, then the handler of the state. *)
Definition turn {Repo Race Class Character : Type}
    `{!Collaborators Repo Race Class Character}
    (amb : Ambient) (s : Session Repo) : Session Repo :=
  snd (dispatch amb (fst (fst (readInput amb (client s))))
         (mkSession (snd (readInput amb (client s))) (repo s))).


(** ** What a handler does to the wire *)

Definition is_flush (e : WireEvent) : bool :=
  match e with Flushed _ => true | _ => false end.

Definition not_close (e : WireEvent) : bool :=
  match e with ConnClose => false | _ => true end.

(** [grows ok c c']: on a connected client the wire was extended by events
    that satisfy [ok], followed by one [ConnClose] if the client is no
    longer connected; a disconnected client stays so, and its wire is as it
    was. *)
Definition grows (ok : WireEvent -> bool) (c c' : Client) : Prop :=
  if connected c then
    exists w, forallb ok w = true /\
      if connected c' then
        wire (conn c') = (wire (conn c) ++ w)%list /\ closed (conn c') = closed (conn c)
      else
        wire (conn c') = (wire (conn c) ++ w ++ [ConnClose])%list /\
        closed (conn c') = true
  else
    connected c' = false /\ wire (conn c') = wire (conn c) /\
    closed (conn c') = closed (conn c).

(** [sends_only c c']: between [c] and [c'] nothing was read, no direct
    write was made and the clock was not consulted; the wire grew by
    buffered sends only. *)
Definition sends_only (c c' : Client) : Prop :=
  ID c' = ID c /\ lastActive c' = lastActive c /\
  incoming (conn c') = incoming (conn c) /\ wresults (conn c') = wresults (conn c) /\
  grows is_flush c c'.

(** An action whose effect on the client is within [R]. *)
Definition related {Repo A : Type} (R : Client -> Client -> Prop) (m : M Repo A) : Prop :=
  forall s, R (client s) (client (snd (m s))).

(** The three events of the greeting of [HandleClient]. *)
Definition greeting : list WireEvent :=
  [Flushed ("Welcome to DungeoGo!" ++ CRLF);
   Flushed ("Please enter your username:" ++ CRLF);
   Flushed "> "].

(** ** Closed forms of what was sent *)

(** The client after [data] went through the buffered writer. *)
Definition say (data : string) (c : Client) : Client :=
  with_conn (conn_Flush data (conn c)) c.

(** The client after each of [lines] was sent by [Send], in order. *)
Definition say_lines (lines : list string) (c : Client) : Client :=
  fold_left (fun c line => say (line ++ CRLF) c) lines c.

(** The wire events of lines sent by [Send]. *)
Definition flushed_lines (lines : list string) : list WireEvent :=
  map (fun line => Flushed (line ++ CRLF)) lines.

(** ** Sessions for the handlers of the later states *)

Module sessions.

Import memory.

(** The store of [db0] with one character of [bob]. *)
Definition db1 : Repo :=
  mkRepo [bob]
    [("p-bob", interfaces.mkSummary "ch-1" "Hero" "human" "warrior" 1 "start" "never" true)].

(** [bob] logged in and choosing a character. *)
Definition bob_selecting : Session Repo :=
  mkSession (SetPlayerID "p-bob" (SetState StateCharacterSelection (fresh_client []))) db1.

(** [bob] in the game with his character. *)
Definition bob_playing : Session Repo :=
  mkSession
    (SetCharacterID "ch-1" (SetPlayerID "p-bob" (SetState StateInGame (fresh_client []))))
    db1.

End sessions.

(** A pending password is empty (none is pending) or has six characters or
    more. *)
Definition pending_ok (c : Client) : Prop :=
  tempPassword c = "" \/ (6 <= String.length (tempPassword c))%nat.

(** * Properties of the session transport *)

Section GoStrings.

Lemma append_cons (a : byte) (s t : string) : String a s ++ t = String a (s ++ t).
Proof. reflexivity. Qed.

Lemma append_nil_r (s : string) : s ++ "" = s.
Proof. induction s as [|a s IH]; [reflexivity | now rewrite append_cons, IH]. Qed.

Lemma append_assoc (s1 s2 s3 : string) : (s1 ++ s2) ++ s3 = s1 ++ (s2 ++ s3).
Proof. induction s1 as [|a s1 IH]; [reflexivity | now rewrite !append_cons, IH]. Qed.

Lemma list_ascii_of_append (s1 s2 : string) :
  list_ascii_of_string (s1 ++ s2) =
  (list_ascii_of_string s1 ++ list_ascii_of_string s2)%list.
Proof.
  induction s1 as [|a s1 IH]; [reflexivity |].
  rewrite append_cons. simpl. now rewrite IH.
Qed.

End GoStrings.

Section ReadPasswordFacts.

Lemma ReadByte_conn c :
  snd (ReadByte c) = with_conn (conn (snd (ReadByte c))) c.
Proof.
  unfold ReadByte. destruct (conn_ReadByte (conn c)) as [r k]. reflexivity.
Qed.

Lemma ReadByte_quiet c :
  wire (conn (snd (ReadByte c))) = wire (conn c) /\
  wresults (conn (snd (ReadByte c))) = wresults (conn c) /\
  closed (conn (snd (ReadByte c))) = closed (conn c).
Proof.
  unfold ReadByte, conn_ReadByte.
  destruct (incoming (conn c)) as [|[b|] rest]; simpl; auto.
Qed.

Lemma ReadByte_stream c b bs :
  incoming (conn c) = stream (b :: bs) ->
  fst (ReadByte c) = Some b /\ incoming (conn (snd (ReadByte c))) = stream bs.
Proof.
  unfold ReadByte, conn_ReadByte. intros E. rewrite E. simpl. rewrite ?E. auto.
Qed.

Lemma ReadByte_stream_nil c :
  incoming (conn c) = stream [] ->
  fst (ReadByte c) = None /\ incoming (conn (snd (ReadByte c))) = stream [].
Proof.
  unfold ReadByte, conn_ReadByte. intros E. rewrite E. simpl. rewrite ?E. auto.
Qed.

Lemma with_conn_with_conn k k' c : with_conn k (with_conn k' c) = with_conn k c.
Proof. reflexivity. Qed.

Lemma only_read_refl c : only_read c c.
Proof. unfold only_read. destruct c; auto. Qed.

Lemma only_read_trans c1 c2 c3 :
  only_read c1 c2 -> only_read c2 c3 -> only_read c1 c3.
Proof.
  unfold only_read. intros (E1 & W1 & R1 & C1) (E2 & W2 & R2 & C2).
  repeat split; try congruence.
  rewrite E2, E1. reflexivity.
Qed.

Lemma ReadByte_only_read c : only_read c (snd (ReadByte c)).
Proof.
  unfold only_read. split; [apply ReadByte_conn | apply ReadByte_quiet].
Qed.

Lemma ReadByte_only_read' c r c' : ReadByte c = (r, c') -> only_read c c'.
Proof. intros E. pose proof (ReadByte_only_read c) as H. now rewrite E in H. Qed.

Lemma loop_post_after c c1 r : only_read c c1 -> loop_post c1 r -> loop_post c r.
Proof.
  unfold loop_post. destruct r as [[l|] c2]; simpl.
  - apply only_read_trans.
  - intros (E1 & W1 & _) (E2 & ok & W2). split.
    + rewrite E2, E1. reflexivity.
    + exists ok. rewrite W2, W1. reflexivity.
Qed.

Lemma readPasswordLoop_post c line : loop_post c (readPasswordLoop c line).
Proof.
  funelim (readPasswordLoop c line); try clear Heqcall;
    pose proof (ReadByte_only_read' _ _ _ e) as Hrd.
  - destruct Hrd as (E & W & _).
    unfold loop_post; simpl. split.
    + generalize (conn_Write IAC_WONT_ECHO (conn c1)).2. intros k.
      rewrite E. reflexivity.
    + unfold conn_Write; simpl. eexists. rewrite W. reflexivity.
  - eapply loop_post_after; [|eassumption].
    eapply only_read_trans; [exact Hrd|].
    eapply only_read_trans; apply ReadByte_only_read.
  - exact Hrd.
  - eapply loop_post_after; eassumption.
  - eapply loop_post_after; eassumption.
Qed.

(** On a stream of bytes the loop computes the text of the specification,
    each kept byte converted by [string(char)]. *)
Lemma ReadByte_stream_tail c bs :
  incoming (conn c) = stream bs ->
  incoming (conn (snd (ReadByte c))) = stream (tail bs).
Proof.
  destruct bs as [|b rest]; intros E.
  - now apply ReadByte_stream_nil.
  - now apply ReadByte_stream in E.
Qed.

Lemma ReadByte_stream_inv c bs r c1 :
  incoming (conn c) = stream bs ->
  ReadByte c = (r, c1) ->
  r = head bs /\ incoming (conn c1) = stream (tail bs).
Proof.
  intros E R. pose proof (ReadByte_stream_tail c bs E) as T.
  rewrite R in T. split; [|exact T].
  destruct bs as [|b rest].
  - apply ReadByte_stream_nil in E. rewrite R in E. apply E.
  - apply ReadByte_stream in E. rewrite R in E. apply E.
Qed.

Lemma readPasswordLoop_stream c line : forall bs,
  incoming (conn c) = stream bs ->
  fst (readPasswordLoop c line) =
    (fun kept => line ++ encode_bytes kept) <$> spec_password_bytes bs.
Proof.
  funelim (readPasswordLoop c line); try clear Heqcall; intros bs E;
    destruct (ReadByte_stream_inv _ _ _ _ E e) as [Hhd Htl];
    destruct bs as [|b rest]; simpl in Hhd; try discriminate Hhd;
    try (injection Hhd as Hhd; subst b); cbn [spec_password_bytes tail] in *;
    repeat case_decide; try congruence.
  - reflexivity.
  - erewrite H; [| do 2 apply ReadByte_stream_tail; eassumption].
    destruct rest as [|x [|y rest']]; reflexivity.
  - simpl. now rewrite append_nil_r.
  - eauto.
  - erewrite H by eassumption.
    destruct (spec_password_bytes rest); simpl; [|reflexivity].
    now rewrite append_assoc.
Qed.

Lemma spec_password_bytes_clean : forall bs kept,
  spec_password_bytes bs = Some kept ->
  Forall (fun b => b <> IAC /\ b <> LF /\ b <> CR) kept.
Proof.
  intros bs. induction bs as [bs IH] using (well_founded_induction
    (well_founded_ltof _ (@length byte))).
  unfold ltof in IH. destruct bs as [|b rest]; simpl; [discriminate|].
  intros kept. repeat case_decide.
  - destruct rest as [|x [|y rest']]; try discriminate.
    apply IH. simpl. lia.
  - intros [= <-]. constructor.
  - apply IH. simpl. lia.
  - destruct (spec_password_bytes rest) as [kept'|] eqn:E; simpl; [|discriminate].
    intros [= <-]. constructor; [auto|]. eapply IH; [|exact E]. simpl. lia.
Qed.

Lemma runeString_clean b x :
  b <> IAC -> b <> LF -> b <> CR ->
  string_has x (runeString b) -> x <> IAC /\ x <> LF /\ x <> CR.
Proof.
  unfold string_has.
  destruct b as [[] [] [] [] [] [] [] []]; intros H1 H2 H3;
    try (exfalso; apply H1; reflexivity);
    try (exfalso; apply H2; reflexivity);
    try (exfalso; apply H3; reflexivity);
    simpl; intros H; repeat (destruct H as [<-|H]); try contradiction;
    repeat split; discriminate.
Qed.

Lemma encode_bytes_clean kept x :
  Forall (fun b => b <> IAC /\ b <> LF /\ b <> CR) kept ->
  string_has x (encode_bytes kept) -> x <> IAC /\ x <> LF /\ x <> CR.
Proof.
  unfold string_has. induction 1 as [|b rest (H1 & H2 & H3) _ IH]; simpl; [tauto|].
  rewrite list_ascii_of_append, in_app_iff. intros [H|H]; [|auto].
  eapply runeString_clean; eauto.
Qed.

Lemma encode_bytes_ascii kept :
  Forall (fun b => (byte_val b < 128)%N) kept ->
  encode_bytes kept = string_of_list_ascii kept.
Proof.
  induction 1 as [|b rest Hb _ IH]; simpl; [reflexivity|].
  unfold runeString. apply N.ltb_lt in Hb. rewrite Hb, append_cons, IH. reflexivity.
Qed.

Lemma conn_Write_ok data k :
  writes_succeed k ->
  fst (conn_Write data k) = true /\ writes_succeed (snd (conn_Write data k)).
Proof.
  unfold writes_succeed, conn_Write. intros [Hc Hw]. simpl. rewrite Hc. simpl.
  destruct (wresults k) as [|ok rest]; simpl; [auto|].
  inversion Hw; subst. auto.
Qed.

End ReadPasswordFacts.

(** What [ReadPassword] returns on a stream of bytes, the control
    sequences being written successfully: the bytes that remain once every
    255 byte with the two bytes after it and every carriage return are
    dropped, up to the first newline reached outside a control sequence,
    each remaining byte converted by [string(char)]: itself below 128, the
    two bytes of its UTF-8 encoding from 128 to 254.  The text holds no 255
    and no carriage-return byte, and on bytes below 128 it is exactly the
    remaining bytes.  Without a terminating newline the read error is
    returned with the empty text. *)
Theorem ReadPassword_text now c bs :
  incoming (conn c) = stream bs ->
  writes_succeed (conn c) ->
  fst (ReadPassword now c) =
    match spec_password_bytes bs with
    | Some kept => (encode_bytes kept, None)
    | None => ("", Some ErrRead)
    end /\
  forall kept, spec_password_bytes bs = Some kept ->
    ~ string_has IAC (encode_bytes kept) /\
    ~ string_has CR (encode_bytes kept) /\
    (Forall (fun b => (byte_val b < 128)%N) kept ->
     encode_bytes kept = string_of_list_ascii kept).
Proof.
  intros Hin Hw. split.
  - unfold ReadPassword.
    set (c0 := updateLastActive now c).
    pose proof (conn_Write_ok IAC_WILL_ECHO (conn c0) Hw) as [Hok Hw1].
    destruct (conn_Write IAC_WILL_ECHO (conn c0)) as [ok k] eqn:Ek.
    simpl in Hok, Hw1. subst ok. simpl.
    set (c1 := with_conn k c0).
    assert (Hin1 : incoming (conn c1) = stream bs).
    { unfold c1. simpl. apply (f_equal snd) in Ek. simpl in Ek. subst k. exact Hin. }
    pose proof (readPasswordLoop_stream c1 "" bs Hin1) as Hres.
    pose proof (readPasswordLoop_post c1 "") as Hpost.
    destruct (readPasswordLoop c1 "") as [[line|] c2]; simpl in Hres;
      destruct (spec_password_bytes bs) as [kept|]; simpl in Hres; try discriminate.
    + injection Hres as ->.
      unfold loop_post in Hpost. simpl in Hpost. destruct Hpost as (_ & _ & Hr & Hc).
      assert (Hw2 : writes_succeed (conn c2)).
      { unfold writes_succeed. rewrite Hr, Hc. exact Hw1. }
      pose proof (conn_Write_ok IAC_WONT_ECHO (conn c2) Hw2) as [Hok2 _].
      unfold conn_Write in *. simpl in Hok2. rewrite Hok2. reflexivity.
    + reflexivity.
  - intros kept Hk. pose proof (spec_password_bytes_clean _ _ Hk) as Hclean.
    repeat split.
    + intros H. apply (encode_bytes_clean _ _ Hclean) in H. tauto.
    + intros H. apply (encode_bytes_clean _ _ Hclean) in H. tauto.
    + apply encode_bytes_ascii.
Qed.

Lemma ReadPassword_text_witness :
  fst (ReadPassword 7 (NewClient "c1" (test_conn [115; 255; 253; 1; 51; 13; 10; 120]%N) 0)) =
    (bytes [115; 51]%N, None).
Proof.
  destruct (ReadPassword_text 7
              (NewClient "c1" (test_conn [115; 255; 253; 1; 51; 13; 10; 120]%N) 0)
              (map ascii_of_N [115; 255; 253; 1; 51; 13; 10; 120]%N)) as [H _].
  - vm_compute. reflexivity.
  - split; [reflexivity | constructor].
  - exact H.
Defined.

(** C5.  The text returned is not the remaining bytes when one of them
    is above 127: the peer sends the byte 200 and a newline; the remaining
    byte is 200, the text returned by [ReadPassword] is the two bytes 195,
    136, the UTF-8 encoding of the code point 200 that [string(char)]
    yields.  [ReadLine] on the same stream returns the byte 200. *)
Lemma ReadPassword_text_not_raw :
  spec_password_bytes (map ascii_of_N [200; 10]%N) = Some [ascii_of_N 200] /\
  fst (ReadPassword 0 (NewClient "c1" (test_conn [200; 10]%N) 0)) =
    (bytes [195; 136]%N, None) /\
  fst (fst (ReadPassword 0 (NewClient "c1" (test_conn [200; 10]%N) 0))) <>
    string_of_list_ascii [ascii_of_N 200] /\
  fst (ReadLine 0 (NewClient "c1" (test_conn [200; 10]%N) 0)) = (bytes [200]%N, None).
Proof. repeat split; vm_compute; congruence. Qed.

(** C6.  Once [IAC WILL ECHO] has been written, every error return of
    [ReadPassword] (a failed byte read in the loop above all) comes after
    the write of [IAC WONT ECHO] (255, 252, 1): it is the last thing done
    on the connection, right after [IAC WILL ECHO], and the text returned
    is empty. *)
Theorem ReadPassword_error_restores_echo now c text e c' :
  fst (conn_Write IAC_WILL_ECHO (conn c)) = true ->
  ReadPassword now c = ((text, Some e), c') ->
  text = "" /\
  exists ok, wire (conn c') =
    (wire (conn c) ++ [ConnWrite IAC_WILL_ECHO true; ConnWrite IAC_WONT_ECHO ok])%list.
Proof.
  unfold ReadPassword.
  set (c0 := updateLastActive now c).
  change (conn c) with (conn c0).
  destruct (conn_Write IAC_WILL_ECHO (conn c0)) as [ok k] eqn:Ek.
  simpl. intros ->. simpl.
  assert (Hk : wire k = (wire (conn c0) ++ [ConnWrite IAC_WILL_ECHO true])%list).
  { unfold conn_Write in Ek. injection Ek as Hok <-. simpl. now rewrite Hok. }
  pose proof (readPasswordLoop_post (with_conn k c0) "") as Hpost.
  unfold loop_post in Hpost.
  destruct (readPasswordLoop (with_conn k c0) "") as [[line|] c2]; simpl in Hpost.
  - destruct Hpost as (_ & Hwire & _).
    unfold conn_Write. simpl.
    destruct (negb (closed (conn c2)) && hd true (wresults (conn c2))); simpl;
      [intros [=]|].
    intros [= <- <- <-]. split; [reflexivity|].
    exists false. simpl. rewrite Hwire. simpl. rewrite Hk, <- app_assoc. reflexivity.
  - destruct Hpost as (_ & ok2 & Hwire).
    intros [= <- <- <-]. split; [reflexivity|].
    exists ok2. rewrite Hwire. simpl. rewrite Hk, <- app_assoc. reflexivity.
Qed.

Lemma ReadPassword_error_restores_echo_witness :
  exists ok, wire (conn (snd (ReadPassword 7 (NewClient "c1" (test_conn [115; 255; 253]%N) 0)))) =
    [ConnWrite IAC_WILL_ECHO true; ConnWrite IAC_WONT_ECHO ok].
Proof.
  destruct (ReadPassword_error_restores_echo 7
              (NewClient "c1" (test_conn [115; 255; 253]%N) 0) "" ErrRead
              (snd (ReadPassword 7 (NewClient "c1" (test_conn [115; 255; 253]%N) 0))))
    as [_ H].
  - vm_compute. reflexivity.
  - vm_compute. reflexivity.
  - exact H.
Defined.

(** * Properties of the connection registry *)

Section RegistryFacts.

Lemma Close_disconnected c : connected (Close c) = false.
Proof. unfold Close. destruct (connected c) eqn:E; simpl; [reflexivity | exact E]. Qed.

Lemma Close_closes c : connected c = true -> closed (conn (Close c)) = true.
Proof. unfold Close. intros ->. reflexivity. Qed.

Lemma Close_idempotent c : Close (Close c) = Close c.
Proof. unfold Close at 1. now rewrite Close_disconnected. Qed.

Lemma RemoveClient_gone clientID w :
  clients (mgr (RemoveClient clientID w)) !! clientID = None \/
  RemoveClient clientID w = w.
Proof.
  unfold RemoveClient.
  destruct (clients (mgr w) !! clientID) as [p|] eqn:E; [|now right].
  destruct (heap w !! p) as [c|] eqn:Ec; [|now right].
  left. simpl. apply lookup_delete_eq.
Qed.

Lemma RemoveClient_idempotent clientID w :
  RemoveClient clientID (RemoveClient clientID w) = RemoveClient clientID w.
Proof.
  destruct (RemoveClient_gone clientID w) as [H|H].
  - unfold RemoveClient at 1. now rewrite H.
  - now rewrite !H.
Qed.

Lemma RemoveClient_count clientID w :
  maxClients (mgr (RemoveClient clientID w)) = maxClients (mgr w) /\
  getClientCount (RemoveClient clientID w) <= getClientCount w.
Proof.
  unfold RemoveClient, getClientCount.
  destruct (clients (mgr w) !! clientID) as [p|] eqn:E; [|lia].
  destruct (heap w !! p) as [c|]; [|lia]. simpl. split; [reflexivity|].
  rewrite map_size_delete, E. lia.
Qed.

Lemma performCleanup_count now w :
  maxClients (mgr (performCleanup now w)) = maxClients (mgr w) /\
  getClientCount (performCleanup now w) <= getClientCount w.
Proof.
  unfold performCleanup.
  generalize (map fst (List.filter (stale now (idleTimeout (mgr w)) (heap w))
                         (map_to_list (clients (mgr w))))).
  intros ids. revert w. induction ids as [|id ids IH]; intros w; simpl; [lia|].
  destruct (IH (RemoveClient id w)) as [H1 H2].
  destruct (RemoveClient_count id w) as [H3 H4]. lia.
Qed.

Lemma step_bounded maxc w e : bounded maxc w -> bounded maxc (step w e).
Proof.
  unfold bounded. intros [Hm Hb]. destruct e; simpl.
  - unfold acceptConn. destruct (getClientCount w >=? maxClients (mgr w)) eqn:G; simpl.
    + auto.
    + split; [exact Hm|]. unfold getClientCount in *. simpl.
      rewrite map_size_insert. rewrite Z.geb_leb, Z.leb_gt in G.
      destruct (clients (mgr w) !! clientID); simpl; lia.
  - destruct (RemoveClient_count clientID w). lia.
  - auto.
  - auto.
  - destruct (performCleanup_count now w). lia.
  - auto.
  - auto.
Qed.

Lemma run_bounded maxc es : forall w, bounded maxc w -> bounded maxc (run w es).
Proof.
  unfold run. induction es as [|e es IH]; intros w H; simpl; [exact H|].
  apply IH, step_bounded, H.
Qed.

Lemma wf_world_kept cm cm' h h' :
  wf_world (mkWorld cm h) ->
  store_kept h h' ->
  (forall id p, clients cm' !! id = Some p ->
     clients cm !! id = Some p \/ is_Some (h' !! p)) ->
  (forall pid p, playerClients cm' !! pid = Some p ->
     playerClients cm !! pid = Some p \/ is_Some (h' !! p)) ->
  wf_world (mkWorld cm' h').
Proof.
  unfold wf_world. simpl. intros [Hc Hp] Hk Hc' Hp'. split.
  - intros id p E. destruct (Hc' id p E) as [E'|]; eauto.
  - intros pid p E. destruct (Hp' pid p E) as [E'|]; eauto.
Qed.

Lemma store_kept_alter f p (h : gmap ptr Client) : store_kept h (alter f p h).
Proof. intros q. now rewrite lookup_alter_is_Some. Qed.

Lemma store_kept_insert p c (h : gmap ptr Client) : store_kept h (<[p := c]> h).
Proof. intros q H. rewrite lookup_insert_is_Some'. now right. Qed.

Lemma store_kept_trans (h1 h2 h3 : gmap ptr Client) :
  store_kept h1 h2 -> store_kept h2 h3 -> store_kept h1 h3.
Proof. unfold store_kept. eauto. Qed.

Lemma RemoveClient_wf clientID w : wf_world w -> wf_world (RemoveClient clientID w).
Proof.
  intros Hwf. unfold RemoveClient.
  destruct (clients (mgr w) !! clientID) as [p|] eqn:E; [|exact Hwf].
  destruct (heap w !! p) as [c|] eqn:Ec; [|exact Hwf].
  destruct w as [cm h]. simpl in *.
  eapply wf_world_kept; [exact Hwf | apply store_kept_insert | |]; simpl.
  - intros id q Hq. left. apply lookup_delete_Some in Hq. tauto.
  - intros pid q Hq. left. case_decide; [|exact Hq].
    apply lookup_delete_Some in Hq. tauto.
Qed.

Lemma performCleanup_wf now w : wf_world w -> wf_world (performCleanup now w).
Proof.
  unfold performCleanup.
  generalize (map fst (List.filter (stale now (idleTimeout (mgr w)) (heap w))
                         (map_to_list (clients (mgr w))))).
  intros ids. revert w. induction ids as [|id ids IH]; intros w Hwf; simpl; [exact Hwf|].
  apply IH, RemoveClient_wf, Hwf.
Qed.

Lemma Stop_store_kept (l : list (string * ptr)) (h : gmap ptr Client) :
  store_kept h (foldr (fun e h => alter Close (snd e) h) h l).
Proof.
  induction l as [|e l IH]; simpl; [now intros p|].
  eapply store_kept_trans; [exact IH | apply store_kept_alter].
Qed.

(** The store always holds the records the maps point at: the nil
    branches of [RemoveClient] are never taken. *)
Lemma step_wf w e : wf_world w -> event_ok w e -> wf_world (step w e).
Proof.
  intros Hwf Hok. destruct e; simpl in *.
  - unfold acceptConn. destruct (getClientCount w >=? maxClients (mgr w)); [exact Hwf|].
    destruct w as [cm h]. simpl.
    eapply wf_world_kept; [exact Hwf | apply store_kept_insert | |]; simpl.
    + intros id p Hp. apply lookup_insert_Some in Hp as [[_ <-]|[_ Hp]]; [right|now left].
      rewrite lookup_insert_eq. eauto.
    + intros pid p Hp. now left.
  - now apply RemoveClient_wf.
  - destruct w as [cm h]. unfold RegisterPlayerClient. simpl in *.
    eapply wf_world_kept; [exact Hwf | | |]; simpl.
    + eapply store_kept_trans; [|apply store_kept_alter].
      destruct (playerClients cm !! playerID0); [apply store_kept_alter | now intros p].
    + intros id p Hp. now left.
    + intros pid p Hp. apply lookup_insert_Some in Hp as [[_ <-]|[_ Hp]]; [right|now left].
      apply lookup_alter_is_Some.
      destruct (playerClients cm !! playerID0); [apply lookup_alter_is_Some|]; exact Hok.
  - destruct w as [cm h]. unfold UnregisterPlayerClient. simpl.
    eapply wf_world_kept; [exact Hwf | now intros p | |]; simpl.
    + intros id p Hp. now left.
    + intros pid p Hp. left. apply lookup_delete_Some in Hp. tauto.
  - now apply performCleanup_wf.
  - destruct w as [cm h]. unfold Stop. simpl.
    eapply wf_world_kept; [exact Hwf | apply Stop_store_kept | |]; simpl; intros; now left.
  - destruct w as [cm h]. simpl.
    eapply wf_world_kept; [exact Hwf | apply store_kept_alter | |]; simpl; intros; now left.
Qed.

Lemma run_wf es : forall w, wf_world w -> run_ok w es -> wf_world (run w es).
Proof.
  unfold run. induction es as [|e es IH]; intros w Hwf Hok; simpl; [exact Hwf|].
  destruct Hok as [He Hrest]. apply IH; [apply step_wf|]; assumption.
Qed.

Lemma NewConnectionManager_wf maxc timeout : wf_world (NewConnectionManager maxc timeout).
Proof. split; simpl; intros ? ? H; rewrite lookup_empty in H; discriminate. Qed.

End RegistryFacts.

(** C1.  When the player-id map holds a record for [P], registering a
    client for [P] closes that record (its [connected] flag is false
    afterwards), makes the new client the entry for [P], the only one, and
    sets the new client's [playerID] to [P]; the entries of the other
    players and the connection-id map are untouched. *)
Theorem RegisterPlayerClient_one_per_player w P p p0 c c0 :
  playerClients (mgr w) !! P = Some p0 ->
  heap w !! p0 = Some c0 ->
  heap w !! p = Some c ->
  (exists c0', heap (RegisterPlayerClient P p w) !! p0 = Some c0' /\ connected c0' = false) /\
  playerClients (mgr (RegisterPlayerClient P p w)) !! P = Some p /\
  (forall q, playerClients (mgr (RegisterPlayerClient P p w)) !! P = Some q -> q = p) /\
  (exists c', heap (RegisterPlayerClient P p w) !! p = Some c' /\ playerID c' = P) /\
  (p0 <> p -> heap (RegisterPlayerClient P p w) !! p0 = Some (Close c0) /\
              heap (RegisterPlayerClient P p w) !! p = Some (SetPlayerID P c)) /\
  (forall Q, Q <> P ->
     playerClients (mgr (RegisterPlayerClient P p w)) !! Q = playerClients (mgr w) !! Q) /\
  clients (mgr (RegisterPlayerClient P p w)) = clients (mgr w).
Proof.
  intros HP H0 Hp. unfold RegisterPlayerClient. rewrite HP. simpl.
  repeat split.
  - destruct (decide (p = p0)) as [->|Hne].
    + rewrite lookup_alter_eq, lookup_alter_eq, H0. simpl.
      eexists. split; [reflexivity|]. simpl. apply Close_disconnected.
    + rewrite lookup_alter_ne, lookup_alter_eq, H0 by exact Hne. simpl.
      eexists. split; [reflexivity|]. apply Close_disconnected.
  - apply lookup_insert_eq.
  - rewrite lookup_insert_eq. congruence.
  - destruct (decide (p0 = p)) as [->|Hne].
    + rewrite lookup_alter_eq, lookup_alter_eq, Hp. simpl.
      eexists. split; reflexivity.
    + rewrite lookup_alter_eq, lookup_alter_ne, Hp by exact Hne. simpl.
      eexists. split; reflexivity.
  - rewrite lookup_alter_ne, lookup_alter_eq, H0 by congruence. reflexivity.
  - rewrite lookup_alter_eq, lookup_alter_ne, Hp by assumption. reflexivity.
  - intros Q HQ. now rewrite lookup_insert_ne.
Qed.

Lemma RegisterPlayerClient_one_per_player_witness :
  (exists c0', heap two_logins !! 0%nat = Some c0' /\ connected c0' = false) /\
  playerClients (mgr two_logins) !! "P" = Some 1%nat.
Proof.
  pose proof (RegisterPlayerClient_one_per_player
    (run (NewConnectionManager 10 300)
       [EvAccept (test_conn []) "a" 0; EvAccept (test_conn []) "b" 1;
        EvRegister "P" 0%nat])
    "P" 1%nat 0%nat
    (NewClient "b" (test_conn []) 1)
    (SetPlayerID "P" (NewClient "a" (test_conn []) 0))) as H.
  destruct H as (H1 & H2 & _).
  - vm_compute. reflexivity.
  - vm_compute. reflexivity.
  - vm_compute. reflexivity.
  - split; [exact H1 | exact H2].
Defined.

(** C2 as stated fails: after the same player was registered on record 0
    and then on record 1, the entry of the player points at record 1, and
    removing the connection of record 0 deletes that entry all the same. *)
Lemma RemoveClient_drops_newer_entry :
  GetClient "a" two_logins = Some 0%nat /\
  playerID <$> heap two_logins !! 0%nat = Some "P" /\
  GetPlayerClient "P" two_logins = Some 1%nat /\
  GetPlayerClient "P" (RemoveClient "a" two_logins) = None /\
  GetPlayerClient "P" (RemoveClient "a" two_logins) <> GetPlayerClient "P" two_logins.
Proof. repeat split; vm_compute; congruence. Qed.

(** C2 (amended).  [RemoveClient] is idempotent; for a registered
    connection it deletes the entry of the connection-id map, deletes the
    entry of the player-id map under the record's player id whenever that
    id is not empty, whichever record the entry points at, and closes the
    record: it is disconnected afterwards and its transport, if it was
    still open, is closed. *)
Theorem RemoveClient_effect :
  (forall clientID w,
     RemoveClient clientID (RemoveClient clientID w) = RemoveClient clientID w) /\
  (forall clientID w p c,
     clients (mgr w) !! clientID = Some p ->
     heap w !! p = Some c ->
     clients (mgr (RemoveClient clientID w)) = delete clientID (clients (mgr w)) /\
     playerClients (mgr (RemoveClient clientID w)) =
       (if decide (playerID c <> "")
        then delete (playerID c) (playerClients (mgr w))
        else playerClients (mgr w)) /\
     heap (RemoveClient clientID w) = <[p := Close c]> (heap w) /\
     connected (Close c) = false /\
     (connected c = true -> closed (conn (Close c)) = true)).
Proof.
  split; [intros; apply RemoveClient_idempotent|].
  intros clientID w p c Hid Hp. unfold RemoveClient. rewrite Hid, Hp. simpl.
  repeat split; auto using Close_disconnected, Close_closes.
Qed.

Lemma RemoveClient_effect_witness :
  clients (mgr (RemoveClient "a" two_logins)) = delete "a" (clients (mgr two_logins)) /\
  playerClients (mgr (RemoveClient "a" two_logins)) =
    delete "P" (playerClients (mgr two_logins)).
Proof.
  destruct RemoveClient_effect as [_ H].
  destruct (H "a" two_logins 0%nat
              (Close (SetPlayerID "P" (NewClient "a" (test_conn []) 0))))
    as (H1 & H2 & _).
  - vm_compute. reflexivity.
  - vm_compute. reflexivity.
  - split; [exact H1 | exact H2].
Defined.

(** C7.  Whatever happened since the manager was created (connections
    accepted, removed, registered for players, reaped, sessions running),
    the connection-id map holds at most [maxClients] entries (none when
    [maxClients] is negative), and when it holds [maxClients] or more the
    acceptor writes the capacity message to the accepted connection, closes
    it and leaves the registry as it is: the connection is never added. *)
Theorem acceptor_never_exceeds_maxClients maxc timeout es :
  (0 <= maxc -> getClientCount (run (NewConnectionManager maxc timeout) es) <= maxc) /\
  (maxc < 0 -> getClientCount (run (NewConnectionManager maxc timeout) es) = 0) /\
  maxClients (mgr (run (NewConnectionManager maxc timeout) es)) = maxc /\
  forall k clientID now,
    getClientCount (run (NewConnectionManager maxc timeout) es) >= maxc ->
    acceptConn k clientID now (run (NewConnectionManager maxc timeout) es) =
      (inl (mkConn (incoming k) (tl (wresults k))
              (wire k ++ [ConnWrite server_full_message (negb (closed k) && hd true (wresults k));
                          ConnClose])%list
              true),
       run (NewConnectionManager maxc timeout) es).
Proof.
  assert (H : bounded maxc (run (NewConnectionManager maxc timeout) es)).
  { apply run_bounded. unfold bounded, getClientCount. simpl.
    rewrite map_size_empty. lia. }
  destruct H as [Hm Hb].
  split; [intros; lia|]. split; [unfold getClientCount in *; lia|].
  split; [exact Hm|].
  intros k clientID now Hfull. unfold acceptConn. rewrite Hm.
  destruct (getClientCount _ >=? maxc) eqn:G.
  - unfold conn_Close, conn_Write. simpl. rewrite <- app_assoc. reflexivity.
  - rewrite Z.geb_leb, Z.leb_gt in G. lia.
Qed.

Lemma acceptor_never_exceeds_maxClients_witness :
  fst (acceptConn (test_conn [104; 105; 10]%N) "b" 1
         (run (NewConnectionManager 1 300) [EvAccept (test_conn []) "a" 0])) =
    inl (mkConn (stream (map ascii_of_N [104; 105; 10]%N)) []
           [ConnWrite server_full_message true; ConnClose] true) /\
  getClientCount (run (NewConnectionManager 1 300) [EvAccept (test_conn []) "a" 0]) <= 1.
Proof.
  destruct (acceptor_never_exceeds_maxClients 1 300 [EvAccept (test_conn []) "a" 0])
    as (Hb & _ & _ & H).
  split; [|apply Hb; lia].
  rewrite (H (test_conn [104; 105; 10]%N) "b" 1).
  - reflexivity.
  - vm_compute. discriminate.
Defined.

(** * Properties of the session protocol driver *)

Section SessionFacts.

Context {Repo Race Class Character : Type}.
Context `{!Collaborators Repo Race Class Character}.

Lemma quiet_refl c : quiet c c.
Proof. unfold quiet, temp_kept. auto 12. Qed.

Lemma quiet_trans c1 c2 c3 : quiet c1 c2 -> quiet c2 c3 -> quiet c1 c3.
Proof. unfold quiet, temp_kept. intuition congruence. Qed.

Lemma Send_quiet message c : quiet c (snd (Send message c)).
Proof. unfold Send, quiet, temp_kept. destruct (connected c) eqn:E; simpl; auto 12. Qed.

Lemma SendPrompt_quiet prompt c : quiet c (snd (SendPrompt prompt c)).
Proof. unfold SendPrompt, quiet, temp_kept. destruct (connected c) eqn:E; simpl; auto 12. Qed.

Lemma Send_wire message c :
  connected c = true ->
  wire (conn (snd (Send message c))) = (wire (conn c) ++ [Flushed (message ++ CRLF)])%list.
Proof. unfold Send. intros ->. reflexivity. Qed.

Lemma Close_frame c :
  temp_kept c (Close c) /\
  ID (Close c) = ID c /\
  playerID (Close c) = playerID c /\
  characterID (Close c) = characterID c /\
  incoming (conn (Close c)) = incoming (conn c).
Proof. unfold Close, temp_kept. destruct (connected c); simpl; auto 10. Qed.

Lemma Close_wire c :
  connected c = true ->
  wire (conn (Close c)) = (wire (conn c) ++ [ConnClose])%list /\
  state (Close c) = StateDisconnecting.
Proof. unfold Close. intros ->. simpl. auto. Qed.

Lemma send_quiet message : quiet_action (Repo:=Repo) (send message).
Proof. intros s. unfold send, on_client. simpl. split; [apply Send_quiet | reflexivity]. Qed.

Lemma sendPrompt_quiet prompt : quiet_action (Repo:=Repo) (sendPrompt prompt).
Proof.
  intros s. unfold sendPrompt, on_client. simpl.
  split; [apply SendPrompt_quiet | reflexivity].
Qed.

Lemma seq_quiet (m1 m2 : M Repo unit) :
  quiet_action m1 -> quiet_action m2 -> quiet_action (bind m1 (fun _ => m2)).
Proof.
  intros H1 H2 s. unfold bind. specialize (H1 s).
  destruct (m1 s) as [[] s1]. simpl in H1. specialize (H2 s1).
  destruct H1 as [Q1 R1], H2 as [Q2 R2]. split.
  - eapply quiet_trans; eassumption.
  - congruence.
Qed.

Lemma showCharacterMenu_quiet : quiet_action (Repo:=Repo) showCharacterMenu.
Proof.
  unfold showCharacterMenu.
  repeat (apply seq_quiet; [apply send_quiet|]). apply sendPrompt_quiet.
Qed.

Lemma sessionLoop_disconnected fuel ambs turn (s : Session Repo) :
  connected (client s) = false -> sessionLoop fuel ambs turn s = s.
Proof. destruct fuel; simpl; [reflexivity|]. unfold IsConnected. now intros ->. Qed.

Lemma ReadPassword_frame now c r c' :
  ReadPassword now c = (r, c') ->
  c' = with_conn (conn c') (updateLastActive now c).
Proof.
  unfold ReadPassword.
  destruct (conn_Write IAC_WILL_ECHO (conn (updateLastActive now c))) as [ok k].
  destruct ok; cbn [negb]; [|now intros [= _ <-]].
  pose proof (readPasswordLoop_post (with_conn k (updateLastActive now c)) "") as Hpost.
  unfold loop_post in Hpost.
  destruct (readPasswordLoop (with_conn k (updateLastActive now c)) "") as [[line|] c2];
    cbn [fst snd] in Hpost.
  - destruct Hpost as (E & _).
    destruct (conn_Write IAC_WONT_ECHO (conn c2)) as [ok2 k2].
    destruct ok2; cbn [negb]; intros [= _ <-]; rewrite E; reflexivity.
  - destruct Hpost as (E & _). intros [= _ <-]. rewrite E. reflexivity.
Qed.

(** *** The handlers never read: only the head of the loop does *)

Lemma keeps_ret {A} (a : A) : keeps_input (Repo:=Repo) (ret a).
Proof. intros s. reflexivity. Qed.

Lemma keeps_bind {A B} (m : M Repo A) (f : A -> M Repo B) :
  keeps_input m -> (forall a, keeps_input (f a)) -> keeps_input (bind m f).
Proof.
  intros Hm Hf s. unfold bind. specialize (Hm s).
  destruct (m s) as [a s1]. simpl in Hm. rewrite (Hf a s1). exact Hm.
Qed.

Lemma keeps_on_client (f : Client -> Client) :
  (forall c, incoming (conn (f c)) = incoming (conn c)) ->
  keeps_input (Repo:=Repo) (on_client f).
Proof. intros Hf s. apply Hf. Qed.

Lemma keeps_get_client {A} (f : Client -> A) : keeps_input (Repo:=Repo) (get_client f).
Proof. intros s. reflexivity. Qed.

Lemma keeps_get_repo {A} (f : Repo -> A) : keeps_input (get_repo f).
Proof. intros s. reflexivity. Qed.

Lemma keeps_on_repo {A} (f : Repo -> A * Repo) : keeps_input (on_repo f).
Proof. intros s. unfold on_repo. destruct (f (repo s)). reflexivity. Qed.

Lemma keeps_send message : keeps_input (Repo:=Repo) (send message).
Proof. apply keeps_on_client. intros c. apply Send_quiet. Qed.

Lemma keeps_sendPrompt prompt : keeps_input (Repo:=Repo) (sendPrompt prompt).
Proof. apply keeps_on_client. intros c. apply SendPrompt_quiet. Qed.

Lemma keeps_close : keeps_input (Repo:=Repo) close.
Proof. apply keeps_on_client. intros c. apply Close_frame. Qed.

Lemma keeps_forEach {A} (l : list A) (f : A -> M Repo unit) :
  (forall x, keeps_input (f x)) -> keeps_input (forEach l f).
Proof.
  intros Hf. induction l as [|x l IH]; simpl; [apply keeps_ret|].
  apply keeps_bind; [apply Hf | intros _; exact IH].
Qed.

Ltac keeps_input_step :=
  first
    [ apply keeps_bind; [|intros ?]
    | apply keeps_ret
    | apply keeps_send
    | apply keeps_sendPrompt
    | apply keeps_close
    | apply keeps_get_client
    | apply keeps_get_repo
    | apply keeps_on_repo
    | apply keeps_on_client; intros ?; reflexivity
    | apply keeps_forEach; intros ?
    | match goal with
      | |- keeps_input (if ?b then _ else _) => destruct b
      | |- keeps_input (match ?x with _ => _ end) => destruct x
      end ].

Lemma keeps_showCharacterMenu : keeps_input (Repo:=Repo) showCharacterMenu.
Proof. unfold showCharacterMenu. repeat keeps_input_step. Qed.

Lemma keeps_selectFirst characters name : keeps_input (Repo:=Repo) (selectFirst characters name).
Proof.
  induction characters as [|char rest IH]; simpl; [apply keeps_ret|].
  destruct (EqualFold _ _); [repeat keeps_input_step | exact IH].
Qed.

Lemma keeps_createAccount amb : keeps_input (Repo:=Repo) (createAccount amb).
Proof.
  unfold createAccount.
  repeat first [apply keeps_showCharacterMenu | keeps_input_step].
Qed.

Lemma keeps_dispatch amb line : keeps_input (Repo:=Repo) (dispatch amb line).
Proof.
  unfold dispatch. apply keeps_bind; [apply keeps_get_client|]. intros st.
  destruct st.
  - unfold handleLogin. repeat keeps_input_step.
  - unfold handlePasswordAuth.
    repeat first [apply keeps_showCharacterMenu | keeps_input_step].
  - unfold handleAccountCreation. repeat keeps_input_step.
  - unfold handlePasswordConfirmation.
    repeat first [apply keeps_createAccount | keeps_input_step].
  - unfold handleCharacterSelection, listCharacters, selectCharacter,
      createCharacter, deleteCharacter.
    repeat first [apply keeps_showCharacterMenu | apply keeps_selectFirst
                 | keeps_input_step].
  - unfold handleGameCommand.
    repeat first [apply keeps_showCharacterMenu | keeps_input_step].
  - apply keeps_ret.
Qed.

(** *** The loop of [HandleClient] comes to its end *)

Lemma sessionLoop_step fuel ambs turn (s : Session Repo) :
  sessionLoop (S fuel) ambs turn s =
  if negb (IsConnected (client s)) then s
  else
    match snd (fst (readInput (ambs turn) (client s))) with
    | Some _ => mkSession (snd (readInput (ambs turn) (client s))) (repo s)
    | None =>
        sessionLoop fuel ambs (S turn)
          (snd (dispatch (ambs turn) (fst (fst (readInput (ambs turn) (client s))))
                  (mkSession (snd (readInput (ambs turn) (client s))) (repo s))))
    end.
Proof.
  cbn [sessionLoop]. destruct (negb (IsConnected (client s))); [reflexivity|].
  destruct (readInput (ambs turn) (client s)) as [[line [e|]] c]; reflexivity.
Qed.

Lemma ReadString_shorter s : forall acc line rest,
  ReadString s acc = (Some line, rest) -> (length rest < length s)%nat.
Proof.
  induction s as [|[b|] s IH]; simpl; intros acc line rest; try discriminate.
  case_decide.
  - intros [= _ <-]. lia.
  - intros E. apply IH in E. lia.
Qed.

Lemma readPasswordLoop_shorter c line :
  is_Some (fst (readPasswordLoop c line)) ->
  (length (incoming (conn (snd (readPasswordLoop c line)))) <
   length (incoming (conn c)))%nat.
Proof.
  assert (Hle : forall x, (length (incoming (conn (snd (ReadByte x)))) <=
                           length (incoming (conn x)))%nat).
  { intros x. unfold ReadByte, conn_ReadByte.
    destruct (incoming (conn x)) as [|[?|] ?] eqn:E; simpl; rewrite ?E; simpl; lia. }
  funelim (readPasswordLoop c line); try clear Heqcall;
    try (assert (Hlt : (length (incoming (conn c1)) < length (incoming (conn c)))%nat)
           by (generalize e; unfold ReadByte, conn_ReadByte;
               destruct (incoming (conn c)) as [|[?|] ?] eqn:E; simpl; intros [= ? <-];
               simpl; lia)).
  - simpl. intros [? [=]].
  - intros Hs. specialize (H Hle Hs).
    pose proof (Hle c1). pose proof (Hle (snd (ReadByte c1))). lia.
  - intros _. exact Hlt.
  - intros Hs. specialize (H Hle Hs). lia.
  - intros Hs. specialize (H Hle Hs). lia.
Qed.

Lemma readInput_shorter amb c line c' :
  readInput amb c = ((line, None), c') ->
  (length (incoming (conn c')) < length (incoming (conn c)))%nat.
Proof.
  unfold readInput. case_decide.
  - unfold ReadPassword.
    destruct (conn_Write IAC_WILL_ECHO (conn (updateLastActive (amb_now amb) c)))
      as [ok k] eqn:Ek.
    assert (Hk : incoming k = incoming (conn c))
      by (unfold conn_Write in Ek; injection Ek as _ <-; reflexivity).
    destruct ok; cbn [negb]; [|discriminate].
    pose proof (readPasswordLoop_shorter
                  (with_conn k (updateLastActive (amb_now amb) c)) "") as Hs.
    destruct (readPasswordLoop (with_conn k (updateLastActive (amb_now amb) c)) "")
      as [[l|] c2]; [|discriminate].
    cbn [fst snd] in Hs. specialize (Hs (ex_intro _ l eq_refl)).
    destruct (conn_Write IAC_WONT_ECHO (conn c2)) as [ok2 k2] eqn:Ek2.
    assert (Hk2 : incoming k2 = incoming (conn c2))
      by (unfold conn_Write in Ek2; injection Ek2 as _ <-; reflexivity).
    destruct ok2; cbn [negb]; [|discriminate].
    intros [= _ <-]. simpl in *. rewrite Hk2. rewrite Hk in Hs. exact Hs.
  - unfold ReadLine. simpl.
    destruct (ReadString (incoming (conn c)) "") as [[l|] rest] eqn:E; [|discriminate].
    intros [= _ <-]. simpl. eapply ReadString_shorter, E.
Qed.

(** Fuel above the length of the stream is never used up: more fuel
    changes nothing. *)
Lemma sessionLoop_fuel ambs : forall fuel fuel' turn (s : Session Repo),
  (length (incoming (conn (client s))) < fuel)%nat ->
  (length (incoming (conn (client s))) < fuel')%nat ->
  sessionLoop fuel ambs turn s = sessionLoop fuel' ambs turn s.
Proof.
  induction fuel as [|fuel IH]; intros fuel' turn s H H'; [lia|].
  destruct fuel' as [|fuel']; [lia|].
  rewrite !sessionLoop_step.
  destruct (negb (IsConnected (client s))); [reflexivity|].
  destruct (readInput (ambs turn) (client s)) as [[line [e|]] c] eqn:E; [reflexivity|].
  cbn [fst snd]. apply readInput_shorter in E.
  pose proof (keeps_dispatch (ambs turn) line (mkSession c (repo s))) as K.
  cbn [client] in K.
  apply IH; rewrite K; lia.
Qed.

(** [HandleClient] does not depend on the fuel of its loop, and leaves
    the client disconnected. *)
Lemma HandleClient_fuel ambs (s : Session Repo) fuel :
  (length (incoming (conn (client s))) < fuel)%nat ->
  HandleClient ambs s =
  snd (close (sessionLoop fuel ambs 0
                (snd (bind (send "Welcome to DungeoGo!")
                        (fun _ => bind (send "Please enter your username:")
                                    (fun _ => sendPrompt "> ")) s)))).
Proof.
  intros Hfuel. unfold HandleClient. cbv zeta. f_equal. f_equal.
  assert (K : keeps_input (Repo:=Repo)
                (bind (send "Welcome to DungeoGo!")
                   (fun _ => bind (send "Please enter your username:")
                               (fun _ => sendPrompt "> "))))
    by repeat keeps_input_step.
  apply sessionLoop_fuel; rewrite (K s); lia.
Qed.

Lemma HandleClient_disconnects ambs (s : Session Repo) :
  connected (client (HandleClient ambs s)) = false.
Proof. unfold HandleClient. cbv zeta. apply Close_disconnected. Qed.

End SessionFacts.

Section SessionClaims.

Context {Repo Race Class Character : Type}.
Context `{!Collaborators Repo Race Class Character}.

Lemma send_close message (s : Session Repo) :
  snd (bind (send message) (fun _ => close) s) = told_and_closed message s.
Proof. reflexivity. Qed.

Lemma told_and_closed_facts message (s : Session Repo) :
  temp_kept (client s) (client (told_and_closed message s)) /\
  connected (client (told_and_closed message s)) = false /\
  playerID (client (told_and_closed message s)) = playerID (client s) /\
  characterID (client (told_and_closed message s)) = characterID (client s) /\
  incoming (conn (client (told_and_closed message s))) = incoming (conn (client s)) /\
  repo (told_and_closed message s) = repo s /\
  (connected (client s) = true ->
   state (client (told_and_closed message s)) = StateDisconnecting /\
   wire (conn (client (told_and_closed message s))) =
     (wire (conn (client s)) ++ [Flushed (message ++ CRLF); ConnClose])%list).
Proof.
  unfold told_and_closed. cbn [client repo].
  pose proof (Send_quiet message (client s))
    as (_ & Qc & Qp & Qch & _ & _ & (Qt1 & Qt2 & Qt3) & Qi & _).
  pose proof (Close_frame (snd (Send message (client s))))
    as ((Ct1 & Ct2 & Ct3) & _ & Cp & Cch & Ci).
  unfold temp_kept. repeat split; try congruence.
  - apply Close_disconnected.
  - apply Close_wire. congruence.
  - destruct (Close_wire (snd (Send message (client s)))) as [W _]; [congruence|].
    rewrite W, Send_wire by assumption. now rewrite <- app_assoc.
Qed.

Lemma createAccount_unfold amb (s : Session Repo) :
  createAccount amb s =
  match GenerateFromPassword (tempPassword (client s)) with
  | None =>
      bind (send "Failed to create account due to internal error.") (fun _ => close) s
  | Some passwordHash =>
      let newPlayer :=
        player.NewPlayer (amb_uuid amb) (amb_now amb) (tempUsername (client s))
          (tempEmail (client s)) passwordHash in
      let s1 := mkSession (client s) (snd (CreatePlayer (repo s) newPlayer)) in
      if negb (fst (CreatePlayer (repo s) newPlayer)) then
        bind (send "Failed to create account. Username might already be taken.")
          (fun _ => close) s1
      else
        showCharacterMenu
          (mkSession
             (SetState StateCharacterSelection
                (snd (Send ("Account created successfully! Welcome to DungeoGo, "
                            ++ tempUsername (client s) ++ "!")
                        (SetPlayerID (player.ID newPlayer) (ClearTempData (client s))))))
             (repo s1))
  end.
Proof.
  unfold createAccount, bind, get_client, on_repo, on_client, send,
    GetTempUsername, GetTempEmail, GetTempPassword.
  destruct (GenerateFromPassword (tempPassword (client s))) as [h|]; [|reflexivity].
  cbv zeta. destruct (CreatePlayer (repo s) _) as [[|] r]; reflexivity.
Qed.


Lemma handlePasswordAuth_unfold amb password (s : Session Repo) :
  handlePasswordAuth amb password s =
  if decide (TrimSpace password = "") then
    bind (send "Password cannot be empty. Please enter your password:")
      (fun _ => sendPrompt "Password: ") s
  else if decide (playerID (client s) = "") then
    bind (send "Account creation not fully implemented yet.") (fun _ => close) s
  else
    match GetPlayer (repo s) (playerID (client s)) with
    | None => bind (send "Authentication failed.") (fun _ => close) s
    | Some existingPlayer =>
        if negb (CompareHashAndPassword (player.PasswordHash existingPlayer)
                   (TrimSpace password))
        then bind (send "Invalid password.") (fun _ => close) s
        else
          showCharacterMenu
            (mkSession
               (SetState StateCharacterSelection
                  (snd (Send ("Welcome back, " ++ player.Username existingPlayer ++ "!")
                          (client s))))
               (UpdatePlayerLogin (repo s) (playerID (client s))))
    end.
Proof.
  unfold handlePasswordAuth. cbv zeta.
  destruct (decide (TrimSpace password = "")); [reflexivity|].
  unfold bind at 1, get_client at 1, GetPlayerID.
  destruct (decide (playerID (client s) = "")); [reflexivity|].
  unfold bind at 1, get_repo at 1.
  destruct (GetPlayer (repo s) (playerID (client s))) as [p|]; [|reflexivity].
  destruct (negb _); reflexivity.
Qed.

Lemma handleLogin_unfold username (s : Session Repo) :
  handleLogin username s =
  if decide (TrimSpace username = "") then
    bind (send "Username cannot be empty. Please enter your username:")
      (fun _ => sendPrompt "> ") s
  else
    match GetPlayerByUsername (repo s) (TrimSpace username) with
    | None =>
        (tt, mkSession
               (SetState StateCreatingAccount
                  (snd (SendPrompt "Email: "
                     (snd (Send "Please enter your email address:"
                        (snd (Send ("New player! Creating account for: " ++ TrimSpace username)
                           (SetTempUsername (TrimSpace username) (client s)))))))))
               (repo s))
    | Some existingPlayer =>
        if negb (player.IsActive existingPlayer) then
          bind (send "Your account has been suspended. Please contact an administrator.")
            (fun _ => close) s
        else
          (tt, mkSession
                 (SetPlayerID (player.ID existingPlayer)
                    (SetState StateAuthenticating
                       (snd (Send "Please enter your password:" (client s)))))
                 (repo s))
    end.
Proof.
  unfold handleLogin. cbv zeta.
  destruct (decide (TrimSpace username = "")); [reflexivity|].
  unfold bind at 1, get_repo at 1.
  destruct (GetPlayerByUsername (repo s) (TrimSpace username)) as [p|]; [|reflexivity].
  destruct (negb _); reflexivity.
Qed.

Lemma handlePasswordConfirmation_unfold amb password (s : Session Repo) :
  handlePasswordConfirmation amb password s =
  if decide (tempPassword (client s) = "") then
    if (String.length (TrimSpace password) <? 6)%nat then
      bind (send "Password must be at least 6 characters long.")
        (fun _ => send "Please choose a password (minimum 6 characters):") s
    else
      (tt, mkSession
             (snd (Send "Please confirm your password:"
                     (SetTempPassword (TrimSpace password) (client s))))
             (repo s))
  else if decide (tempPassword (client s) <> TrimSpace password) then
    (tt, mkSession
           (snd (Send "Please choose a password (minimum 6 characters):"
              (SetTempPassword ""
                 (snd (Send "Passwords do not match." (client s))))))
           (repo s))
  else createAccount amb s.
Proof.
  unfold handlePasswordConfirmation. cbv zeta.
  unfold bind at 1, get_client at 1, GetTempPassword.
  destruct (decide (tempPassword (client s) = "")).
  - destruct (_ <? _)%nat; reflexivity.
  - unfold bind at 1, get_client at 1, GetTempPassword.
    destruct (decide (tempPassword (client s) <> TrimSpace password)); reflexivity.
Qed.



(** C9.  In the ConfirmingPassword state, when a pending password is
    stored and the entry read differs from it, only the pending password is
    cleared: user name, e-mail address, player and character ids and the
    state are as before (as are the store and the connection, up to the two
    lines sent), and the next entry is taken for a first entry again. *)
Theorem confirmation_mismatch_clears_only_password amb password (s : Session Repo) :
  tempPassword (client s) <> "" ->
  tempPassword (client s) <> TrimSpace password ->
  snd (handlePasswordConfirmation amb password s) =
    mkSession
      (snd (Send "Please choose a password (minimum 6 characters):"
         (SetTempPassword "" (snd (Send "Passwords do not match." (client s))))))
      (repo s) /\
  tempPassword (client (snd (handlePasswordConfirmation amb password s))) = "" /\
  tempUsername (client (snd (handlePasswordConfirmation amb password s))) =
    tempUsername (client s) /\
  tempEmail (client (snd (handlePasswordConfirmation amb password s))) =
    tempEmail (client s) /\
  playerID (client (snd (handlePasswordConfirmation amb password s))) =
    playerID (client s) /\
  characterID (client (snd (handlePasswordConfirmation amb password s))) =
    characterID (client s) /\
  state (client (snd (handlePasswordConfirmation amb password s))) = state (client s) /\
  connected (client (snd (handlePasswordConfirmation amb password s))) =
    connected (client s) /\
  forall amb' next,
    (6 <= String.length (TrimSpace next))%nat ->
    tempPassword (client (snd (handlePasswordConfirmation amb' next
                                 (snd (handlePasswordConfirmation amb password s))))) =
      TrimSpace next.
Proof.
  intros Hset Hne.
  assert (E : snd (handlePasswordConfirmation amb password s) =
    mkSession
      (snd (Send "Please choose a password (minimum 6 characters):"
         (SetTempPassword "" (snd (Send "Passwords do not match." (client s))))))
      (repo s)).
  { rewrite handlePasswordConfirmation_unfold.
    rewrite decide_False, decide_True by assumption. reflexivity. }
  rewrite E. cbn [client].
  pose proof (Send_quiet "Passwords do not match." (client s)) as Q1.
  pose proof (Send_quiet "Please choose a password (minimum 6 characters):"
    (SetTempPassword "" (snd (Send "Passwords do not match." (client s))))) as Q2.
  revert Q2.
  generalize (snd (Send "Please choose a password (minimum 6 characters):"
    (SetTempPassword "" (snd (Send "Passwords do not match." (client s)))))).
  intros c2 Q2. revert Q1 Q2.
  generalize (snd (Send "Passwords do not match." (client s))).
  intros c1 Q1 Q2. unfold quiet, temp_kept in Q1, Q2. cbn in Q2.
  destruct Q1 as (? & ? & ? & ? & ? & ? & (? & ? & ?) & ? & ?).
  destruct Q2 as (? & ? & ? & ? & ? & ? & (? & Hp & ?) & ? & ?).
  repeat split; try congruence.
  intros amb' next Hlen.
  rewrite handlePasswordConfirmation_unfold. cbn [client repo].
  rewrite decide_True by exact Hp.
  apply Nat.ltb_ge in Hlen. rewrite Hlen. cbn [snd client].
  pose proof (Send_quiet "Please confirm your password:"
    (SetTempPassword (TrimSpace next) c2)) as (_ & _ & _ & _ & _ & _ & (_ & Q & _) & _).
  exact Q.
Qed.

(** C10.  The two password handlers look at a password only through
    [TrimSpace]: two inputs with the same trimmed form give the same
    result in every state (same lines sent, same state reached, same
    pending password stored, same calls on the stores), and the pending
    password stored by a first entry is the trimmed input. *)
Theorem passwords_are_trimmed amb p1 p2 (s : Session Repo) :
  TrimSpace p1 = TrimSpace p2 ->
  handlePasswordAuth amb p1 s = handlePasswordAuth amb p2 s /\
  handlePasswordConfirmation amb p1 s = handlePasswordConfirmation amb p2 s /\
  (tempPassword (client s) = "" ->
   (6 <= String.length (TrimSpace p1))%nat ->
   tempPassword (client (snd (handlePasswordConfirmation amb p1 s))) = TrimSpace p2).
Proof.
  intros E. repeat split.
  - rewrite !handlePasswordAuth_unfold, E. reflexivity.
  - rewrite !handlePasswordConfirmation_unfold, E. reflexivity.
  - intros Hempty Hlen. rewrite handlePasswordConfirmation_unfold.
    rewrite decide_True by exact Hempty.
    apply Nat.ltb_ge in Hlen. rewrite Hlen. cbn [snd client].
    pose proof (Send_quiet "Please confirm your password:"
      (SetTempPassword (TrimSpace p1) (client s)))
      as (_ & _ & _ & _ & _ & _ & (_ & Q & _) & _).
    rewrite Q. exact E.
Qed.

End SessionClaims.

(** * The claims on concrete sessions *)

Section ConcreteSessions.

Import memory.





Lemma confirmation_mismatch_clears_only_password_witness :
  let s := mkSession (creating "alice" "a@example.org" "secret1") db0 in
  tempPassword (client (snd (handlePasswordConfirmation amb0 "secret2" s))) = "" /\
  tempUsername (client (snd (handlePasswordConfirmation amb0 "secret2" s))) = "alice" /\
  tempEmail (client (snd (handlePasswordConfirmation amb0 "secret2" s))) = "a@example.org" /\
  state (client (snd (handlePasswordConfirmation amb0 "secret2" s))) = StateConfirmingPassword.
Proof.
  cbv zeta.
  destruct (confirmation_mismatch_clears_only_password amb0 "secret2"
              (mkSession (creating "alice" "a@example.org" "secret1") db0))
    as (_ & H1 & H2 & H3 & _ & _ & H4 & _).
  - vm_compute. discriminate.
  - vm_compute. discriminate.
  - rewrite H1, H2, H3, H4. repeat split.
Defined.

Lemma passwords_are_trimmed_witness :
  handlePasswordAuth amb0 " hunter22 " (bob_authenticating []) =
  handlePasswordAuth amb0 "hunter22" (bob_authenticating []) /\
  handlePasswordConfirmation amb0 " secret1" (mkSession (creating "alice" "a@example.org" "") db0) =
  handlePasswordConfirmation amb0 "secret1 " (mkSession (creating "alice" "a@example.org" "") db0).
Proof.
  destruct (passwords_are_trimmed amb0 " hunter22 " "hunter22" (bob_authenticating []))
    as (H1 & _); [vm_compute; reflexivity|].
  destruct (passwords_are_trimmed amb0 " secret1" "secret1 "
              (mkSession (creating "alice" "a@example.org" "") db0))
    as (_ & H2 & _); [vm_compute; reflexivity|].
  split; [exact H1 | exact H2].
Defined.

End ConcreteSessions.

(** * Further properties of the session transport *)

Section TransportLemmas.

Lemma ReadString_line (l rest : list byte) : forall acc,
  ~ In LF l ->
  ReadString (stream (l ++ LF :: rest)) acc =
    (Some (acc ++ string_of_list_ascii (l ++ [LF])), stream rest).
Proof.
  unfold stream.
  induction l as [|b l IH]; intros acc Hl; cbn [app map ReadString].
  - rewrite decide_True by reflexivity. reflexivity.
  - rewrite decide_False by (intros ->; apply Hl; now left).
    rewrite IH by (intros H; apply Hl; now right).
    rewrite append_assoc. reflexivity.
Qed.

Lemma ReadString_no_newline (l : list byte) : forall acc,
  ~ In LF l -> ReadString (stream l) acc = (None, []).
Proof.
  unfold stream.
  induction l as [|b l IH]; intros acc Hl; cbn [map ReadString]; [reflexivity|].
  rewrite decide_False by (intros ->; apply Hl; now left).
  apply IH. intros H. apply Hl. now right.
Qed.

Lemma last_byte_of_list (l : list byte) : last_byte (string_of_list_ascii l) = last l.
Proof. unfold last_byte. now rewrite list_ascii_of_string_of_list_ascii. Qed.

Lemma drop_last_snoc (l : list byte) (b : byte) :
  drop_last (string_of_list_ascii (l ++ [b])) = string_of_list_ascii l.
Proof.
  unfold drop_last. now rewrite list_ascii_of_string_of_list_ascii, removelast_last.
Qed.

Lemma strip_line (l : list byte) :
  (let line := string_of_list_ascii (l ++ [LF]) in
   let line := if decide (last_byte line = Some LF) then drop_last line else line in
   if decide (last_byte line = Some CR) then drop_last line else line) =
  string_of_list_ascii (chomp_cr l).
Proof.
  cbv zeta. rewrite last_byte_of_list, last_snoc.
  rewrite (decide_True (P := Some LF = Some LF)) by reflexivity.
  rewrite drop_last_snoc, last_byte_of_list. unfold chomp_cr.
  case_decide; [|reflexivity].
  unfold drop_last. now rewrite list_ascii_of_string_of_list_ascii.
Qed.

Lemma ReadLine_line now c (l rest : list byte) :
  ~ In LF l ->
  incoming (conn c) = stream (l ++ LF :: rest) ->
  ReadLine now c =
    ((string_of_list_ascii (chomp_cr l), None),
     with_conn (with_incoming (stream rest) (conn c)) (updateLastActive now c)).
Proof.
  intros Hl Hin. unfold ReadLine. cbn [conn updateLastActive].
  rewrite Hin, ReadString_line by exact Hl.
  change ("" ++ string_of_list_ascii (l ++ [LF])) with (string_of_list_ascii (l ++ [LF])).
  rewrite strip_line. reflexivity.
Qed.

End TransportLemmas.

(** X1.  When the stream holds a line, bytes without a newline followed by
    a newline, [ReadLine] returns these bytes less one trailing carriage
    return, leaves what follows the newline on the stream, sets
    [lastActive] to the current time and touches nothing else. *)
Theorem ReadLine_returns_line now c (l rest : list byte) :
  ~ In LF l ->
  incoming (conn c) = stream (l ++ LF :: rest) ->
  ReadLine now c =
    ((string_of_list_ascii (chomp_cr l), None),
     with_conn (with_incoming (stream rest) (conn c)) (updateLastActive now c)).
Proof. exact (ReadLine_line now c l rest). Qed.

Lemma ReadLine_returns_line_witness :
  fst (ReadLine 9 (NewClient "c1" (test_conn [104; 105; 13; 10; 120]%N) 0)) =
    (bytes [104; 105]%N, None).
Proof.
  rewrite (ReadLine_returns_line 9 (NewClient "c1" (test_conn [104; 105; 13; 10; 120]%N) 0)
             (map ascii_of_N [104; 105; 13]%N) (map ascii_of_N [120]%N)).
  - reflexivity.
  - vm_compute. intros [H|[H|[H|[]]]]; discriminate H.
  - reflexivity.
Defined.

(** X2.  [ReadLine] undoes the framing of [Send]: a message without a
    newline byte, once framed by [Send] (message, carriage return,
    newline), is read back as the message itself, whatever follows on the
    stream. *)
Theorem ReadLine_reads_what_Send_frames now c0 c message (rest : list byte) :
  connected c0 = true ->
  ~ string_has LF message ->
  incoming (conn c) = stream (list_ascii_of_string (message ++ CRLF) ++ rest) ->
  wire (conn (snd (Send message c0))) = (wire (conn c0) ++ [Flushed (message ++ CRLF)])%list /\
  fst (ReadLine now c) = (message, None) /\
  incoming (conn (snd (ReadLine now c))) = stream rest.
Proof.
  intros Hc Hm Hin. split; [unfold Send; rewrite Hc; reflexivity|].
  assert (E : (list_ascii_of_string (message ++ CRLF) ++ rest =
               (list_ascii_of_string message ++ [CR]) ++ LF :: rest)%list).
  { rewrite list_ascii_of_append. change (list_ascii_of_string CRLF) with [CR; LF].
    rewrite <- !app_assoc. reflexivity. }
  rewrite E in Hin.
  rewrite (ReadLine_line now c (list_ascii_of_string message ++ [CR]) rest);
    [| |exact Hin].
  - cbn [fst snd conn with_conn with_incoming incoming]. split; [|reflexivity].
    unfold chomp_cr. rewrite last_snoc, decide_True by reflexivity.
    rewrite removelast_last, string_of_list_ascii_of_string. reflexivity.
  - rewrite in_app_iff. intros [H|[H|[]]]; [exact (Hm H) | discriminate H].
Qed.

Lemma ReadLine_reads_what_Send_frames_witness :
  fst (ReadLine 9 (NewClient "c2" (test_conn [108; 111; 111; 107; 13; 10; 113]%N) 0)) =
    ("look", None).
Proof.
  destruct (ReadLine_reads_what_Send_frames 9
              (NewClient "c1" (test_conn []) 0)
              (NewClient "c2" (test_conn [108; 111; 111; 107; 13; 10; 113]%N) 0)
              "look" (map ascii_of_N [113]%N)) as (_ & H & _).
  - reflexivity.
  - vm_compute. intros [H|[H|[H|[H|[]]]]]; discriminate H.
  - reflexivity.
  - exact H.
Defined.

(** X3.  When the stream ends before a newline, [ReadLine] returns the
    read error with the empty text; the bytes read so far are lost (the
    stream is used up) and [lastActive] is set all the same. *)
Theorem ReadLine_without_newline now c (l : list byte) :
  ~ In LF l ->
  incoming (conn c) = stream l ->
  ReadLine now c =
    (("", Some ErrRead), with_conn (with_incoming [] (conn c)) (updateLastActive now c)).
Proof.
  intros Hl Hin. unfold ReadLine. cbn [conn updateLastActive].
  rewrite Hin, ReadString_no_newline by exact Hl. reflexivity.
Qed.

Lemma ReadLine_without_newline_witness :
  fst (ReadLine 9 (NewClient "c1" (test_conn [104; 105]%N) 0)) = ("", Some ErrRead) /\
  incoming (conn (snd (ReadLine 9 (NewClient "c1" (test_conn [104; 105]%N) 0)))) = [].
Proof.
  rewrite (ReadLine_without_newline 9 (NewClient "c1" (test_conn [104; 105]%N) 0)
             (map ascii_of_N [104; 105]%N)).
  - split; reflexivity.
  - vm_compute. intros [H|[H|[]]]; discriminate H.
  - reflexivity.
Defined.

Section PasswordLemmas.

Lemma readPasswordLoop_rest c line : forall bs rest,
  incoming (conn c) = stream bs ->
  spec_password_rest bs = Some rest ->
  incoming (conn (snd (readPasswordLoop c line))) = stream rest.
Proof.
  funelim (readPasswordLoop c line); try clear Heqcall; intros bs rest E;
    destruct (ReadByte_stream_inv _ _ _ _ E e) as [Hhd Htl];
    destruct bs as [|b bs']; simpl in Hhd; try discriminate Hhd;
    try (injection Hhd as Hhd; subst b); cbn [spec_password_rest tail] in *;
    repeat case_decide; try congruence.
  - intros Hr. destruct bs' as [|x [|y bs'']]; try discriminate.
    eapply H; [|exact Hr].
    exact (ReadByte_stream_tail _ _ (ReadByte_stream_tail _ _ Htl)).
  - intros [= <-]. exact Htl.
  - eauto.
  - eauto.
Qed.

Lemma conn_eq (k k' : Conn) :
  incoming k = incoming k' -> wresults k = wresults k' -> wire k = wire k' ->
  closed k = closed k' -> k = k'.
Proof. destruct k, k'. simpl. congruence. Qed.

Lemma ReadPassword_effect now c bs kept rest :
  incoming (conn c) = stream bs ->
  writes_succeed (conn c) ->
  spec_password_bytes bs = Some kept ->
  spec_password_rest bs = Some rest ->
  ReadPassword now c =
    ((encode_bytes kept, None),
     with_conn
       (mkConn (stream rest) (tl (tl (wresults (conn c))))
          (wire (conn c) ++
             [ConnWrite IAC_WILL_ECHO true; ConnWrite IAC_WONT_ECHO true; Flushed CRLF])%list
          false)
       (updateLastActive now c)).
Proof.
  intros Hin Hw Hk Hr. unfold ReadPassword.
  set (c0 := updateLastActive now c).
  pose proof (conn_Write_ok IAC_WILL_ECHO (conn c0) Hw) as [Hok Hw1].
  destruct (conn_Write IAC_WILL_ECHO (conn c0)) as [ok k] eqn:Ek.
  cbn [fst snd] in Hok, Hw1. subst ok. cbn [negb].
  assert (Hk1 : k = mkConn (incoming (conn c)) (tl (wresults (conn c)))
                      (wire (conn c) ++ [ConnWrite IAC_WILL_ECHO true])%list (closed (conn c))).
  { unfold conn_Write in Ek. injection Ek as Hok <-. cbn [conn c0 updateLastActive].
    now rewrite Hok. }
  set (c1 := with_conn k c0).
  assert (Hin1 : incoming (conn c1) = stream bs)
    by (unfold c1; cbn [conn with_conn]; now rewrite Hk1).
  pose proof (readPasswordLoop_rest c1 "" bs rest Hin1 Hr) as Hrest.
  pose proof (readPasswordLoop_stream c1 "" bs Hin1) as Htext. rewrite Hk in Htext.
  pose proof (readPasswordLoop_post c1 "") as Hpost. unfold loop_post in Hpost.
  destruct (readPasswordLoop c1 "") as [[line|] c2]; cbn [fst snd] in Hpost, Hrest, Htext;
    [|discriminate].
  injection Htext as ->.
  destruct Hpost as (E2 & Hwire & Hres & Hcl).
  assert (Hw2 : writes_succeed (conn c2)) by (unfold writes_succeed; now rewrite Hres, Hcl).
  pose proof (conn_Write_ok IAC_WONT_ECHO (conn c2) Hw2) as [Hok2 _].
  destruct (conn_Write IAC_WONT_ECHO (conn c2)) as [ok2 k2] eqn:Ek2.
  cbn [fst] in Hok2. subst ok2. cbn [negb].
  unfold conn_Write in Ek2. injection Ek2 as Hok2 <-.
  unfold c1 in Hwire, Hres, Hcl. cbn [conn with_conn] in Hwire, Hres, Hcl.
  destruct Hw as [Hclosed _].
  f_equal. rewrite E2. unfold c1. cbn [with_conn ID connected playerID characterID state
    lastActive tempUsername tempPassword tempEmail conn].
  unfold with_conn. f_equal.
  apply conn_eq; cbn [conn_Flush incoming wresults wire closed].
  - exact Hrest.
  - rewrite Hres, Hk1. reflexivity.
  - rewrite Hok2, Hwire, Hk1. cbn [wire]. rewrite <- !app_assoc. reflexivity.
  - rewrite Hcl, Hk1. exact Hclosed.
Qed.

End PasswordLemmas.

(** X4.  On a stream of bytes that holds a terminated password, with the
    control sequences written successfully, [ReadPassword] does exactly
    this to the client: [lastActive] is set, [IAC WILL ECHO], [IAC WONT
    ECHO] and a line end are put on the wire in this order, two write
    outcomes are used up, and the stream is left where the terminating
    newline ends; the identity and state fields are untouched. *)
Theorem ReadPassword_success_effect now c bs kept rest :
  incoming (conn c) = stream bs ->
  writes_succeed (conn c) ->
  spec_password_bytes bs = Some kept ->
  spec_password_rest bs = Some rest ->
  ReadPassword now c =
    ((encode_bytes kept, None),
     with_conn
       (mkConn (stream rest) (tl (tl (wresults (conn c))))
          (wire (conn c) ++
             [ConnWrite IAC_WILL_ECHO true; ConnWrite IAC_WONT_ECHO true; Flushed CRLF])%list
          false)
       (updateLastActive now c)).
Proof. exact (ReadPassword_effect now c bs kept rest). Qed.

Lemma ReadPassword_success_effect_witness :
  incoming (conn (snd (ReadPassword 7
    (NewClient "c1" (test_conn [115; 255; 253; 1; 51; 13; 10; 120]%N) 0)))) =
    stream (map ascii_of_N [120]%N).
Proof.
  rewrite (ReadPassword_success_effect 7
             (NewClient "c1" (test_conn [115; 255; 253; 1; 51; 13; 10; 120]%N) 0)
             (map ascii_of_N [115; 255; 253; 1; 51; 13; 10; 120]%N)
             (map ascii_of_N [115; 51]%N) (map ascii_of_N [120]%N)).
  - reflexivity.
  - reflexivity.
  - split; [reflexivity | constructor].
  - vm_compute. reflexivity.
  - vm_compute. reflexivity.
Defined.

(** X5.  [Close] takes effect once: on a connected client it issues one
    [conn.Close], clears [connected] and sets the state to Disconnecting;
    every later [Close] changes nothing, and [Send] and [SendPrompt] on the
    closed client fail with [ErrClientDisconnected] and write nothing. *)
Theorem Close_takes_effect_once c message :
  connected c = true ->
  wire (conn (Close c)) = (wire (conn c) ++ [ConnClose])%list /\
  connected (Close c) = false /\
  state (Close c) = StateDisconnecting /\
  Close (Close c) = Close c /\
  Send message (Close c) = (Some ErrClientDisconnected, Close c) /\
  SendPrompt message (Close c) = (Some ErrClientDisconnected, Close c).
Proof.
  intros Hc. unfold Send, SendPrompt. rewrite Close_idempotent, Close_disconnected.
  unfold Close. rewrite Hc. repeat split.
Qed.

Lemma Close_takes_effect_once_witness :
  Send "hello" (Close (NewClient "c1" (test_conn []) 0)) =
    (Some ErrClientDisconnected, Close (NewClient "c1" (test_conn []) 0)).
Proof.
  destruct (Close_takes_effect_once (NewClient "c1" (test_conn []) 0) "hello")
    as (_ & _ & _ & _ & H & _).
  - reflexivity.
  - exact H.
Defined.

(** * Further properties of the connection registry *)

Section RegistryLemmas.

Lemma RemoveClient_clients clientID w :
  wf_world w ->
  clients (mgr (RemoveClient clientID w)) = delete clientID (clients (mgr w)).
Proof.
  intros [Hc _]. unfold RemoveClient.
  destruct (clients (mgr w) !! clientID) as [p|] eqn:E.
  - destruct (Hc _ _ E) as [c Hp]. rewrite Hp. reflexivity.
  - symmetry. now apply delete_id.
Qed.

Lemma RemoveClient_disconnected_kept clientID w q :
  disconnected_at (heap w) q -> disconnected_at (heap (RemoveClient clientID w)) q.
Proof.
  intros (c & Hq & Hc). unfold RemoveClient.
  destruct (clients (mgr w) !! clientID) as [p|]; [|now exists c].
  destruct (heap w !! p) as [c0|] eqn:Ep; [|now exists c]. simpl.
  destruct (decide (p = q)) as [->|Hne].
  - exists (Close c0). rewrite lookup_insert_eq. split; [reflexivity|apply Close_disconnected].
  - exists c. now rewrite lookup_insert_ne.
Qed.

Lemma RemoveClient_disconnects clientID w p :
  wf_world w -> clients (mgr w) !! clientID = Some p ->
  disconnected_at (heap (RemoveClient clientID w)) p.
Proof.
  intros [Hc _] E. destruct (Hc _ _ E) as [c Hp]. unfold RemoveClient.
  rewrite E, Hp. simpl. exists (Close c). rewrite lookup_insert_eq.
  split; [reflexivity | apply Close_disconnected].
Qed.

Lemma removeAll_effect ids : forall w,
  wf_world w ->
  (forall id, clients (mgr (foldl (fun w id => RemoveClient id w) w ids)) !! id =
              if decide (id ∈ ids) then None else clients (mgr w) !! id) /\
  (forall q, disconnected_at (heap w) q ->
             disconnected_at (heap (foldl (fun w id => RemoveClient id w) w ids)) q) /\
  (forall id p, id ∈ ids -> clients (mgr w) !! id = Some p ->
             disconnected_at (heap (foldl (fun w id => RemoveClient id w) w ids)) p).
Proof.
  induction ids as [|i ids IH]; intros w Hwf; cbn [foldl].
  - split; [|split]; [| tauto | intros ? ? H; now apply elem_of_nil in H].
    intros id. rewrite decide_False; [reflexivity|]. apply not_elem_of_nil.
  - destruct (IH (RemoveClient i w) (RemoveClient_wf i w Hwf)) as (IH1 & IH2 & IH3).
    split; [|split].
    + intros id. rewrite IH1, RemoveClient_clients by exact Hwf.
      destruct (decide (i = id)) as [->|Hne].
      * rewrite lookup_delete_eq.
        rewrite (decide_True (P := id ∈ id :: ids)) by apply list_elem_of_here.
        now destruct (decide (id ∈ ids)).
      * rewrite lookup_delete_ne by exact Hne.
        destruct (decide (id ∈ ids)) as [Hin|Hin].
        -- now rewrite decide_True by now apply list_elem_of_further.
        -- rewrite decide_False; [reflexivity|].
           intros H. apply elem_of_cons in H as [?|?]; congruence.
    + intros q Hq. apply IH2. now apply RemoveClient_disconnected_kept.
    + intros id p Hin E. destruct (decide (i = id)) as [->|Hne].
      * apply IH2. now apply RemoveClient_disconnects.
      * apply elem_of_cons in Hin as [?|Hin]; [congruence|].
        eapply IH3; [exact Hin|].
        rewrite RemoveClient_clients, lookup_delete_ne by assumption. exact E.
Qed.

Lemma toRemove_spec now w id :
  In id (map fst (List.filter (stale now (idleTimeout (mgr w)) (heap w))
                    (map_to_list (clients (mgr w))))) <->
  exists p, clients (mgr w) !! id = Some p /\
            stale now (idleTimeout (mgr w)) (heap w) (id, p) = true.
Proof.
  rewrite in_map_iff. split.
  - intros ([id' p] & <- & Hin). apply filter_In in Hin as [Hin Hs].
    exists p. split; [|exact Hs].
    apply list_elem_of_In, elem_of_map_to_list in Hin. exact Hin.
  - intros (p & E & Hs). exists (id, p). split; [reflexivity|].
    apply filter_In. split; [|exact Hs].
    apply list_elem_of_In, elem_of_map_to_list. exact E.
Qed.

End RegistryLemmas.

(** X6.  One pass of the reaper removes from the connection-id map
    exactly the connections whose record is disconnected or has been idle
    for more than the timeout (strictly more), and leaves the others where
    they are; the records of the removed connections are disconnected
    afterwards. *)
Theorem performCleanup_removes_the_stale now w :
  wf_world w ->
  (forall id p, clients (mgr w) !! id = Some p ->
     clients (mgr (performCleanup now w)) !! id =
       if stale now (idleTimeout (mgr w)) (heap w) (id, p) then None else Some p) /\
  (forall id, clients (mgr w) !! id = None ->
     clients (mgr (performCleanup now w)) !! id = None) /\
  (forall id p, clients (mgr w) !! id = Some p ->
     stale now (idleTimeout (mgr w)) (heap w) (id, p) = true ->
     disconnected_at (heap (performCleanup now w)) p) /\
  (forall id p c, clients (mgr w) !! id = Some p -> heap w !! p = Some c ->
     stale now (idleTimeout (mgr w)) (heap w) (id, p) =
       negb (connected c) || (idleTimeout (mgr w) <? now - lastActive c)).
Proof.
  intros Hwf. unfold performCleanup.
  destruct (removeAll_effect
              (map fst (List.filter (stale now (idleTimeout (mgr w)) (heap w))
                          (map_to_list (clients (mgr w))))) w Hwf) as (H1 & _ & H3).
  split; [|split; [|split]].
  - intros id p E. rewrite H1. destruct (stale _ _ _ (id, p)) eqn:Hs.
    + rewrite decide_True; [reflexivity|]. apply list_elem_of_In, toRemove_spec. eauto.
    + rewrite decide_False; [exact E|]. intros Hin.
      apply list_elem_of_In, toRemove_spec in Hin.
      destruct Hin as (p' & E' & Hs'). congruence.
  - intros id E. rewrite H1, E. now destruct (decide _).
  - intros id p E Hs. eapply H3; [|exact E]. apply list_elem_of_In, toRemove_spec. eauto.
  - intros id p c E Hp. unfold stale, IsConnected, IsIdle. cbn [snd]. now rewrite Hp.
Qed.

Lemma performCleanup_removes_the_stale_witness :
  GetClient "a" (performCleanup 5 two_logins) = None /\
  GetClient "b" (performCleanup 5 two_logins) = Some 1%nat.
Proof.
  assert (Hwf : wf_world two_logins).
  { apply run_wf; [apply NewConnectionManager_wf|]. vm_compute. repeat split; eauto. }
  destruct (performCleanup_removes_the_stale 5 two_logins Hwf) as (H & _).
  unfold GetClient. split.
  - rewrite (H "a" 0%nat); [reflexivity | vm_compute; reflexivity].
  - rewrite (H "b" 1%nat); [reflexivity | vm_compute; reflexivity].
Defined.

Section RegistrySweeps.

Lemma closeAll_lookup (l : list (string * ptr)) (h : gmap ptr Client) p :
  foldr (fun e h => alter Close (snd e) h) h l !! p =
  if decide (p ∈ map snd l) then Close <$> h !! p else h !! p.
Proof.
  induction l as [|e l IH]; cbn [foldr map].
  - rewrite decide_False; [reflexivity | apply not_elem_of_nil].
  - rewrite lookup_alter. destruct (decide (snd e = p)) as [E|Hne].
    + rewrite E, IH. rewrite (decide_True (P := p ∈ p :: map snd l))
        by apply list_elem_of_here.
      destruct (decide (p ∈ map snd l)); [|reflexivity].
      destruct (h !! p); simpl; [|reflexivity]. now rewrite Close_idempotent.
    + rewrite IH. destruct (decide (p ∈ map snd l)) as [Hin|Hin].
      * now rewrite decide_True by now apply list_elem_of_further.
      * rewrite decide_False; [reflexivity|].
        intros H. apply elem_of_cons in H as [?|?]; congruence.
Qed.

Lemma registered_map_to_list w p :
  p ∈ map snd (map_to_list (clients (mgr w))) <-> registered w p.
Proof.
  rewrite list_elem_of_In, in_map_iff. unfold registered. split.
  - intros ([id q] & <- & Hin). exists id.
    now apply list_elem_of_In, elem_of_map_to_list in Hin.
  - intros (id & E). exists (id, p). split; [reflexivity|].
    now apply list_elem_of_In, elem_of_map_to_list.
Qed.

Lemma snapshot_spec keep w p :
  In p (snapshot keep w) <->
  registered w p /\ exists c, heap w !! p = Some c /\ keep c = true.
Proof.
  unfold snapshot, registered. rewrite in_map_iff. split.
  - intros ([id q] & <- & Hin). apply filter_In in Hin as [Hin Hk]. cbn [snd] in *.
    split.
    + exists id. now apply list_elem_of_In, elem_of_map_to_list in Hin.
    + destruct (heap w !! q) as [c|]; [eauto | discriminate].
  - intros ((id & E) & c & Hp & Hk). exists (id, p). split; [reflexivity|].
    apply filter_In. split.
    + now apply list_elem_of_In, elem_of_map_to_list.
    + cbn [snd]. now rewrite Hp.
Qed.

Lemma sendEach_lookup message (l : list ptr) : forall (h : gmap ptr Client) p,
  sendEach message l h !! p =
  Nat.iter (count_occ Nat.eq_dec l p) (fun c => snd (Send message c)) <$> h !! p.
Proof.
  unfold sendEach. induction l as [|a l IH]; intros h p; cbn [foldl count_occ].
  - now destruct (h !! p).
  - rewrite IH, lookup_alter. destruct (Nat.eq_dec a p) as [->|Hne].
    + rewrite decide_True by reflexivity.
      destruct (h !! p); [|reflexivity]. cbn [fmap option_fmap option_map].
      now rewrite Nat.iter_succ_r.
    + now rewrite decide_False by exact Hne.
Qed.

Lemma Send_repeatedly message c n :
  quiet c (Nat.iter n (fun c => snd (Send message c)) c) /\
  wresults (conn (Nat.iter n (fun c => snd (Send message c)) c)) = wresults (conn c) /\
  wire (conn (Nat.iter n (fun c => snd (Send message c)) c)) =
    (wire (conn c) ++
       (if connected c then repeat (Flushed (message ++ CRLF)) n else []))%list.
Proof.
  induction n as [|n (IHq & IHr & IHw)].
  - cbn [Nat.iter repeat]. split; [apply quiet_refl|]. split; [reflexivity|].
    destruct (connected c); now rewrite app_nil_r.
  - rewrite Nat.iter_succ.
    set (c' := Nat.iter n (fun c => snd (Send message c)) c) in *.
    pose proof (Send_quiet message c') as Q.
    split; [eapply quiet_trans; eassumption|].
    assert (Hc : connected c' = connected c) by apply IHq.
    unfold Send. rewrite Hc. destruct (connected c); cbn [negb snd].
    + cbn [conn with_conn conn_Flush wresults wire]. split; [exact IHr|].
      rewrite IHw, <- app_assoc. f_equal.
      cbn [repeat]. symmetry. apply repeat_cons.
    + split; [exact IHr | exact IHw].
Qed.

(** What a broadcast to the clients passing [keep] does to the store. *)
Lemma broadcast_effect keep message w p c :
  (forall c, keep c = true -> connected c = true) ->
  heap w !! p = Some c ->
  exists c' n,
    sendEach message (snapshot keep w) (heap w) !! p = Some c' /\
    quiet c c' /\
    wresults (conn c') = wresults (conn c) /\
    wire (conn c') = (wire (conn c) ++ repeat (Flushed (message ++ CRLF)) n)%list /\
    ((0 < n)%nat <-> registered w p /\ keep c = true).
Proof.
  intros Hkeep Hp. rewrite sendEach_lookup, Hp. cbn [fmap option_fmap option_map].
  set (n := count_occ Nat.eq_dec (snapshot keep w) p).
  destruct (Send_repeatedly message c n) as (Q & R & W).
  assert (Hn : (0 < n)%nat <-> registered w p /\ keep c = true).
  { unfold n. split.
    - intros Hpos.
      assert (Hin : In p (snapshot keep w)) by (apply (count_occ_In Nat.eq_dec); lia).
      apply snapshot_spec in Hin as (Hr & c0 & E & K).
      rewrite Hp in E. injection E as <-. auto.
    - intros (Hr & K).
      assert (Hin : In p (snapshot keep w)) by (apply snapshot_spec; eauto).
      apply (count_occ_In Nat.eq_dec) in Hin. lia. }
  destruct (connected c) eqn:Hc.
  - exists (Nat.iter n (fun c => snd (Send message c)) c), n. auto.
  - exists (Nat.iter n (fun c => snd (Send message c)) c), 0%nat.
    split; [reflexivity|]. split; [exact Q|]. split; [exact R|].
    split; [rewrite W; reflexivity|].
    split; [lia|]. intros (_ & K). apply Hkeep in K. congruence.
Qed.

End RegistrySweeps.

(** X7.  [Stop] clears [running], closes every client of the
    connection-id map and no other, and removes nothing from either map;
    the reaper, which returns at its next tick once [running] is cleared,
    removes nothing afterwards either. *)
Theorem Stop_closes_and_keeps w :
  running (mgr (Stop w)) = false /\
  clients (mgr (Stop w)) = clients (mgr w) /\
  playerClients (mgr (Stop w)) = playerClients (mgr w) /\
  (forall p c, heap w !! p = Some c -> registered w p ->
     heap (Stop w) !! p = Some (Close c) /\ connected (Close c) = false) /\
  (forall p, ~ registered w p -> heap (Stop w) !! p = heap w !! p) /\
  (forall ticks, cleanupClients ticks (Stop w) = Stop w).
Proof.
  split; [reflexivity|]. split; [reflexivity|]. split; [reflexivity|].
  split; [|split].
  - intros p c Hp Hr. unfold Stop. cbn [heap]. rewrite closeAll_lookup.
    rewrite decide_True by now apply registered_map_to_list.
    rewrite Hp. split; [reflexivity | apply Close_disconnected].
  - intros p Hr. unfold Stop. cbn [heap]. rewrite closeAll_lookup.
    rewrite decide_False; [reflexivity|]. now rewrite registered_map_to_list.
  - intros [|now ticks]; reflexivity.
Qed.

Lemma Stop_closes_and_keeps_witness :
  heap (Stop two_logins) !! 1%nat =
    Some (Close (SetPlayerID "P" (NewClient "b" (test_conn []) 1))).
Proof.
  destruct (Stop_closes_and_keeps two_logins) as (_ & _ & _ & H & _).
  destruct (H 1%nat (SetPlayerID "P" (NewClient "b" (test_conn []) 1))) as [H1 _].
  - vm_compute. reflexivity.
  - exists "b". vm_compute. reflexivity.
  - exact H1.
Defined.

(** X8.  [BroadcastToAll] leaves the two maps as they are and changes no
    field of any record but the wire: a record gets the message (framed as
    by [Send]) if and only if it is connected and is the client of some
    connection id; a disconnected or unregistered record gets nothing. *)
Theorem BroadcastToAll_delivers message w p c :
  heap w !! p = Some c ->
  mgr (BroadcastToAll message w) = mgr w /\
  exists c' n,
    heap (BroadcastToAll message w) !! p = Some c' /\
    quiet c c' /\
    wire (conn c') = (wire (conn c) ++ repeat (Flushed (message ++ CRLF)) n)%list /\
    ((0 < n)%nat <-> registered w p /\ connected c = true).
Proof.
  intros Hp. split; [reflexivity|].
  destruct (broadcast_effect IsConnected message w p c (fun c H => H) Hp)
    as (c' & n & H1 & H2 & _ & H3 & H4).
  exists c', n. auto.
Qed.

Lemma BroadcastToAll_delivers_witness :
  exists c' n,
    heap (BroadcastToAll "hi" two_logins) !! 1%nat = Some c' /\
    wire (conn c') = repeat (Flushed ("hi" ++ CRLF)) n /\ (0 < n)%nat.
Proof.
  destruct (BroadcastToAll_delivers "hi" two_logins 1%nat
              (SetPlayerID "P" (NewClient "b" (test_conn []) 1)))
    as (_ & c' & n & H1 & _ & H2 & H3).
  - vm_compute. reflexivity.
  - exists c', n. split; [exact H1|]. split; [exact H2|].
    apply H3. split; [exists "b"; vm_compute|]; reflexivity.
Defined.

(** X9.  [BroadcastToRoom] delivers the message to the connected clients
    whose state is InGame and to no other record, whatever the room id: no
    room is looked at. *)
Theorem BroadcastToRoom_delivers roomID message w p c :
  heap w !! p = Some c ->
  mgr (BroadcastToRoom roomID message w) = mgr w /\
  exists c' n,
    heap (BroadcastToRoom roomID message w) !! p = Some c' /\
    quiet c c' /\
    wire (conn c') = (wire (conn c) ++ repeat (Flushed (message ++ CRLF)) n)%list /\
    ((0 < n)%nat <-> registered w p /\ connected c = true /\ state c = StateInGame).
Proof.
  intros Hp. split; [reflexivity|].
  assert (Hkeep : forall c, in_game c = true -> connected c = true).
  { intros c0. unfold in_game, IsConnected. now intros [H _]%andb_prop. }
  destruct (broadcast_effect in_game message w p c Hkeep Hp)
    as (c' & n & H1 & H2 & _ & H3 & H4).
  exists c', n. split; [exact H1|]. split; [exact H2|]. split; [exact H3|].
  rewrite H4. unfold in_game, IsConnected, GetState.
  rewrite andb_true_iff, bool_decide_eq_true. tauto.
Qed.

Lemma BroadcastToRoom_delivers_witness :
  exists c' n,
    heap (BroadcastToRoom "hall" "hi" two_logins) !! 1%nat = Some c' /\
    wire (conn c') = repeat (Flushed ("hi" ++ CRLF)) n /\ ~ (0 < n)%nat.
Proof.
  destruct (BroadcastToRoom_delivers "hall" "hi" two_logins 1%nat
              (SetPlayerID "P" (NewClient "b" (test_conn []) 1)))
    as (_ & c' & n & H1 & _ & H2 & H3).
  - vm_compute. reflexivity.
  - exists c', n. split; [exact H1|]. split; [exact H2|].
    intros Hn. apply H3 in Hn as (_ & _ & Hst). discriminate Hst.
Defined.

Section StatsFacts.

Lemma countClient_fold h l : forall stats,
  TotalClients (foldl (countClient h) stats l) = TotalClients stats /\
  AuthenticatedClients (foldl (countClient h) stats l) =
    AuthenticatedClients stats + Z.of_nat (length (List.filter (authenticated_entry h) l)) /\
  InGameClients (foldl (countClient h) stats l) =
    InGameClients stats + Z.of_nat (length (List.filter (in_game_entry h) l)).
Proof.
  induction l as [|e l IH]; intros stats; cbn [foldl List.filter].
  - cbn [length]. lia.
  - destruct (IH (countClient h stats e)) as (IH1 & IH2 & IH3).
    rewrite IH1, IH2, IH3. clear IH IH1 IH2 IH3.
    unfold countClient, authenticated_entry, in_game_entry, GetState.
    destruct (h !! snd e) as [c|]; [|lia].
    destruct (state c) eqn:Hst; cbn [length TotalClients AuthenticatedClients InGameClients];
      try lia; destruct (decide _); try discriminate; try congruence;
      cbn [length TotalClients AuthenticatedClients InGameClients]; lia.
Qed.

Lemma in_game_authenticated h l :
  (length (List.filter (in_game_entry h) l) <=
   length (List.filter (authenticated_entry h) l) <= length l)%nat.
Proof.
  induction l as [|e l IH]; cbn [List.filter length]; [lia|].
  unfold in_game_entry, authenticated_entry in *.
  destruct (h !! snd e) as [c|]; [|lia].
  destruct (state c); cbn [length]; lia.
Qed.

End StatsFacts.

(** X10.  The counts of [GetStats] are ordered: the total is the size of
    the connection-id map, the authenticated count (clients in state
    CharacterSelection or InGame) is at most the total, and the in-game
    count is at most the authenticated count; none is negative. *)
Theorem GetStats_ordered w :
  TotalClients (GetStats w) = getClientCount w /\
  0 <= InGameClients (GetStats w) <= AuthenticatedClients (GetStats w) /\
  AuthenticatedClients (GetStats w) <= TotalClients (GetStats w) /\
  AuthenticatedClients (GetStats w) =
    Z.of_nat (length (List.filter (authenticated_entry (heap w))
                        (map_to_list (clients (mgr w))))) /\
  InGameClients (GetStats w) =
    Z.of_nat (length (List.filter (in_game_entry (heap w))
                        (map_to_list (clients (mgr w))))).
Proof.
  unfold GetStats, getClientCount.
  destruct (countClient_fold (heap w) (map_to_list (clients (mgr w)))
              (mkStats (Z.of_nat (size (clients (mgr w)))) 0 0)) as (H1 & H2 & H3).
  pose proof (in_game_authenticated (heap w) (map_to_list (clients (mgr w)))) as H.
  rewrite length_map_to_list in H.
  rewrite H1, H2, H3. cbn [TotalClients AuthenticatedClients InGameClients]. lia.
Qed.

(** X11.  Below the maximum, the acceptor registers the connection: the
    connection id leads to a new record, freshly allocated, connected, in
    state Connected, with empty player and character ids; no other record
    and no entry of the player-id map changes, and the count grows by one
    unless the id was already in use.  Removing the connection afterwards
    closes that record and frees the id. *)
Theorem acceptConn_registers k clientID now w :
  getClientCount w < maxClients (mgr w) ->
  exists p,
    fst (acceptConn k clientID now w) = inr p /\
    heap w !! p = None /\
    GetClient clientID (snd (acceptConn k clientID now w)) = Some p /\
    heap (snd (acceptConn k clientID now w)) !! p = Some (NewClient clientID k now) /\
    (forall q, q <> p -> heap (snd (acceptConn k clientID now w)) !! q = heap w !! q) /\
    playerClients (mgr (snd (acceptConn k clientID now w))) = playerClients (mgr w) /\
    (clients (mgr w) !! clientID = None ->
     getClientCount (snd (acceptConn k clientID now w)) = getClientCount w + 1) /\
    GetClient clientID (RemoveClient clientID (snd (acceptConn k clientID now w))) = None /\
    heap (RemoveClient clientID (snd (acceptConn k clientID now w))) !! p =
      Some (Close (NewClient clientID k now)).
Proof.
  intros Hlt. unfold acceptConn.
  destruct (getClientCount w >=? maxClients (mgr w)) eqn:G;
    [rewrite Z.geb_leb, Z.leb_le in G; lia|].
  unfold createClient. cbn [fst snd].
  set (p := fresh (dom (heap w))).
  assert (Hfresh : heap w !! p = None) by (apply not_elem_of_dom, is_fresh).
  exists p. unfold GetClient, RemoveClient, getClientCount.
  cbn [mgr heap clients playerClients with_clients].
  rewrite !lookup_insert_eq. cbn [mgr heap clients playerClients with_clients with_playerClients].
  rewrite lookup_delete_eq, lookup_insert_eq.
  repeat split; try reflexivity; try assumption.
  - intros q Hq. now rewrite lookup_insert_ne by congruence.
  - intros Hid. rewrite map_size_insert_None by exact Hid. lia.
Qed.

Lemma acceptConn_registers_witness :
  exists p,
    fst (acceptConn (test_conn []) "c" 2 two_logins) = inr p /\
    GetClient "c" (snd (acceptConn (test_conn []) "c" 2 two_logins)) = Some p.
Proof.
  destruct (acceptConn_registers (test_conn []) "c" 2 two_logins)
    as (p & H1 & _ & H2 & _).
  - vm_compute. reflexivity.
  - exists p. auto.
Defined.

(** X12.  Registering a player that has no entry yet closes nobody: only
    the record registered changes, by its [playerID].  Unregistering the
    player afterwards restores the player-id map, but the record keeps the
    player id and stays as connected as it was. *)
Theorem RegisterPlayerClient_fresh_player w P p c :
  playerClients (mgr w) !! P = None ->
  heap w !! p = Some c ->
  heap (RegisterPlayerClient P p w) = <[p := SetPlayerID P c]> (heap w) /\
  GetPlayerClient P (RegisterPlayerClient P p w) = Some p /\
  clients (mgr (RegisterPlayerClient P p w)) = clients (mgr w) /\
  playerClients (mgr (UnregisterPlayerClient P (RegisterPlayerClient P p w))) =
    playerClients (mgr w) /\
  heap (UnregisterPlayerClient P (RegisterPlayerClient P p w)) !! p =
    Some (SetPlayerID P c) /\
  connected (SetPlayerID P c) = connected c.
Proof.
  intros HP Hp. unfold RegisterPlayerClient, UnregisterPlayerClient, GetPlayerClient.
  rewrite HP. cbn [mgr heap clients playerClients with_playerClients].
  assert (Hh : alter (SetPlayerID P) p (heap w) = <[p := SetPlayerID P c]> (heap w)).
  { apply map_eq. intros q. rewrite lookup_alter, lookup_insert.
    destruct (decide (p = q)) as [->|]; [now rewrite Hp | reflexivity]. }
  rewrite Hh, !lookup_insert_eq, delete_insert_id by exact HP.
  repeat split.
Qed.

Lemma RegisterPlayerClient_fresh_player_witness :
  GetPlayerClient "Q" (RegisterPlayerClient "Q" 1%nat two_logins) = Some 1%nat.
Proof.
  destruct (RegisterPlayerClient_fresh_player two_logins "Q" 1%nat
              (SetPlayerID "P" (NewClient "b" (test_conn []) 1))) as (_ & H & _).
  - vm_compute. reflexivity.
  - vm_compute. reflexivity.
  - exact H.
Defined.

(** * Further properties of the session protocol driver *)

Section Transitions.

Context {Repo Race Class Character : Type}.
Context `{!Collaborators Repo Race Class Character}.

Lemma mv_ret {A} v (Q : bool * ClientState -> Prop) (a : A) :
  Q v -> moves_from (Repo:=Repo) v Q (ret a).
Proof. intros HQ s <-. exact HQ. Qed.

Lemma mv_bind {A B} v (Q : bool * ClientState -> Prop) (m : M Repo A) (f : A -> M Repo B) :
  moves_from v (fun v' => forall a, moves_from v' Q (f a)) m ->
  moves_from v Q (bind m f).
Proof.
  intros Hm s Hv. unfold bind. specialize (Hm s Hv).
  destruct (m s) as [a s1]. cbn [snd] in Hm. exact (Hm a s1 eq_refl).
Qed.

Lemma mv_conseq {A} v (Q Q' : bool * ClientState -> Prop) (m : M Repo A) :
  moves_from v Q m -> (forall v', Q v' -> Q' v') -> moves_from v Q' m.
Proof. intros Hm HQ s Hv. apply HQ, Hm, Hv. Qed.

Lemma mv_on_client v (Q : bool * ClientState -> Prop) (f : Client -> Client) :
  (forall c, view (f c) = view c) -> Q v ->
  moves_from (Repo:=Repo) v Q (on_client f).
Proof. intros Hf HQ s <-. unfold on_client. cbn [snd client]. now rewrite Hf. Qed.

Lemma mv_send v (Q : bool * ClientState -> Prop) message :
  Q v -> moves_from (Repo:=Repo) v Q (send message).
Proof.
  apply mv_on_client. intros c. unfold view.
  pose proof (Send_quiet message c) as (_ & -> & _ & _ & -> & _). reflexivity.
Qed.

Lemma mv_sendPrompt v (Q : bool * ClientState -> Prop) prompt :
  Q v -> moves_from (Repo:=Repo) v Q (sendPrompt prompt).
Proof.
  apply mv_on_client. intros c. unfold view.
  pose proof (SendPrompt_quiet prompt c) as (_ & -> & _ & _ & -> & _). reflexivity.
Qed.

Lemma mv_close v (Q : bool * ClientState -> Prop) :
  Q (close_view v) -> moves_from (Repo:=Repo) v Q close.
Proof.
  intros HQ s <-. unfold close, on_client, close_view, view, Close in *.
  cbn [snd client fst] in *. destruct (connected (client s)) eqn:E; cbn in *;
    rewrite ?E; exact HQ.
Qed.

Lemma mv_SetState v (Q : bool * ClientState -> Prop) st :
  Q (fst v, st) -> moves_from (Repo:=Repo) v Q (on_client (SetState st)).
Proof. intros HQ s <-. exact HQ. Qed.

Lemma mv_get_client {A} v (Q : bool * ClientState -> Prop) (f : Client -> A) :
  Q v -> moves_from (Repo:=Repo) v Q (get_client f).
Proof. intros HQ s <-. exact HQ. Qed.

Lemma mv_get_repo {A} v (Q : bool * ClientState -> Prop) (f : Repo -> A) :
  Q v -> moves_from v Q (get_repo f).
Proof. intros HQ s <-. exact HQ. Qed.

Lemma mv_on_repo {A} v (Q : bool * ClientState -> Prop) (f : Repo -> A * Repo) :
  Q v -> moves_from v Q (on_repo f).
Proof. intros HQ s <-. unfold on_repo. destruct (f (repo s)). exact HQ. Qed.

Lemma mv_quiet v (Q : bool * ClientState -> Prop) (m : M Repo unit) :
  quiet_action m -> Q v -> moves_from v Q m.
Proof.
  intros Hm HQ s <-. destruct (Hm s) as [(_ & Hc & _ & _ & Hs & _) _].
  unfold view. now rewrite Hc, Hs.
Qed.

Lemma forEach_send_quiet (l : list string) : quiet_action (Repo:=Repo) (forEach l send).
Proof.
  induction l as [|x l IH]; cbn [forEach].
  - intros s. split; [apply quiet_refl | reflexivity].
  - apply seq_quiet; [apply send_quiet | exact IH].
Qed.

Lemma forEach_quiet {A} (l : list A) (f : A -> M Repo unit) :
  (forall x, quiet_action (f x)) -> quiet_action (forEach l f).
Proof.
  intros Hf. induction l as [|x l IH]; cbn [forEach].
  - intros s. split; [apply quiet_refl | reflexivity].
  - apply seq_quiet; [apply Hf | exact IH].
Qed.

Lemma mv_selectFirst characters name : forall v (Q : bool * ClientState -> Prop),
  Q v -> Q (fst v, StateInGame) ->
  moves_from (Repo:=Repo) v Q (selectFirst characters name).
Proof.
  induction characters as [|char rest IH]; intros v Q Hv Hg; cbn [selectFirst].
  - now apply mv_ret.
  - destruct (EqualFold _ _); [|now apply IH].
    apply mv_bind, mv_on_client; [reflexivity|]. intros _.
    apply mv_bind, mv_SetState. intros _.
    apply mv_bind, mv_send. intros _.
    apply mv_bind, mv_send. intros _.
    apply mv_bind, mv_sendPrompt. intros _.
    now apply mv_ret.
Qed.

Ltac mv_step :=
  lazymatch goal with
  | |- moves_from _ _ (bind _ _) => apply mv_bind
  | |- moves_from _ _ (send _) => apply mv_send
  | |- moves_from _ _ (sendPrompt _) => apply mv_sendPrompt
  | |- moves_from _ _ close => apply mv_close
  | |- moves_from _ _ (on_client (SetState _)) => apply mv_SetState
  | |- moves_from _ _ (on_client _) => apply mv_on_client; [intros ?; reflexivity|]
  | |- moves_from _ _ (get_client _) => apply mv_get_client
  | |- moves_from _ _ (get_repo _) => apply mv_get_repo
  | |- moves_from _ _ (on_repo _) => apply mv_on_repo
  | |- moves_from _ _ (ret _) => apply mv_ret
  | |- moves_from _ _ showCharacterMenu => apply mv_quiet; [apply showCharacterMenu_quiet|]
  | |- moves_from _ _ (forEach _ send) => apply mv_quiet; [apply forEach_send_quiet|]
  | |- moves_from _ _ (forEach _ _) =>
      apply mv_quiet; [apply forEach_quiet; intros ?; apply send_quiet|]
  | |- moves_from _ _ (selectFirst _ _) => apply mv_selectFirst
  | |- moves_from _ _ (if ?b then _ else _) => destruct b
  | |- moves_from _ _ (match ?x with _ => _ end) => destruct x
  | |- forall _, _ => intros ?
  end.

Ltac mv_leaf :=
  unfold allowed, close_view; cbn [fst snd next_states In]; tauto.

Lemma handleLogin_moves line :
  moves_from (Repo:=Repo) (true, StateConnected) (allowed StateConnected) (handleLogin line).
Proof. unfold handleLogin. repeat mv_step; mv_leaf. Qed.

Lemma handlePasswordAuth_moves amb line :
  moves_from (Repo:=Repo) (true, StateAuthenticating) (allowed StateAuthenticating)
    (handlePasswordAuth amb line).
Proof. unfold handlePasswordAuth. repeat mv_step; mv_leaf. Qed.

Lemma handleAccountCreation_moves line :
  moves_from (Repo:=Repo) (true, StateCreatingAccount) (allowed StateCreatingAccount)
    (handleAccountCreation line).
Proof. unfold handleAccountCreation. repeat mv_step; mv_leaf. Qed.

Lemma handlePasswordConfirmation_moves amb line :
  moves_from (Repo:=Repo) (true, StateConfirmingPassword) (allowed StateConfirmingPassword)
    (handlePasswordConfirmation amb line).
Proof. unfold handlePasswordConfirmation, createAccount. repeat mv_step; mv_leaf. Qed.

Lemma listCharacters_moves :
  moves_from (Repo:=Repo) (true, StateCharacterSelection) (allowed StateCharacterSelection)
    listCharacters.
Proof. unfold listCharacters. repeat mv_step; mv_leaf. Qed.

Lemma selectCharacter_moves name :
  moves_from (Repo:=Repo) (true, StateCharacterSelection) (allowed StateCharacterSelection)
    (selectCharacter name).
Proof. unfold selectCharacter. repeat mv_step; mv_leaf. Qed.

Lemma createCharacter_moves amb name raceStr classStr :
  moves_from (Repo:=Repo) (true, StateCharacterSelection) (allowed StateCharacterSelection)
    (createCharacter amb name raceStr classStr).
Proof. unfold createCharacter. repeat mv_step; mv_leaf. Qed.

Lemma deleteCharacter_moves name :
  moves_from (Repo:=Repo) (true, StateCharacterSelection) (allowed StateCharacterSelection)
    (deleteCharacter name).
Proof. unfold deleteCharacter. repeat mv_step; mv_leaf. Qed.

Lemma handleCharacterSelection_moves amb line :
  moves_from (Repo:=Repo) (true, StateCharacterSelection) (allowed StateCharacterSelection)
    (handleCharacterSelection amb line).
Proof.
  unfold handleCharacterSelection.
  destruct (Fields _) as [|part0 args]; [repeat mv_step; mv_leaf|].
  apply mv_bind.
  apply mv_conseq with (Q := allowed StateCharacterSelection).
  - repeat first
      [ apply listCharacters_moves | apply selectCharacter_moves
      | apply createCharacter_moves | apply deleteCharacter_moves | mv_step ];
      mv_leaf.
  - intros v' [->|[Hc Hin]] _.
    + repeat mv_step; mv_leaf.
    + destruct v' as [b st]. cbn [fst snd next_states In] in Hc, Hin. subst b.
      destruct Hin as [<-|[<-|[]]]; repeat mv_step; mv_leaf.
Qed.

Lemma handleGameCommand_moves line :
  moves_from (Repo:=Repo) (true, StateInGame) (allowed StateInGame) (handleGameCommand line).
Proof. unfold handleGameCommand. repeat mv_step; mv_leaf. Qed.

Lemma dispatch_allowed amb line (s : Session Repo) :
  connected (client s) = true ->
  allowed (state (client s)) (view (client (snd (dispatch amb line s)))).
Proof.
  intros Hc. unfold dispatch, bind, get_client, GetState.
  destruct (state (client s)) eqn:Hst;
    [ apply handleLogin_moves | apply handlePasswordAuth_moves
    | apply handleAccountCreation_moves | apply handlePasswordConfirmation_moves
    | apply handleCharacterSelection_moves | apply handleGameCommand_moves | ];
    try (unfold view; now rewrite Hc, Hst).
  right. cbn [ret snd]. unfold view. rewrite Hc, Hst. cbn. auto.
Qed.

(** X13.  A turn of the state machine on a connected client follows the
    edges below and no other: it ends with the client closed, in state
    Disconnecting, or still connected in the same state or in the one next
    state listed in [next_states] (Connected to Authenticating or
    CreatingAccount, Authenticating to CharacterSelection, CreatingAccount
    to ConfirmingPassword, ConfirmingPassword to CharacterSelection,
    CharacterSelection to InGame, InGame back to CharacterSelection),
    whatever the line and whatever the stores and the engine answer. *)
Theorem dispatch_follows_the_edges amb line (s : Session Repo) :
  connected (client s) = true ->
  (connected (client (snd (dispatch amb line s))) = false /\
   state (client (snd (dispatch amb line s))) = StateDisconnecting) \/
  (connected (client (snd (dispatch amb line s))) = true /\
   In (state (client (snd (dispatch amb line s)))) (next_states (state (client s)))).
Proof.
  intros Hc. pose proof (dispatch_allowed amb line s Hc) as H.
  unfold allowed, view in H. cbn [fst snd] in H.
  destruct H as [[= -> ->]|[-> Hin]]; [left | right]; auto.
Qed.

End Transitions.

Section WireFacts.

Context {Repo Race Class Character : Type}.
Context `{!Collaborators Repo Race Class Character}.

Lemma grows_refl ok c : grows ok c c.
Proof.
  unfold grows. destruct (connected c) eqn:E; [|auto].
  exists []. rewrite app_nil_r. auto.
Qed.

Lemma grows_trans ok c1 c2 c3 : grows ok c1 c2 -> grows ok c2 c3 -> grows ok c1 c3.
Proof.
  unfold grows. destruct (connected c1).
  - intros (w1 & Hw1 & H1). destruct (connected c2).
    + intros (w2 & Hw2 & H2). exists (w1 ++ w2)%list.
      rewrite forallb_app, Hw1, Hw2. split; [reflexivity|].
      destruct H1 as [E1 C1]. destruct (connected c3); destruct H2 as [E2 C2].
      * rewrite E2, E1, C2, C1, <- app_assoc. auto.
      * rewrite E2, E1, C2, <- !app_assoc. auto.
    + intros (-> & E2 & C2). exists w1. split; [exact Hw1|].
      destruct H1 as [E1 C1]. rewrite E2, C2. auto.
  - intros (-> & E1 & C1) (-> & E2 & C2). rewrite E2, C2. auto.
Qed.

Lemma grows_mono (ok ok' : WireEvent -> bool) c c' :
  (forall e, ok e = true -> ok' e = true) -> grows ok c c' -> grows ok' c c'.
Proof.
  intros Hok. unfold grows. destruct (connected c); [|auto].
  intros (w & Hw & H'). exists w. split; [|exact H'].
  rewrite forallb_forall in *. auto.
Qed.

Lemma sends_only_refl c : sends_only c c.
Proof. unfold sends_only. auto using grows_refl. Qed.

Lemma sends_only_trans c1 c2 c3 : sends_only c1 c2 -> sends_only c2 c3 -> sends_only c1 c3.
Proof.
  unfold sends_only. intros (? & ? & ? & ? & G1) (? & ? & ? & ? & G2).
  repeat split; try congruence. eapply grows_trans; eassumption.
Qed.

Lemma Send_sends_only message c : sends_only c (snd (Send message c)).
Proof.
  unfold sends_only, grows, Send. destruct (connected c) eqn:E; cbn; rewrite ?E; auto 10.
  repeat split. now exists [Flushed (message ++ CRLF)].
Qed.

Lemma SendPrompt_sends_only prompt c : sends_only c (snd (SendPrompt prompt c)).
Proof.
  unfold sends_only, grows, SendPrompt. destruct (connected c) eqn:E; cbn; rewrite ?E; auto 10.
  repeat split. now exists [Flushed prompt].
Qed.

Lemma Close_sends_only c : sends_only c (Close c).
Proof.
  unfold sends_only, grows, Close. destruct (connected c) eqn:E; cbn; rewrite ?E; auto 10.
  repeat split. now exists [].
Qed.

Lemma field_sends_only (f : Client -> Client) :
  (forall c, ID (f c) = ID c /\ lastActive (f c) = lastActive c /\
             conn (f c) = conn c /\ connected (f c) = connected c) ->
  forall c, sends_only c (f c).
Proof.
  intros Hf c. destruct (Hf c) as (HI & HL & HC & HN).
  unfold sends_only, grows. rewrite HI, HL, HC, HN. repeat split.
  destruct (connected c); [|auto]. exists []. now rewrite app_nil_r.
Qed.

End WireFacts.

(** A relation on client records that every step of a handler respects is
    respected by the handlers. *)
Section Related.

Context {Repo Race Class Character : Type}.
Context `{!Collaborators Repo Race Class Character}.

Variable R : Client -> Client -> Prop.

Hypothesis R_refl : forall c, R c c.
Hypothesis R_trans : forall c1 c2 c3, R c1 c2 -> R c2 c3 -> R c1 c3.
Hypothesis R_Send : forall message c, R c (snd (Send message c)).
Hypothesis R_SendPrompt : forall prompt c, R c (snd (SendPrompt prompt c)).
Hypothesis R_Close : forall c, R c (Close c).
Hypothesis R_SetState : forall st c, R c (SetState st c).
Hypothesis R_SetPlayerID : forall p c, R c (SetPlayerID p c).
Hypothesis R_SetCharacterID : forall ch c, R c (SetCharacterID ch c).
Hypothesis R_SetTempUsername : forall u c, R c (SetTempUsername u c).
Hypothesis R_SetTempEmail : forall e c, R c (SetTempEmail e c).
Hypothesis R_ClearTempData : forall c, R c (ClearTempData c).
Hypothesis R_SetTempPassword : forall p c,
  p = "" \/ (String.length p <? 6)%nat = false -> R c (SetTempPassword p c).

Lemma rel_ret {A} (a : A) : related (Repo:=Repo) R (ret a).
Proof. intros s. apply R_refl. Qed.

Lemma rel_bind {A B} (m : M Repo A) (f : A -> M Repo B) :
  related R m -> (forall a, related R (f a)) -> related R (bind m f).
Proof.
  intros Hm Hf s. unfold bind. specialize (Hm s).
  destruct (m s) as [a s1]. cbn [snd] in Hm.
  eapply R_trans; [exact Hm | apply Hf].
Qed.

Lemma rel_on_client (f : Client -> Client) :
  (forall c, R c (f c)) -> related (Repo:=Repo) R (on_client f).
Proof. intros Hf s. apply Hf. Qed.

Lemma rel_get_client {A} (f : Client -> A) : related (Repo:=Repo) R (get_client f).
Proof. intros s. apply R_refl. Qed.

Lemma rel_get_repo {A} (f : Repo -> A) : related R (get_repo f).
Proof. intros s. apply R_refl. Qed.

Lemma rel_on_repo {A} (f : Repo -> A * Repo) : related R (on_repo f).
Proof. intros s. unfold on_repo. destruct (f (repo s)). apply R_refl. Qed.

Lemma rel_send message : related (Repo:=Repo) R (send message).
Proof. apply rel_on_client. intros c. apply R_Send. Qed.

Lemma rel_sendPrompt prompt : related (Repo:=Repo) R (sendPrompt prompt).
Proof. apply rel_on_client. intros c. apply R_SendPrompt. Qed.

Lemma rel_close : related (Repo:=Repo) R close.
Proof. apply rel_on_client. intros c. apply R_Close. Qed.

Lemma rel_forEach {A} (l : list A) (f : A -> M Repo unit) :
  (forall x, related R (f x)) -> related R (forEach l f).
Proof.
  intros Hf. induction l as [|x l IH]; cbn [forEach]; [apply rel_ret|].
  apply rel_bind; [apply Hf | intros _; exact IH].
Qed.

Ltac rel_step :=
  lazymatch goal with
  | |- related _ (bind _ _) => apply rel_bind
  | |- related _ (send _) => apply rel_send
  | |- related _ (sendPrompt _) => apply rel_sendPrompt
  | |- related _ close => apply rel_close
  | |- related _ (on_client (SetTempPassword _)) =>
      apply rel_on_client; intros ?; apply R_SetTempPassword; auto
  | |- related _ (on_client _) =>
      apply rel_on_client; intros ?;
      first [ apply R_SetState | apply R_SetPlayerID | apply R_SetCharacterID
            | apply R_SetTempUsername | apply R_SetTempEmail | apply R_ClearTempData ]
  | |- related _ (get_client _) => apply rel_get_client
  | |- related _ (get_repo _) => apply rel_get_repo
  | |- related _ (on_repo _) => apply rel_on_repo
  | |- related _ (ret _) => apply rel_ret
  | |- related _ (forEach _ _) => apply rel_forEach
  | |- related _ (if ?b then _ else _) => destruct b eqn:?
  | |- related _ (match ?x with _ => _ end) => destruct x
  | |- forall _, _ => intros ?
  end.

Lemma rel_showCharacterMenu : related (Repo:=Repo) R showCharacterMenu.
Proof. unfold showCharacterMenu. repeat rel_step. Qed.

Lemma rel_selectFirst characters name :
  related (Repo:=Repo) R (selectFirst characters name).
Proof.
  induction characters as [|char rest IH]; cbn [selectFirst]; [apply rel_ret|].
  destruct (EqualFold _ _); [repeat rel_step | exact IH].
Qed.

Lemma rel_createAccount amb : related (Repo:=Repo) R (createAccount amb).
Proof.
  unfold createAccount.
  repeat first [apply rel_showCharacterMenu | rel_step].
Qed.

Lemma related_dispatch amb line : related (Repo:=Repo) R (dispatch amb line).
Proof.
  unfold dispatch. apply rel_bind; [apply rel_get_client|]. intros st.
  destruct st.
  - unfold handleLogin. repeat rel_step.
  - unfold handlePasswordAuth. repeat first [apply rel_showCharacterMenu | rel_step].
  - unfold handleAccountCreation. repeat rel_step.
  - unfold handlePasswordConfirmation. repeat first [apply rel_createAccount | rel_step].
  - unfold handleCharacterSelection, listCharacters, selectCharacter, createCharacter,
      deleteCharacter.
    repeat first [apply rel_showCharacterMenu | apply rel_selectFirst | rel_step].
  - unfold handleGameCommand. repeat first [apply rel_showCharacterMenu | rel_step].
  - apply rel_ret.
Qed.

End Related.

Section WireTheorems.

Context {Repo Race Class Character : Type}.
Context `{!Collaborators Repo Race Class Character}.

Lemma rel_dispatch amb line : related (Repo:=Repo) sends_only (dispatch amb line).
Proof.
  apply related_dispatch;
    first [ exact sends_only_refl | exact sends_only_trans | exact Send_sends_only
          | exact SendPrompt_sends_only | exact Close_sends_only
          | intros;
            lazymatch goal with
            | |- sends_only ?c (?f ?x ?c) => apply (field_sends_only (f x))
            | |- sends_only ?c (?f ?c) => apply (field_sends_only f)
            end; intros ?; repeat split ].
Qed.

(** X14.  Whatever the state, the line and the answers of the stores and
    the engine, a handler does nothing to the client but send and, at most
    once and last of all, close: no byte is read, no direct write is made,
    [ID] and [lastActive] are untouched, and the wire grows by buffered
    sends only, followed by the one [conn.Close] when the client ends up
    disconnected.  On a client that is already disconnected the wire does
    not change at all. *)
Theorem dispatch_only_sends amb line (s : Session Repo) :
  sends_only (client s) (client (snd (dispatch amb line s))).
Proof. apply rel_dispatch. Qed.

Lemma readPasswordLoop_closed c line :
  closed (conn (snd (readPasswordLoop c line))) = closed (conn c).
Proof.
  funelim (readPasswordLoop c line); try clear Heqcall;
    pose proof (ReadByte_only_read' _ _ _ e) as (_ & _ & _ & Hc1).
  - cbn. exact Hc1.
  - rewrite H.
    destruct (ReadByte_only_read c1) as (_ & _ & _ & Ha).
    destruct (ReadByte_only_read (snd (ReadByte c1))) as (_ & _ & _ & Hb).
    congruence.
  - exact Hc1.
  - congruence.
  - congruence.
Qed.

Lemma ReadPassword_wire now c r c' :
  ReadPassword now c = (r, c') ->
  exists w, forallb not_close w = true /\
    wire (conn c') = (wire (conn c) ++ w)%list /\
    closed (conn c') = closed (conn c).
Proof.
  unfold ReadPassword.
  destruct (conn_Write IAC_WILL_ECHO (conn (updateLastActive now c))) as [ok k] eqn:Ek.
  unfold conn_Write in Ek. cbn [conn updateLastActive] in Ek. injection Ek as Hok Hk.
  rewrite Hok in Hk. clear Hok.
  destruct ok; cbn [negb].
  - pose proof (readPasswordLoop_post (with_conn k (updateLastActive now c)) "") as Hpost.
    pose proof (readPasswordLoop_closed (with_conn k (updateLastActive now c)) "") as Hcl.
    unfold loop_post in Hpost.
    destruct (readPasswordLoop (with_conn k (updateLastActive now c)) "") as [[line|] c2];
      cbn [fst snd conn with_conn] in Hpost, Hcl.
    + destruct Hpost as (_ & Hw & _ & _).
      destruct (conn_Write IAC_WONT_ECHO (conn c2)) as [ok2 k2] eqn:Ek2.
      unfold conn_Write in Ek2. injection Ek2 as Hok2 Hk2. rewrite Hok2 in Hk2. clear Hok2.
      destruct ok2; cbn [negb]; intros [= _ <-]; subst k2 k;
        cbn [conn with_conn conn_Flush wire closed] in *; rewrite Hw, Hcl.
      * exists [ConnWrite IAC_WILL_ECHO true; ConnWrite IAC_WONT_ECHO true; Flushed CRLF].
        rewrite <- !app_assoc. auto.
      * exists [ConnWrite IAC_WILL_ECHO true; ConnWrite IAC_WONT_ECHO false].
        rewrite <- !app_assoc. auto.
    + destruct Hpost as (_ & ok' & Hw). intros [= _ <-]. subst k.
      cbn [wire closed] in *. rewrite Hw, Hcl.
      exists [ConnWrite IAC_WILL_ECHO true; ConnWrite IAC_WONT_ECHO ok'].
      rewrite <- !app_assoc. auto.
  - intros [= _ <-]. subst k. cbn [conn with_conn wire closed].
    exists [ConnWrite IAC_WILL_ECHO false]. auto.
Qed.

(** What the read at the head of the loop does to the wire: direct writes
    and a line end, never a close. *)
Lemma readInput_wire amb c :
  exists w, forallb not_close w = true /\
    wire (conn (snd (readInput amb c))) = (wire (conn c) ++ w)%list /\
    closed (conn (snd (readInput amb c))) = closed (conn c) /\
    connected (snd (readInput amb c)) = connected c /\
    state (snd (readInput amb c)) = state c.
Proof.
  unfold readInput. case_decide.
  - destruct (ReadPassword (amb_now amb) c) as [r c'] eqn:E.
    destruct (ReadPassword_wire _ _ _ _ E) as (w & Hw & Hwire & Hcl).
    apply ReadPassword_frame in E. exists w. cbn [snd].
    repeat split; try assumption; rewrite E; reflexivity.
  - exists []. unfold ReadLine. cbn [conn updateLastActive].
    destruct (ReadString (incoming (conn c)) "") as [[l|] rest]; cbn;
      rewrite app_nil_r; auto.
Qed.

Lemma sessionLoop_grows ambs : forall fuel turn (s : Session Repo),
  connected (client s) = true ->
  grows not_close (client s) (client (sessionLoop fuel ambs turn s)) /\
  (connected (client (sessionLoop fuel ambs turn s)) = false ->
   state (client (sessionLoop fuel ambs turn s)) = StateDisconnecting).
Proof.
  induction fuel as [|fuel IH]; intros turn s Hc.
  - cbn [sessionLoop]. split; [apply grows_refl | congruence].
  - rewrite sessionLoop_step. unfold IsConnected. rewrite Hc. cbn [negb].
    destruct (readInput_wire (ambs turn) (client s)) as (w & Hw & Hwire & Hcl & Hcon & Hst).
    assert (G1 : grows not_close (client s) (snd (readInput (ambs turn) (client s)))).
    { unfold grows. rewrite Hc, Hcon, Hc. exists w. auto. }
    destruct (snd (fst (readInput (ambs turn) (client s)))) as [e|].
    + cbn [client]. split; [exact G1 | congruence].
    + set (s1 := mkSession (snd (readInput (ambs turn) (client s))) (repo s)).
      set (line := fst (fst (readInput (ambs turn) (client s)))).
      assert (Hc1 : connected (client s1) = true) by (cbn [client s1]; congruence).
      pose proof (rel_dispatch (ambs turn) line s1) as (_ & _ & _ & _ & G2).
      apply (grows_mono is_flush not_close) in G2; [|now intros []].
      pose proof (dispatch_allowed (ambs turn) line s1 Hc1) as Hal.
      destruct (connected (client (snd (dispatch (ambs turn) line s1)))) eqn:Hc2.
      * destruct (IH (S turn) _ Hc2) as [G3 Hd]. split; [|exact Hd].
        eapply grows_trans; [exact G1|]. eapply grows_trans; [exact G2 | exact G3].
      * rewrite sessionLoop_disconnected by exact Hc2. split.
        -- eapply grows_trans; [exact G1 | exact G2].
        -- intros _. unfold allowed, view in Hal. rewrite Hc2 in Hal. cbn [fst snd] in Hal.
           destruct Hal as [[= ->]|[[=] _]]. reflexivity.
Qed.

(** X15.  [HandleClient] on a connected client: the greeting is the first
    thing sent; when the call returns the client is disconnected, in state
    Disconnecting, with its socket closed; and [conn.Close] was issued
    exactly once, as the last thing done on the connection, whatever the
    peer sent and whatever the stores and the engine answered. *)
Theorem HandleClient_closes_once ambs (s : Session Repo) :
  connected (client s) = true ->
  exists w, forallb not_close w = true /\
    wire (conn (client (HandleClient ambs s))) =
      (wire (conn (client s)) ++ greeting ++ w ++ [ConnClose])%list /\
    connected (client (HandleClient ambs s)) = false /\
    state (client (HandleClient ambs s)) = StateDisconnecting /\
    closed (conn (client (HandleClient ambs s))) = true.
Proof.
  intros Hc. unfold HandleClient. cbv zeta.
  set (s1 := snd (bind (send "Welcome to DungeoGo!")
                    (fun _ => bind (send "Please enter your username:")
                                (fun _ => sendPrompt "> ")) s)).
  assert (Hs1 : connected (client s1) = true /\
                wire (conn (client s1)) = (wire (conn (client s)) ++ greeting)%list).
  { unfold s1, bind, send, sendPrompt, on_client, Send, SendPrompt. cbn.
    rewrite Hc. cbn. rewrite Hc. cbn. rewrite Hc. cbn. rewrite <- !app_assoc. auto. }
  destruct Hs1 as [Hc1 Hw1].
  generalize (S (length (incoming (conn (client s1))))). intros fuel.
  destruct (sessionLoop_grows ambs fuel 0%nat s1 Hc1) as [G Hd].
  set (s2 := sessionLoop fuel ambs 0 s1) in *.
  unfold grows in G. rewrite Hc1 in G. destruct G as (w & Hw & G).
  unfold close, on_client. cbn [snd client]. unfold Close.
  destruct (connected (client s2)) eqn:Hc2; cbn [negb].
  - destruct G as [E C]. exists w. cbn. rewrite E, Hw1, <- !app_assoc. auto.
  - destruct G as [E C]. exists w. rewrite E, Hw1, Hc2, <- !app_assoc. auto 10.
Qed.

End WireTheorems.

Section HandlerRuns.

Context {Repo Race Class Character : Type}.
Context `{!Collaborators Repo Race Class Character}.

Lemma bind_run {A B} (m : M Repo A) (f : A -> M Repo B) s a s1 r :
  m s = (a, s1) -> f a s1 = r -> bind m f s = r.
Proof. unfold bind. intros -> <-. reflexivity. Qed.

Lemma send_run message (s : Session Repo) :
  connected (client s) = true ->
  send message s = (tt, mkSession (say (message ++ CRLF) (client s)) (repo s)).
Proof. unfold send, on_client, Send, say. intros ->. reflexivity. Qed.

Lemma sendPrompt_run prompt (s : Session Repo) :
  connected (client s) = true ->
  sendPrompt prompt s = (tt, mkSession (say prompt (client s)) (repo s)).
Proof. unfold sendPrompt, on_client, SendPrompt, say. intros ->. reflexivity. Qed.

Lemma Send_say message c : connected c = true -> snd (Send message c) = say (message ++ CRLF) c.
Proof. unfold Send, say. intros ->. reflexivity. Qed.

Lemma SendPrompt_say prompt c : connected c = true -> snd (SendPrompt prompt c) = say prompt c.
Proof. unfold SendPrompt, say. intros ->. reflexivity. Qed.

Lemma on_repo_run {A} (f : Repo -> A * Repo) (s : Session Repo) :
  on_repo f s = (fst (f (repo s)), mkSession (client s) (snd (f (repo s)))).
Proof. unfold on_repo. destruct (f (repo s)); reflexivity. Qed.

Lemma forEach_send_run lines : forall (s : Session Repo),
  connected (client s) = true ->
  forEach lines send s = (tt, mkSession (say_lines lines (client s)) (repo s)).
Proof.
  induction lines as [|l lines IH]; intros s Hc; cbn [forEach].
  - destruct s; reflexivity.
  - eapply bind_run; [apply send_run, Hc|]. cbv beta. rewrite IH by exact Hc. reflexivity.
Qed.

Lemma say_quiet data c : quiet c (say data c).
Proof. unfold quiet, temp_kept. cbn. auto 12. Qed.

Lemma say_lines_quiet lines : forall c, quiet c (say_lines lines c).
Proof.
  induction lines as [|l lines IH]; intros c; cbn [say_lines fold_left].
  - apply quiet_refl.
  - eapply quiet_trans; [apply (say_quiet (l ++ CRLF)) | apply IH].
Qed.

Lemma say_lines_wire lines : forall c,
  wire (conn (say_lines lines c)) = (wire (conn c) ++ flushed_lines lines)%list.
Proof.
  induction lines as [|l lines IH]; intros c; cbn [say_lines fold_left flushed_lines map].
  - now rewrite app_nil_r.
  - fold (say_lines lines (say (l ++ CRLF) c)). rewrite IH. cbn. now rewrite <- app_assoc.
Qed.

Ltac run :=
  cbv beta;
  lazymatch goal with
  | |- bind _ _ _ = _ => eapply bind_run; [run | run]
  | |- send _ _ = _ => etransitivity; [apply send_run; try assumption | reflexivity]
  | |- sendPrompt _ _ = _ =>
      etransitivity; [apply sendPrompt_run; try assumption | reflexivity]
  | |- on_repo _ _ = _ => etransitivity; [apply on_repo_run | reflexivity]
  | |- forEach _ send _ = _ =>
      etransitivity; [apply forEach_send_run; try assumption | reflexivity]
  | |- close _ = _ => reflexivity
  | |- on_client _ _ = _ => reflexivity
  | |- get_client _ _ = _ => reflexivity
  | |- get_repo _ _ = _ => reflexivity
  | |- ret _ _ = _ => reflexivity
  | |- _ => idtac
  end.

Lemma handleGameCommand_run input (s : Session Repo) :
  connected (client s) = true ->
  characterID (client s) <> "" ->
  handleGameCommand input s =
    (tt, mkSession
           (say "> "
              (say_lines
                 match fst (ProcessCommand (repo s) (characterID (client s)) input) with
                 | inl responses => responses
                 | inr err => ["Error: " ++ err]
                 end (client s)))
           (snd (ProcessCommand (repo s) (characterID (client s)) input))).
Proof.
  intros Hc Hid. unfold handleGameCommand.
  eapply bind_run; [reflexivity|]. cbv beta. unfold GetCharacterID.
  rewrite decide_False by exact Hid.
  eapply bind_run; [apply on_repo_run|]. cbv beta.
  destruct (fst (ProcessCommand (repo s) (characterID (client s)) input)) as [responses|err].
  - eapply bind_run; [apply forEach_send_run; exact Hc|]. cbv beta.
    apply sendPrompt_run. cbn [client]. now rewrite (proj1 (proj2 (say_lines_quiet _ _))).
  - run.
Qed.

(** X16.  A game command on a connected client.  With a character
    selected, the line goes to the engine as it was read, with the
    character id; the store is what the engine leaves; the responses are
    sent in order, each as a line, or the one line [Error: ...] when the
    engine fails, and the prompt follows in both cases: an engine error
    does not end the session, and the state stays as it was.  With no
    character selected the engine is not called and the state becomes
    CharacterSelection. *)
Theorem handleGameCommand_relays input (s : Session Repo) :
  connected (client s) = true ->
  if decide (characterID (client s) = "") then
    repo (snd (handleGameCommand input s)) = repo s /\
    state (client (snd (handleGameCommand input s))) = StateCharacterSelection /\
    connected (client (snd (handleGameCommand input s))) = true
  else
    let r := ProcessCommand (repo s) (characterID (client s)) input in
    let lines :=
      match fst r with inl responses => responses | inr err => ["Error: " ++ err] end in
    repo (snd (handleGameCommand input s)) = snd r /\
    wire (conn (client (snd (handleGameCommand input s)))) =
      (wire (conn (client s)) ++ flushed_lines lines ++ [Flushed "> "])%list /\
    quiet (client s) (client (snd (handleGameCommand input s))).
Proof.
  intros Hc. case_decide as Hid.
  - set (m0 := bind (send "Error: No character selected.")
                 (fun _ => bind (on_client (SetState StateCharacterSelection))
                             (fun _ => showCharacterMenu (Repo:=Repo)))).
    assert (E : handleGameCommand input s = m0 s).
    { unfold handleGameCommand, bind at 1, get_client at 1, GetCharacterID.
      now rewrite decide_True by exact Hid. }
    rewrite E.
    assert (Hq : quiet (SetState StateCharacterSelection (client s)) (client (snd (m0 s))) /\
                 repo (snd (m0 s)) = repo s).
    { unfold m0, bind at 1. rewrite send_run by exact Hc. unfold bind at 1.
      cbn [on_client].
      match goal with |- context [showCharacterMenu ?s0] =>
        destruct (showCharacterMenu_quiet s0) as [Q R] end.
      split; [|exact R].
      eapply quiet_trans; [|exact Q]. cbn [client].
      unfold quiet, temp_kept. cbn. auto 12. }
    destruct Hq as [Q R]. rewrite R. revert Q.
    generalize (client (snd (m0 s))). intros c' (_ & Q1 & _ & _ & Q2 & _).
    cbn in Q1, Q2. rewrite Q1, Q2, Hc. auto.
  - cbv zeta. rewrite handleGameCommand_run by assumption. cbn [snd client repo].
    split; [reflexivity|]. split.
    + cbn [say with_conn conn conn_Flush wire]. rewrite say_lines_wire.
      now rewrite <- app_assoc.
    + eapply quiet_trans; [apply say_lines_quiet | apply say_quiet].
Qed.

Lemma selectFirst_run name : forall characters (s : Session Repo),
  connected (client s) = true ->
  selectFirst characters name s =
  match find (fun char => EqualFold (interfaces.Name char) name) characters with
  | Some char =>
      (true,
       mkSession
         (say "> "
            (say ("You enter the game world..." ++ CRLF)
               (say (("Welcome, " ++ interfaces.Name char ++ "!") ++ CRLF)
                  (SetState StateInGame
                     (SetCharacterID (interfaces.ID char) (client s))))))
         (repo s))
  | None => (false, s)
  end.
Proof.
  induction characters as [|char rest IH]; intros s Hc; cbn [selectFirst find].
  - reflexivity.
  - destruct (EqualFold (interfaces.Name char) name); [|apply IH, Hc]. run.
Qed.

(** X17.  [selectCharacter] enters the game with the first character of
    the player, in the order of the store, whose name equals the given one
    under [EqualFold], whether the character is alive or not: its id
    becomes the character id of the client, the state becomes InGame, and
    the welcome lines and the game prompt are sent.  When no character
    matches, one line says so and nothing else changes.  The store is only
    read. *)
Theorem selectCharacter_enters_first_match name characters (s : Session Repo) :
  connected (client s) = true ->
  GetCharactersByPlayer (repo s) (playerID (client s)) = Some characters ->
  repo (snd (selectCharacter name s)) = repo s /\
  connected (client (snd (selectCharacter name s))) = true /\
  playerID (client (snd (selectCharacter name s))) = playerID (client s) /\
  match find (fun char => EqualFold (interfaces.Name char) name) characters with
  | Some char =>
      characterID (client (snd (selectCharacter name s))) = interfaces.ID char /\
      state (client (snd (selectCharacter name s))) = StateInGame /\
      wire (conn (client (snd (selectCharacter name s)))) =
        (wire (conn (client s)) ++
         flushed_lines [("Welcome, " ++ interfaces.Name char ++ "!")%string;
                        "You enter the game world..."] ++ [Flushed "> "])%list
  | None =>
      characterID (client (snd (selectCharacter name s))) = characterID (client s) /\
      state (client (snd (selectCharacter name s))) = state (client s) /\
      wire (conn (client (snd (selectCharacter name s)))) =
        (wire (conn (client s)) ++
         flushed_lines [("Character '" ++ name ++ "' not found.")%string])%list
  end.
Proof.
  intros Hc Hget.
  assert (E : selectCharacter name s =
    match find (fun char => EqualFold (interfaces.Name char) name) characters with
    | Some char =>
        (tt,
         mkSession
           (say "> "
              (say ("You enter the game world..." ++ CRLF)
                 (say (("Welcome, " ++ interfaces.Name char ++ "!") ++ CRLF)
                    (SetState StateInGame
                       (SetCharacterID (interfaces.ID char) (client s))))))
           (repo s))
    | None =>
        (tt, mkSession (say (("Character '" ++ name ++ "' not found.") ++ CRLF) (client s))
               (repo s))
    end).
  { unfold selectCharacter.
    eapply bind_run; [reflexivity|]. cbv beta.
    eapply bind_run; [reflexivity|]. cbv beta. unfold GetPlayerID. rewrite Hget.
    unfold bind at 1. rewrite selectFirst_run by exact Hc.
    destruct (find _ characters) as [char|]; cbv beta iota; [reflexivity|]. run. }
  rewrite E. destruct (find _ characters) as [char|]; cbn [snd client repo];
    cbn; rewrite <- ?app_assoc; auto 10.
Qed.

Lemma createCharacter_unfold amb name raceStr classStr (s : Session Repo) :
  createCharacter amb name raceStr classStr s =
  match GetRaceByID (ToLower raceStr) with
  | None =>
      bind (send ("Invalid race: " ++ raceStr))
        (fun _ => send "Available races: human, elf, dwarf") s
  | Some race =>
      match GetClassByID (ToLower classStr) with
      | None =>
          bind (send ("Invalid class: " ++ classStr))
            (fun _ => send "Available classes: warrior, mage, rogue") s
      | Some class =>
          let r := CreateCharacter (repo s)
                     (NewCharacter (amb_uuid amb) (amb_now amb) (playerID (client s)) name
                        race class) in
          send (if fst r then "Character '" ++ name ++ "' created successfully!"
                else "Error creating character. Name might already be taken.")
            (mkSession (client s) (snd r))
      end
  end.
Proof.
  unfold createCharacter.
  destruct (GetRaceByID (ToLower raceStr)) as [race|]; [|reflexivity].
  destruct (GetClassByID (ToLower classStr)) as [class|]; [|reflexivity].
  unfold bind, get_client, on_repo, GetPlayerID. cbv zeta.
  destruct (CreateCharacter (repo s) _) as [[|] r]; reflexivity.
Qed.

(** X18.  [createCharacter] checks the race, then the class, each looked
    up in lower case, and only then touches the store: with an unknown race
    or class the store is left as it was.  With both known, the one call on
    the store creates a character owned by the player of the client.  In
    every case the client is as before up to the lines sent: it stays in
    its state and is not moved into the game. *)
Theorem createCharacter_validates amb name raceStr classStr (s : Session Repo) :
  quiet (client s) (client (snd (createCharacter amb name raceStr classStr s))) /\
  match GetRaceByID (ToLower raceStr), GetClassByID (ToLower classStr) with
  | Some race, Some class =>
      repo (snd (createCharacter amb name raceStr classStr s)) =
        snd (CreateCharacter (repo s)
               (NewCharacter (amb_uuid amb) (amb_now amb) (playerID (client s)) name
                  race class))
  | _, _ => repo (snd (createCharacter amb name raceStr classStr s)) = repo s
  end.
Proof.
  rewrite createCharacter_unfold.
  destruct (GetRaceByID (ToLower raceStr)) as [race|].
  - destruct (GetClassByID (ToLower classStr)) as [class|].
    + cbv zeta.
      match goal with |- context [send ?m ?s0] =>
        destruct (send_quiet m s0) as [Q R] end.
      split; [exact Q | exact R].
    + match goal with |- context [bind ?a ?b s] =>
        destruct (seq_quiet a (b tt) (send_quiet _) (send_quiet _) s) as [Q R] end.
      split; [exact Q | exact R].
  - match goal with |- context [bind ?a ?b s] =>
      destruct (seq_quiet a (b tt) (send_quiet _) (send_quiet _) s) as [Q R] end.
    destruct (GetClassByID (ToLower classStr)); (split; [exact Q | exact R]).
Qed.

(** X19.  [listCharacters] on a connected client whose player has
    characters: after the three heading lines one row is sent for each
    character, in the order of the store, marked [Dead] or [Alive], and
    then an empty line; nothing but the wire changes. *)
Theorem listCharacters_rows characters (s : Session Repo) :
  connected (client s) = true ->
  GetCharactersByPlayer (repo s) (playerID (client s)) = Some characters ->
  characters <> [] ->
  wire (conn (client (snd (listCharacters s)))) =
    (wire (conn (client s)) ++
     flushed_lines
       ([String LF "Your Characters:";
         "Name           Race      Class     Level  Status    Last Played";
         "--------------------------------------------------------------"] ++
        map (fun char =>
               formatCharacterRow char
                 (if interfaces.IsAlive char then "Alive" else "Dead")) characters ++
        [""]))%list /\
  quiet (client s) (client (snd (listCharacters s))) /\
  repo (snd (listCharacters s)) = repo s.
Proof.
  intros Hc Hget Hne.
  assert (Hrows : forall (l : list interfaces.CharacterSummary) (s0 : Session Repo),
    connected (client s0) = true ->
    forEach l (fun char =>
      send (formatCharacterRow char
              (if negb (interfaces.IsAlive char) then "Dead" else "Alive"))) s0 =
    (tt, mkSession
           (say_lines
              (map (fun char =>
                      formatCharacterRow char
                        (if interfaces.IsAlive char then "Alive" else "Dead")) l)
              (client s0))
           (repo s0))).
  { induction l as [|char l IH]; intros s0 Hc0; cbn [forEach map].
    - destruct s0; reflexivity.
    - eapply bind_run; [apply send_run, Hc0|]. cbv beta. rewrite IH by exact Hc0.
      cbn [client repo say_lines fold_left].
      destruct (interfaces.IsAlive char); reflexivity. }
  assert (E : listCharacters s =
    (tt, mkSession
           (say ("" ++ CRLF)
              (say_lines
                 (map (fun char =>
                         formatCharacterRow char
                           (if interfaces.IsAlive char then "Alive" else "Dead"))
                    characters)
                 (say_lines
                    [String LF "Your Characters:";
                     "Name           Race      Class     Level  Status    Last Played";
                     "--------------------------------------------------------------"]
                    (client s))))
           (repo s))).
  { unfold listCharacters.
    eapply bind_run; [reflexivity|]. cbv beta.
    eapply bind_run; [reflexivity|]. cbv beta. unfold GetPlayerID. rewrite Hget.
    destruct characters as [|char rest]; [congruence|].
    eapply bind_run; [apply send_run, Hc|]. cbv beta.
    eapply bind_run; [apply send_run, Hc|]. cbv beta.
    eapply bind_run; [apply send_run, Hc|]. cbv beta.
    eapply bind_run; [apply Hrows, Hc|]. cbv beta.
    rewrite send_run; [reflexivity|]. cbn [client].
    now rewrite (proj1 (proj2 (say_lines_quiet _ _))). }
  rewrite E. cbn [snd client repo]. split; [|split; [|reflexivity]].
  - cbn [say with_conn conn conn_Flush wire]. rewrite !say_lines_wire.
    unfold flushed_lines. rewrite !map_app, <- !app_assoc. reflexivity.
  - eapply quiet_trans; [apply say_lines_quiet|].
    eapply quiet_trans; [apply say_lines_quiet | apply say_quiet].
Qed.

Lemma handleAccountCreation_unfold input (s : Session Repo) :
  connected (client s) = true ->
  handleAccountCreation input s =
  if decide (TrimSpace input = "") then
    (tt, mkSession
           (say "Email: "
              (say ("Email cannot be empty. Please enter your email address:" ++ CRLF)
                 (client s)))
           (repo s))
  else if negb (emailRegex_MatchString (TrimSpace input)) then
    (tt, mkSession
           (say "Email: "
              (say ("Invalid email format. Please enter a valid email address:" ++ CRLF)
                 (client s)))
           (repo s))
  else
    match GetPlayerByEmail (repo s) (TrimSpace input) with
    | Some _ =>
        (tt, mkSession
               (Close
                  (say ("Please try logging in or use a different email address." ++ CRLF)
                     (say ("An account with this email already exists." ++ CRLF)
                        (client s))))
               (repo s))
    | None =>
        (tt, mkSession
               (SetState StateConfirmingPassword
                  (say ("Please choose a password (minimum 6 characters):" ++ CRLF)
                     (SetTempEmail (TrimSpace input) (client s))))
               (repo s))
    end.
Proof.
  intros Hc. unfold handleAccountCreation. cbv zeta.
  destruct (decide (TrimSpace input = "")); [run|].
  destruct (negb (emailRegex_MatchString (TrimSpace input))); [run|].
  eapply bind_run; [reflexivity|]. cbv beta.
  destruct (GetPlayerByEmail (repo s) (TrimSpace input)); run.
Qed.

(** X20.  The e-mail step of account creation on a connected client.  The
    input counts trimmed.  An empty or ill-formed address is refused and
    asked for again, the client staying as it was; an address that an
    account already uses ends the session; any other address is kept in
    [tempEmail], the state becomes ConfirmingPassword and the client stays
    connected.  The store is only read, and the pending user name is
    kept. *)
Theorem handleAccountCreation_outcome input (s : Session Repo) :
  connected (client s) = true ->
  repo (snd (handleAccountCreation input s)) = repo s /\
  tempUsername (client (snd (handleAccountCreation input s))) = tempUsername (client s) /\
  if decide (TrimSpace input = "" \/ emailRegex_MatchString (TrimSpace input) = false) then
    quiet (client s) (client (snd (handleAccountCreation input s))) /\
    exists line,
      wire (conn (client (snd (handleAccountCreation input s)))) =
        (wire (conn (client s)) ++ [Flushed (line ++ CRLF); Flushed "Email: "])%list
  else
    match GetPlayerByEmail (repo s) (TrimSpace input) with
    | Some _ =>
        connected (client (snd (handleAccountCreation input s))) = false /\
        state (client (snd (handleAccountCreation input s))) = StateDisconnecting /\
        tempEmail (client (snd (handleAccountCreation input s))) = tempEmail (client s)
    | None =>
        connected (client (snd (handleAccountCreation input s))) = true /\
        state (client (snd (handleAccountCreation input s))) = StateConfirmingPassword /\
        tempEmail (client (snd (handleAccountCreation input s))) = TrimSpace input
    end.
Proof.
  intros Hc. rewrite handleAccountCreation_unfold by exact Hc.
  destruct (decide (TrimSpace input = "")) as [He|He].
  - rewrite decide_True by (now left). cbn [snd client repo].
    split; [reflexivity|]. split; [reflexivity|]. split.
    + eapply quiet_trans; apply say_quiet.
    + eexists. cbn. rewrite <- app_assoc. reflexivity.
  - destruct (emailRegex_MatchString (TrimSpace input)) eqn:Hm; cbn [negb].
    + rewrite decide_False by (intros [?|?]; congruence).
      destruct (GetPlayerByEmail (repo s) (TrimSpace input)); cbn [snd client repo].
      * unfold Close. cbn. rewrite Hc. cbn. auto.
      * cbn. auto.
    + rewrite decide_True by (now right). cbn [snd client repo].
      split; [reflexivity|]. split; [reflexivity|]. split.
      * eapply quiet_trans; apply say_quiet.
      * eexists. cbn. rewrite <- app_assoc. reflexivity.
Qed.

(** X21.  The user name step on a connected client, for a name the store
    knows.  An active player is asked for the password: the state becomes
    Authenticating and the id of the player found is attached to the
    client.  A player that is not active is told so and the session ends,
    no password being asked.  The store is only read. *)
Theorem handleLogin_known_player username p (s : Session Repo) :
  connected (client s) = true ->
  TrimSpace username <> "" ->
  GetPlayerByUsername (repo s) (TrimSpace username) = Some p ->
  repo (snd (handleLogin username s)) = repo s /\
  if player.IsActive p then
    connected (client (snd (handleLogin username s))) = true /\
    state (client (snd (handleLogin username s))) = StateAuthenticating /\
    playerID (client (snd (handleLogin username s))) = player.ID p /\
    wire (conn (client (snd (handleLogin username s)))) =
      (wire (conn (client s)) ++ flushed_lines ["Please enter your password:"])%list
  else
    connected (client (snd (handleLogin username s))) = false /\
    state (client (snd (handleLogin username s))) = StateDisconnecting /\
    playerID (client (snd (handleLogin username s))) = playerID (client s) /\
    wire (conn (client (snd (handleLogin username s)))) =
      (wire (conn (client s)) ++
       flushed_lines ["Your account has been suspended. Please contact an administrator."] ++
       [ConnClose])%list.
Proof.
  intros Hc Hu Hget. rewrite handleLogin_unfold, Hget.
  rewrite decide_False by exact Hu.
  destruct (player.IsActive p); cbn [negb].
  - cbn [snd client repo]. rewrite Send_say by exact Hc. cbn. auto.
  - rewrite send_close.
    pose proof (told_and_closed_facts
      "Your account has been suspended. Please contact an administrator." s)
      as (_ & F1 & F2 & _ & _ & F3 & F4).
    destruct (F4 Hc) as [F5 F6]. auto.
Qed.

End HandlerRuns.

Section Flows.

Context {Repo Race Class Character : Type}.
Context `{!Collaborators Repo Race Class Character}.

Lemma sessionLoop_turn fuel ambs t (s : Session Repo) :
  connected (client s) = true ->
  snd (fst (readInput (ambs t) (client s))) = None ->
  sessionLoop (S fuel) ambs t s = sessionLoop fuel ambs (S t) (turn (ambs t) s).
Proof.
  intros Hc Hr. rewrite sessionLoop_step. unfold IsConnected. rewrite Hc, Hr. reflexivity.
Qed.

Lemma readInput_line amb c (l rest : list byte) :
  state c <> StateAuthenticating ->
  state c <> StateConfirmingPassword ->
  ~ In LF l ->
  incoming (conn c) = stream (l ++ LF :: rest) ->
  readInput amb c =
    ((string_of_list_ascii (chomp_cr l), None),
     with_conn (with_incoming (stream rest) (conn c)) (updateLastActive (amb_now amb) c)).
Proof.
  intros H1 H2 Hl Hin. unfold readInput, GetState.
  rewrite decide_False by (intros [?|?]; contradiction).
  apply ReadLine_line; assumption.
Qed.

Lemma readInput_password amb c bs kept rest :
  state c = StateAuthenticating \/ state c = StateConfirmingPassword ->
  incoming (conn c) = stream bs ->
  writes_succeed (conn c) ->
  spec_password_bytes bs = Some kept ->
  spec_password_rest bs = Some rest ->
  readInput amb c =
    ((encode_bytes kept, None),
     with_conn
       (mkConn (stream rest) (tl (tl (wresults (conn c))))
          (wire (conn c) ++
             [ConnWrite IAC_WILL_ECHO true; ConnWrite IAC_WONT_ECHO true; Flushed CRLF])%list
          false)
       (updateLastActive (amb_now amb) c)).
Proof.
  intros Hst Hin Hw Hk Hr. unfold readInput, GetState.
  rewrite decide_True by exact Hst.
  apply (ReadPassword_effect _ _ bs); assumption.
Qed.

Lemma turn_eq amb (s : Session Repo) line c1 :
  readInput amb (client s) = ((line, None), c1) ->
  snd (fst (readInput amb (client s))) = None /\
  turn amb s = snd (dispatch amb line (mkSession c1 (repo s))).
Proof. intros E. unfold turn. rewrite E. split; reflexivity. Qed.

Lemma dispatch_Connected amb line (s : Session Repo) :
  state (client s) = StateConnected -> dispatch amb line s = handleLogin line s.
Proof. intros E. unfold dispatch, bind, get_client, GetState. now rewrite E. Qed.

Lemma dispatch_Authenticating amb line (s : Session Repo) :
  state (client s) = StateAuthenticating ->
  dispatch amb line s = handlePasswordAuth amb line s.
Proof. intros E. unfold dispatch, bind, get_client, GetState. now rewrite E. Qed.

Lemma dispatch_CreatingAccount amb line (s : Session Repo) :
  state (client s) = StateCreatingAccount ->
  dispatch amb line s = handleAccountCreation line s.
Proof. intros E. unfold dispatch, bind, get_client, GetState. now rewrite E. Qed.

Lemma dispatch_ConfirmingPassword amb line (s : Session Repo) :
  state (client s) = StateConfirmingPassword ->
  dispatch amb line s = handlePasswordConfirmation amb line s.
Proof. intros E. unfold dispatch, bind, get_client, GetState. now rewrite E. Qed.

Lemma writes_succeed_tl k rest w :
  writes_succeed k ->
  writes_succeed (mkConn rest (tl (tl (wresults k))) w false).
Proof.
  intros [_ Hf]. split; [reflexivity|]. cbn [wresults].
  destruct (wresults k) as [|a [|b r]]; cbn [tl]; auto.
  inversion Hf as [|? ? _ Hf']. inversion Hf'. assumption.
Qed.

(** X22.  Logging in, over two turns of the loop of [HandleClient].  A
    connected client in state Connected sends a line and then a password;
    the line, trimmed, is the user name of an active player, and the
    password, trimmed, matches the hash of the player stored under the id
    of that player.  Then the loop reads both, in line mode and in password
    mode, and goes on from a session in state CharacterSelection, still
    connected, with the id of the player attached to the client, the login
    recorded in the store, and the stream left after the password. *)
Theorem login_flow fuel ambs t (s : Session Repo) (l bs kept rest : list byte) p p' :
  connected (client s) = true ->
  state (client s) = StateConnected ->
  writes_succeed (conn (client s)) ->
  incoming (conn (client s)) = stream (l ++ LF :: bs) ->
  ~ In LF l ->
  spec_password_bytes bs = Some kept ->
  spec_password_rest bs = Some rest ->
  TrimSpace (string_of_list_ascii (chomp_cr l)) <> "" ->
  GetPlayerByUsername (repo s) (TrimSpace (string_of_list_ascii (chomp_cr l))) = Some p ->
  player.IsActive p = true ->
  player.ID p <> "" ->
  TrimSpace (encode_bytes kept) <> "" ->
  GetPlayer (repo s) (player.ID p) = Some p' ->
  CompareHashAndPassword (player.PasswordHash p') (TrimSpace (encode_bytes kept)) = true ->
  let s2 := turn (ambs (S t)) (turn (ambs t) s) in
  sessionLoop (S (S fuel)) ambs t s = sessionLoop fuel ambs (S (S t)) s2 /\
  connected (client s2) = true /\
  state (client s2) = StateCharacterSelection /\
  playerID (client s2) = player.ID p /\
  repo s2 = UpdatePlayerLogin (repo s) (player.ID p) /\
  incoming (conn (client s2)) = stream rest.
Proof.
  intros Hc Hst Hw Hin Hl Hk Hr Hu Hget Hact Hid Hpw Hget' Hcmp.
  set (c1 := with_conn (with_incoming (stream bs) (conn (client s)))
               (updateLastActive (amb_now (ambs t)) (client s))).
  destruct (turn_eq (ambs t) s (string_of_list_ascii (chomp_cr l)) c1) as [R1 T1].
  { apply readInput_line; try assumption; rewrite Hst; discriminate. }
  assert (E1 : turn (ambs t) s =
    mkSession
      (SetPlayerID (player.ID p)
         (SetState StateAuthenticating (say ("Please enter your password:" ++ CRLF) c1)))
      (repo s)).
  { rewrite T1, dispatch_Connected by exact Hst. rewrite handleLogin_unfold.
    cbn [client repo]. rewrite decide_False by exact Hu. rewrite Hget, Hact.
    cbn [negb snd]. rewrite Send_say by exact Hc. reflexivity. }
  set (s1 := turn (ambs t) s) in *.
  set (c2 := with_conn
               (mkConn (stream rest) (tl (tl (wresults (conn (client s1)))))
                  (wire (conn (client s1)) ++
                     [ConnWrite IAC_WILL_ECHO true; ConnWrite IAC_WONT_ECHO true;
                      Flushed CRLF])%list false)
               (updateLastActive (amb_now (ambs (S t))) (client s1))).
  destruct (turn_eq (ambs (S t)) s1 (encode_bytes kept) c2) as [R2 T2].
  { apply (readInput_password _ _ bs); try assumption; rewrite E1.
    - left; reflexivity.
    - reflexivity.
    - exact Hw. }
  assert (Hc2 : connected c2 = true) by (unfold c2; rewrite E1; exact Hc).
  assert (Hp2 : playerID c2 = player.ID p) by (unfold c2; rewrite E1; reflexivity).
  assert (Hr1 : repo s1 = repo s) by (rewrite E1; reflexivity).
  assert (E2 : turn (ambs (S t)) s1 =
    snd (showCharacterMenu
           (mkSession
              (SetState StateCharacterSelection
                 (say (("Welcome back, " ++ player.Username p' ++ "!") ++ CRLF) c2))
              (UpdatePlayerLogin (repo s) (player.ID p))))).
  { rewrite T2, dispatch_Authenticating by (unfold c2; rewrite E1; reflexivity).
    rewrite handlePasswordAuth_unfold. cbn [client repo].
    rewrite decide_False by exact Hpw. rewrite Hp2, Hr1.
    rewrite decide_False by exact Hid. rewrite Hget', Hcmp. cbn [negb].
    rewrite Send_say by exact Hc2. reflexivity. }
  cbv zeta. split.
  - rewrite sessionLoop_turn by assumption. fold s1.
    rewrite sessionLoop_turn; [reflexivity | | exact R2].
    rewrite E1. exact Hc.
  - rewrite E2.
    match goal with |- context [showCharacterMenu ?s0] =>
      destruct (showCharacterMenu_quiet s0) as [Q R]; revert Q R;
      generalize (snd (showCharacterMenu s0)) end.
    intros s' (_ & Q1 & Q2 & _ & Q3 & _ & _ & Q4 & _) R. cbn [client repo] in *.
    rewrite R, Q1, Q2, Q3, Q4. cbn [connected state playerID SetState say with_conn].
    rewrite Hc2, Hp2. repeat split.
Qed.

(** X23.  Creating an account, over four turns of the loop of
    [HandleClient].  A connected client in state Connected, with no pending
    password, sends a user name the store does not know, an e-mail address
    that is well formed and that no account uses, and the same password
    twice, of six characters or more once trimmed.  When the password can
    be hashed and the store accepts the player, the loop reads the four
    inputs, the first two in line mode and the last two in password mode,
    and goes on from a session in state CharacterSelection, still
    connected: the store holds a new player with the trimmed user name and
    address and the hash, the id of the new player is attached to the
    client, and the three scratch fields are empty again. *)
Theorem account_creation_flow fuel ambs t (s : Session Repo)
    (lu le bs1 k1 bs2 k2 rest : list byte) passwordHash :
  connected (client s) = true ->
  state (client s) = StateConnected ->
  tempPassword (client s) = "" ->
  writes_succeed (conn (client s)) ->
  incoming (conn (client s)) = stream (lu ++ LF :: le ++ LF :: bs1) ->
  ~ In LF lu ->
  ~ In LF le ->
  spec_password_bytes bs1 = Some k1 ->
  spec_password_rest bs1 = Some bs2 ->
  spec_password_bytes bs2 = Some k2 ->
  spec_password_rest bs2 = Some rest ->
  let username := TrimSpace (string_of_list_ascii (chomp_cr lu)) in
  let email := TrimSpace (string_of_list_ascii (chomp_cr le)) in
  let password := TrimSpace (encode_bytes k1) in
  let amb := ambs (S (S (S t))) in
  let newPlayer := player.NewPlayer (amb_uuid amb) (amb_now amb) username email passwordHash in
  username <> "" ->
  GetPlayerByUsername (repo s) username = None ->
  email <> "" ->
  emailRegex_MatchString email = true ->
  GetPlayerByEmail (repo s) email = None ->
  (6 <= String.length password)%nat ->
  TrimSpace (encode_bytes k2) = password ->
  GenerateFromPassword password = Some passwordHash ->
  fst (CreatePlayer (repo s) newPlayer) = true ->
  let s4 := turn amb (turn (ambs (S (S t))) (turn (ambs (S t)) (turn (ambs t) s))) in
  sessionLoop (S (S (S (S fuel)))) ambs t s = sessionLoop fuel ambs (S (S (S (S t)))) s4 /\
  connected (client s4) = true /\
  state (client s4) = StateCharacterSelection /\
  playerID (client s4) = amb_uuid amb /\
  temp_cleared (client s4) /\
  repo s4 = snd (CreatePlayer (repo s) newPlayer) /\
  incoming (conn (client s4)) = stream rest.
Proof.
  intros Hc Hst Htp Hw Hin Hlu Hle Hk1 Hr1 Hk2 Hr2 username email password amb newPlayer
    Hu Hgu He Hre Hge Hlen Hsame Hhash Hok.
  assert (Hpw : password <> "") by (intros E; rewrite E in Hlen; cbn in Hlen; lia).
  (* the user name *)
  set (c1 := with_conn (with_incoming (stream (le ++ LF :: bs1)) (conn (client s)))
               (updateLastActive (amb_now (ambs t)) (client s))).
  destruct (turn_eq (ambs t) s (string_of_list_ascii (chomp_cr lu)) c1) as [R1 T1].
  { apply readInput_line; try assumption; rewrite Hst; discriminate. }
  assert (E1 : turn (ambs t) s =
    mkSession
      (SetState StateCreatingAccount
         (say "Email: "
            (say ("Please enter your email address:" ++ CRLF)
               (say (("New player! Creating account for: " ++ username) ++ CRLF)
                  (SetTempUsername username c1)))))
      (repo s)).
  { rewrite T1, dispatch_Connected by exact Hst. rewrite handleLogin_unfold.
    cbn [client repo]. fold username. rewrite decide_False by exact Hu. rewrite Hgu.
    cbn [snd].
    rewrite (Send_say ("New player! Creating account for: " ++ username)) by exact Hc.
    rewrite (Send_say "Please enter your email address:") by exact Hc.
    rewrite SendPrompt_say by exact Hc. reflexivity. }
  set (s1 := turn (ambs t) s) in *.
  (* the e-mail address *)
  set (c2 := with_conn (with_incoming (stream bs1) (conn (client s1)))
               (updateLastActive (amb_now (ambs (S t))) (client s1))).
  destruct (turn_eq (ambs (S t)) s1 (string_of_list_ascii (chomp_cr le)) c2) as [R2 T2].
  { apply readInput_line; try assumption; rewrite E1; try discriminate. reflexivity. }
  assert (E2 : turn (ambs (S t)) s1 =
    mkSession
      (SetState StateConfirmingPassword
         (say ("Please choose a password (minimum 6 characters):" ++ CRLF)
            (SetTempEmail email c2)))
      (repo s)).
  { rewrite T2, dispatch_CreatingAccount by (unfold c2; rewrite E1; reflexivity).
    rewrite handleAccountCreation_unfold by (unfold c2; rewrite E1; exact Hc).
    fold email. rewrite decide_False by exact He. rewrite Hre. cbn [negb repo client].
    replace (repo s1) with (repo s) by (rewrite E1; reflexivity).
    rewrite Hge. reflexivity. }
  set (s2 := turn (ambs (S t)) s1) in *.
  (* the password *)
  set (c3 := with_conn
               (mkConn (stream bs2) (tl (tl (wresults (conn (client s2)))))
                  (wire (conn (client s2)) ++
                     [ConnWrite IAC_WILL_ECHO true; ConnWrite IAC_WONT_ECHO true;
                      Flushed CRLF])%list false)
               (updateLastActive (amb_now (ambs (S (S t)))) (client s2))).
  destruct (turn_eq (ambs (S (S t))) s2 (encode_bytes k1) c3) as [R3 T3].
  { apply (readInput_password _ _ bs1); try assumption; rewrite E2.
    - right; reflexivity.
    - reflexivity.
    - unfold c2. rewrite E1. exact Hw. }
  assert (Hc3 : connected c3 = true)
    by (unfold c3; rewrite E2; unfold c2; rewrite E1; exact Hc).
  assert (E3 : turn (ambs (S (S t))) s2 =
    mkSession (say ("Please confirm your password:" ++ CRLF) (SetTempPassword password c3))
      (repo s)).
  { rewrite T3, dispatch_ConfirmingPassword by (unfold c3; rewrite E2; reflexivity).
    rewrite handlePasswordConfirmation_unfold. cbn [client repo]. fold password.
    replace (tempPassword c3) with (tempPassword (client s))
      by (unfold c3; rewrite E2; unfold c2; rewrite E1; reflexivity).
    rewrite decide_True by exact Htp.
    apply Nat.ltb_ge in Hlen. rewrite Hlen.
    rewrite Send_say by exact Hc3.
    replace (repo s2) with (repo s) by (rewrite E2; reflexivity). reflexivity. }
  set (s3 := turn (ambs (S (S t))) s2) in *.
  (* the confirmation *)
  set (c4 := with_conn
               (mkConn (stream rest) (tl (tl (wresults (conn (client s3)))))
                  (wire (conn (client s3)) ++
                     [ConnWrite IAC_WILL_ECHO true; ConnWrite IAC_WONT_ECHO true;
                      Flushed CRLF])%list false)
               (updateLastActive (amb_now amb) (client s3))).
  destruct (turn_eq amb s3 (encode_bytes k2) c4) as [R4 T4].
  { apply (readInput_password _ _ bs2); try assumption; rewrite E3.
    - right. unfold c3. rewrite E2. reflexivity.
    - unfold c3. reflexivity.
    - unfold c3. cbn [client say conn with_conn conn_Flush SetTempPassword].
      apply (writes_succeed_tl (conn (client s2))).
      rewrite E2. unfold c2. rewrite E1. exact Hw. }
  assert (Hc4 : connected c4 = true) by (unfold c4; rewrite E3; exact Hc3).
  assert (Ht4 : tempPassword c4 = password /\ tempUsername c4 = username /\
                tempEmail c4 = email).
  { unfold c4. rewrite E3. unfold c3. rewrite E2. unfold c2. rewrite E1.
    repeat split. }
  destruct Ht4 as (Htp4 & Htu4 & Hte4).
  assert (E4 : turn amb s3 =
    snd (showCharacterMenu
           (mkSession
              (SetState StateCharacterSelection
                 (say (("Account created successfully! Welcome to DungeoGo, "
                        ++ username ++ "!") ++ CRLF)
                    (SetPlayerID (player.ID newPlayer) (ClearTempData c4))))
              (snd (CreatePlayer (repo s) newPlayer))))).
  { rewrite T4, dispatch_ConfirmingPassword
      by (unfold c4; rewrite E3; unfold c3; rewrite E2; reflexivity).
    rewrite handlePasswordConfirmation_unfold. cbn [client repo].
    rewrite Htp4, Hsame.
    rewrite decide_False by exact Hpw.
    rewrite decide_False by (intros Hn; apply Hn; reflexivity).
    rewrite createAccount_unfold. cbn [client repo].
    rewrite Htp4, Htu4, Hte4, Hhash. cbv zeta.
    replace (repo s3) with (repo s) by (rewrite E3; reflexivity).
    fold amb. fold newPlayer. rewrite Hok. cbn [negb repo].
    rewrite Send_say by exact Hc4. reflexivity. }
  cbv zeta. split.
  - rewrite sessionLoop_turn by assumption. fold s1.
    rewrite sessionLoop_turn; [| rewrite E1; exact Hc | exact R2]. fold s2.
    rewrite sessionLoop_turn;
      [| rewrite E2; unfold c2; rewrite E1; exact Hc | exact R3]. fold s3.
    rewrite sessionLoop_turn; [reflexivity | rewrite E3; exact Hc3 | exact R4].
  - fold s1 s2 s3. rewrite E4.
    match goal with |- context [showCharacterMenu ?s0] =>
      destruct (showCharacterMenu_quiet s0) as [Q R]; revert Q R;
      generalize (snd (showCharacterMenu s0)) end.
    intros s' (_ & Q1 & Q2 & _ & Q3 & _ & (Q5 & Q6 & Q7) & Q4 & _) R.
    cbn [client repo] in *.
    unfold temp_cleared. rewrite R, Q1, Q2, Q3, Q4, Q5, Q6, Q7.
    cbn [connected state playerID tempUsername tempPassword tempEmail SetState say
         with_conn SetPlayerID ClearTempData].
    rewrite Hc4. repeat split.
Qed.

End Flows.

Section PendingPassword.

Context {Repo Race Class Character : Type}.
Context `{!Collaborators Repo Race Class Character}.

Lemma pending_dispatch amb line :
  related (Repo:=Repo) (fun c c' => pending_ok c -> pending_ok c') (dispatch amb line).
Proof.
  apply related_dispatch; unfold pending_ok; try (intros; cbn; tauto).
  - intros message c. now destruct (Send_quiet message c) as (_ & _ & _ & _ & _ & _ & (_ & -> & _) & _).
  - intros prompt c.
    now destruct (SendPrompt_quiet prompt c) as (_ & _ & _ & _ & _ & _ & (_ & -> & _) & _).
  - intros c. now destruct (Close_frame c) as ((_ & -> & _) & _).
  - intros p c [->|Hlen] _; cbn; [now left|]. right. now apply Nat.ltb_ge.
Qed.

Lemma readInput_temp amb c :
  tempPassword (snd (readInput amb c)) = tempPassword c.
Proof.
  unfold readInput. case_decide.
  - destruct (ReadPassword (amb_now amb) c) as [r c'] eqn:E.
    apply ReadPassword_frame in E. cbn [snd]. rewrite E. reflexivity.
  - unfold ReadLine. cbn [conn updateLastActive].
    destruct (ReadString (incoming (conn c)) "") as [[l|] rest]; reflexivity.
Qed.

(** X24.  The pending password of a client is never a short one: if it is
    empty or has six characters or more when the loop of [HandleClient] is
    entered, as on every new client, it is so when the loop is left, and so
    after every turn, whatever was read. *)
Theorem pending_password_is_long fuel ambs : forall t (s : Session Repo),
  pending_ok (client s) ->
  pending_ok (client (sessionLoop fuel ambs t s)).
Proof.
  induction fuel as [|fuel IH]; intros t s Hok; [exact Hok|].
  rewrite sessionLoop_step.
  destruct (negb (IsConnected (client s))); [exact Hok|].
  assert (Hok1 : pending_ok (snd (readInput (ambs t) (client s))))
    by (unfold pending_ok; rewrite readInput_temp; exact Hok).
  destruct (snd (fst (readInput (ambs t) (client s)))); [exact Hok1|].
  apply IH. apply (pending_dispatch (ambs t) _ (mkSession _ _)). exact Hok1.
Qed.

(** X25.  In the ConfirmingPassword state a turn leaves the store as it
    was, or creates one player: then the line read, trimmed, is the pending
    password, the hash stored is the hash of that password, and, the pending
    password being a long one, the password of the account has six
    characters or more. *)
Theorem account_password_is_long amb line (s : Session Repo) :
  state (client s) = StateConfirmingPassword ->
  pending_ok (client s) ->
  repo (snd (dispatch amb line s)) = repo s \/
  exists passwordHash,
    (6 <= String.length (TrimSpace line))%nat /\
    TrimSpace line = tempPassword (client s) /\
    GenerateFromPassword (TrimSpace line) = Some passwordHash /\
    repo (snd (dispatch amb line s)) =
      snd (CreatePlayer (repo s)
             (player.NewPlayer (amb_uuid amb) (amb_now amb) (tempUsername (client s))
                (tempEmail (client s)) passwordHash)).
Proof.
  intros Hst Hok. rewrite dispatch_ConfirmingPassword by exact Hst.
  rewrite handlePasswordConfirmation_unfold.
  destruct (decide (tempPassword (client s) = "")) as [He|He].
  - left. destruct (_ <? _)%nat; [|reflexivity].
    match goal with |- context [bind ?a ?b s] =>
      destruct (seq_quiet a (b tt) (send_quiet _) (send_quiet _) s) as [_ R] end.
    exact R.
  - destruct (decide (tempPassword (client s) <> TrimSpace line)) as [Hne|Heq];
      [left; reflexivity|].
    assert (E : TrimSpace line = tempPassword (client s)).
    { destruct (decide (tempPassword (client s) = TrimSpace line)) as [E|E];
        [now symmetry | contradiction]. }
    rewrite createAccount_unfold.
    destruct (GenerateFromPassword (tempPassword (client s))) as [h|] eqn:Hh.
    + right. exists h. rewrite E.
      split; [destruct Hok as [?|?]; [contradiction | assumption]|].
      split; [reflexivity|]. split; [exact Hh|]. cbv zeta.
      destruct (negb (fst (CreatePlayer (repo s) _))).
      * rewrite send_close. apply told_and_closed_facts.
      * match goal with |- context [showCharacterMenu ?s0] =>
          destruct (showCharacterMenu_quiet s0) as [_ R] end.
        exact R.
    + left. rewrite send_close. apply told_and_closed_facts.
Qed.


(** X27.  In the CharacterSelection state the command [quit], or [q], in
    any case of letters and whatever follows it on the line, says goodbye
    and ends the session: the one line is sent, the connection is closed,
    and no prompt is sent after it. *)
Theorem quit_ends_the_session amb input part0 args (s : Session Repo) :
  connected (client s) = true ->
  Fields (TrimSpace input) = part0 :: args ->
  ToLower part0 = "quit" \/ ToLower part0 = "q" ->
  snd (handleCharacterSelection amb input s) = told_and_closed "Goodbye!" s /\
  wire (conn (client (snd (handleCharacterSelection amb input s)))) =
    (wire (conn (client s)) ++ [Flushed ("Goodbye!" ++ CRLF); ConnClose])%list /\
  connected (client (snd (handleCharacterSelection amb input s))) = false.
Proof.
  intros Hc Hf Hq.
  assert (E : snd (handleCharacterSelection amb input s) = told_and_closed "Goodbye!" s).
  { unfold handleCharacterSelection. cbv zeta. rewrite Hf.
    rewrite decide_False by (intros [E|E]; destruct Hq as [Q|Q]; congruence).
    rewrite decide_False by (intros [E|E]; destruct Hq as [Q|Q]; congruence).
    rewrite decide_False by (intros [E|E]; destruct Hq as [Q|Q]; congruence).
    rewrite decide_False by (intros [E|E]; destruct Hq as [Q|Q]; congruence).
    rewrite decide_True by exact Hq.
    unfold bind at 1.
    pose proof (send_close "Goodbye!" s) as Hsc.
    destruct (bind (send "Goodbye!") (fun _ => close) s) as [[] s1]. cbn [snd] in Hsc.
    subst s1. unfold bind, get_client, GetState.
    pose proof (told_and_closed_facts "Goodbye!" s) as (_ & _ & _ & _ & _ & _ & F).
    destruct (F Hc) as [-> _]. reflexivity. }
  rewrite E.
  pose proof (told_and_closed_facts "Goodbye!" s) as (_ & F1 & _ & _ & _ & _ & F).
  destruct (F Hc) as [_ F2]. auto.
Qed.

End PendingPassword.

(** * The further properties on concrete sessions *)

Section ConcreteTurns.

Import memory sessions.

Lemma dispatch_follows_the_edges_witness :
  let s := mkSession (fresh_client []) db0 in
  (connected (client (snd (dispatch amb0 "bob" s))) = false /\
   state (client (snd (dispatch amb0 "bob" s))) = StateDisconnecting) \/
  (connected (client (snd (dispatch amb0 "bob" s))) = true /\
   In (state (client (snd (dispatch amb0 "bob" s)))) (next_states (state (client s)))).
Proof.
  cbv zeta. apply (dispatch_follows_the_edges amb0 "bob" (mkSession (fresh_client []) db0)).
  reflexivity.
Defined.

Lemma HandleClient_closes_once_witness :
  let s := mkSession (fresh_client ["bob"; "hunter22"; "quit"]) db0 in
  exists w, forallb not_close w = true /\
    wire (conn (client (HandleClient (fun _ => amb0) s))) =
      (wire (conn (client s)) ++ greeting ++ w ++ [ConnClose])%list /\
    connected (client (HandleClient (fun _ => amb0) s)) = false /\
    state (client (HandleClient (fun _ => amb0) s)) = StateDisconnecting /\
    closed (conn (client (HandleClient (fun _ => amb0) s))) = true.
Proof.
  cbv zeta.
  apply (HandleClient_closes_once (fun _ => amb0)
           (mkSession (fresh_client ["bob"; "hunter22"; "quit"]) db0)).
  reflexivity.
Defined.

Lemma handleGameCommand_relays_witness :
  wire (conn (client (snd (handleGameCommand "look" bob_playing)))) =
    [Flushed ("You say: look" ++ CRLF); Flushed "> "].
Proof.
  pose proof (handleGameCommand_relays "look" bob_playing eq_refl) as H.
  rewrite decide_False in H by (vm_compute; discriminate).
  destruct H as (_ & H & _). exact H.
Defined.

Lemma selectCharacter_enters_first_match_witness :
  characterID (client (snd (selectCharacter "HERO" bob_selecting))) = "ch-1" /\
  state (client (snd (selectCharacter "HERO" bob_selecting))) = StateInGame.
Proof.
  destruct (selectCharacter_enters_first_match "HERO"
              [interfaces.mkSummary "ch-1" "Hero" "human" "warrior" 1 "start" "never" true]
              bob_selecting) as (_ & _ & _ & H).
  - reflexivity.
  - vm_compute. reflexivity.
  - destruct H as (H1 & H2 & _). split; [exact H1 | exact H2].
Defined.

Lemma listCharacters_rows_witness :
  wire (conn (client (snd (listCharacters bob_selecting)))) =
    flushed_lines
      [String LF "Your Characters:";
       "Name           Race      Class     Level  Status    Last Played";
       "--------------------------------------------------------------";
       "Hero Alive"; ""].
Proof.
  destruct (listCharacters_rows
              [interfaces.mkSummary "ch-1" "Hero" "human" "warrior" 1 "start" "never" true]
              bob_selecting) as (H & _).
  - reflexivity.
  - vm_compute. reflexivity.
  - discriminate.
  - exact H.
Defined.

Lemma handleAccountCreation_outcome_witness :
  let s := mkSession (SetState StateCreatingAccount (fresh_client [])) db0 in
  state (client (snd (handleAccountCreation " alice@example.org " s))) =
    StateConfirmingPassword /\
  tempEmail (client (snd (handleAccountCreation " alice@example.org " s))) =
    "alice@example.org".
Proof.
  cbv zeta.
  destruct (handleAccountCreation_outcome " alice@example.org "
              (mkSession (SetState StateCreatingAccount (fresh_client [])) db0))
    as (_ & _ & H).
  - reflexivity.
  - rewrite decide_False in H by (vm_compute; intros [E|E]; discriminate E).
    change (GetPlayerByEmail db0 (TrimSpace " alice@example.org "))
      with (@None player.Player) in H.
    destruct H as (_ & H1 & H2). split; [exact H1 | exact H2].
Defined.

Lemma handleLogin_known_player_witness :
  let s := mkSession (fresh_client []) db0 in
  state (client (snd (handleLogin "bob" s))) = StateAuthenticating /\
  playerID (client (snd (handleLogin "bob" s))) = "p-bob".
Proof.
  cbv zeta.
  destruct (handleLogin_known_player "bob" bob (mkSession (fresh_client []) db0))
    as (_ & H).
  - reflexivity.
  - vm_compute. discriminate.
  - vm_compute. reflexivity.
  - destruct H as (_ & H1 & H2 & _). split; [exact H1 | exact H2].
Defined.

Lemma login_flow_witness :
  let s := mkSession (fresh_client ["bob"; "hunter22"]) db0 in
  state (client (turn amb0 (turn amb0 s))) = StateCharacterSelection /\
  playerID (client (turn amb0 (turn amb0 s))) = "p-bob".
Proof.
  cbv zeta.
  destruct (login_flow 0 (fun _ => amb0) 0
              (mkSession (fresh_client ["bob"; "hunter22"]) db0)
              (list_ascii_of_string "bob")
              (list_ascii_of_string "hunter22" ++ [LF])
              (list_ascii_of_string "hunter22") [] bob bob)
    as (_ & _ & H1 & H2 & _).
  - reflexivity.
  - reflexivity.
  - split; [reflexivity | constructor].
  - vm_compute. reflexivity.
  - vm_compute. intuition discriminate.
  - vm_compute. reflexivity.
  - vm_compute. reflexivity.
  - vm_compute. discriminate.
  - vm_compute. reflexivity.
  - reflexivity.
  - discriminate.
  - vm_compute. discriminate.
  - vm_compute. reflexivity.
  - vm_compute. reflexivity.
  - split; [exact H1 | exact H2].
Defined.

Lemma account_creation_flow_witness :
  let s := mkSession
             (fresh_client ["alice"; "alice@example.org"; "secret1"; "secret1"]) db0 in
  state (client (turn amb0 (turn amb0 (turn amb0 (turn amb0 s))))) =
    StateCharacterSelection /\
  playerID (client (turn amb0 (turn amb0 (turn amb0 (turn amb0 s))))) = "p-new".
Proof.
  cbv zeta.
  destruct (account_creation_flow 0 (fun _ => amb0) 0
              (mkSession
                 (fresh_client ["alice"; "alice@example.org"; "secret1"; "secret1"]) db0)
              (list_ascii_of_string "alice")
              (list_ascii_of_string "alice@example.org")
              (list_ascii_of_string "secret1" ++ LF :: list_ascii_of_string "secret1" ++ [LF])
              (list_ascii_of_string "secret1")
              (list_ascii_of_string "secret1" ++ [LF])
              (list_ascii_of_string "secret1") [] "bcrypt:secret1")
    as (_ & _ & H1 & H2 & _).
  - reflexivity.
  - reflexivity.
  - reflexivity.
  - split; [reflexivity | constructor].
  - vm_compute. reflexivity.
  - vm_compute. intuition discriminate.
  - vm_compute. intuition discriminate.
  - vm_compute. reflexivity.
  - vm_compute. reflexivity.
  - vm_compute. reflexivity.
  - vm_compute. reflexivity.
  - vm_compute. discriminate.
  - vm_compute. reflexivity.
  - vm_compute. discriminate.
  - vm_compute. reflexivity.
  - vm_compute. reflexivity.
  - vm_compute. lia.
  - vm_compute. reflexivity.
  - vm_compute. reflexivity.
  - vm_compute. reflexivity.
  - split; [exact H1 | exact H2].
Defined.

Lemma pending_password_is_long_witness :
  pending_ok (client (sessionLoop 5 (fun _ => amb0) 0
    (mkSession (fresh_client ["alice"; "alice@example.org"; "abc"; "secret1"]) db0))).
Proof.
  apply (pending_password_is_long 5 (fun _ => amb0) 0%nat
           (mkSession (fresh_client ["alice"; "alice@example.org"; "abc"; "secret1"]) db0)).
  left. reflexivity.
Defined.

Lemma account_password_is_long_witness :
  let s := mkSession (creating "alice" "a@example.org" "secret1") db0 in
  repo (snd (dispatch amb0 "secret1" s)) = repo s \/
  exists passwordHash,
    (6 <= String.length (TrimSpace "secret1"))%nat /\
    TrimSpace "secret1" = tempPassword (client s) /\
    GenerateFromPassword (TrimSpace "secret1") = Some passwordHash /\
    repo (snd (dispatch amb0 "secret1" s)) =
      snd (CreatePlayer (repo s)
             (player.NewPlayer (amb_uuid amb0) (amb_now amb0) (tempUsername (client s))
                (tempEmail (client s)) passwordHash)).
Proof.
  cbv zeta.
  apply (account_password_is_long amb0 "secret1"
           (mkSession (creating "alice" "a@example.org" "secret1") db0)).
  - reflexivity.
  - right. vm_compute. lia.
Defined.


Lemma quit_ends_the_session_witness :
  connected (client (snd (handleCharacterSelection amb0 "QUIT now" bob_selecting))) = false.
Proof.
  destruct (quit_ends_the_session amb0 "QUIT now" "QUIT" ["now"] bob_selecting)
    as (_ & _ & H).
  - reflexivity.
  - vm_compute. reflexivity.
  - left. vm_compute. reflexivity.
  - exact H.
Defined.

End ConcreteTurns.
